(** * nnxlm: forward pass of the Phi-3 and Qwen-3 decoders

    A shallow embedding of [src/nnxlm/phi3.py] and [src/nnxlm/qwen3.py].

    Arrays are nested lists in row-major order ([tensor3] is
    (batch, sequence, feature), [tensor4] is (batch, head, sequence,
    feature)).  The element type is abstract: the class [Scalar] lists the
    arithmetic the two files (and the jax/flax kernels they call) perform on
    array elements, without any algebraic law, so that every statement
    proved for all instances holds whatever the arithmetic rounds to.  The
    instance [xreal] (the reals extended with the two infinities and a
    not-a-number value, no rounding) is used for the statements that are
    about the values of a softmax.

    The functions are specified on arrays of the shapes the program
    expects.  Shape errors raised by the array library (a reshape whose
    sizes do not match, operands that do not broadcast) are not part of
    the model: on such inputs the list functions truncate.  The Python
    exceptions raised by the two files themselves ([//] by zero, [0 ** -0.5],
    [int] of a non-finite float, [cache[i]] out of range) are modelled. *)

From Stdlib Require Import List ZArith Bool Arith Lia Reals Lra.
Import ListNotations.

Set Implicit Arguments.

(** ** Python exceptions and the two monads of the development *)

Inductive exn : Type :=
| ZeroDivisionError
| ValueError
| OverflowError
| IndexError
| AttributeError
| ShapeError.

Definition result (A : Type) : Type := (exn + A)%type.

Definition ok {A} (a : A) : result A := inr a.
Definition raise {A} (e : exn) : result A := inl e.

Definition is_ok {A} (r : result A) : bool :=
  match r with inr _ => true | inl _ => false end.

(** Python floor division [a // b] on integers. *)
Definition floordiv (a b : Z) : result Z :=
  if (b =? 0)%Z then raise ZeroDivisionError else ok (a / b)%Z.

(** ** Scalars: the arithmetic on array elements *)

Class Scalar (T : Type) : Type := {
  szero : T;
  sone : T;
  sninf : T;                 (* -inf *)
  snan : T;                  (* the fill value of an out-of-bounds gather *)
  sadd : T -> T -> T;
  ssub : T -> T -> T;
  smul : T -> T -> T;
  sdiv : T -> T -> T;
  sneg : T -> T;
  sexp : T -> T;
  smax : T -> T -> T;
  srsqrt : T -> T;           (* lax.rsqrt *)
  of_Z : Z -> T;             (* int -> float *)
  pow_neg_half : Z -> T;     (* n ** -0.5 for a non-zero int n *)
  to_int : T -> result Z     (* Python int(float) *)
}.

(** ** Generic list functions *)

Section ListOps.
Context {A B C : Type}.

Fixpoint zipWith (f : A -> B -> C) (xs : list A) (ys : list B) : list C :=
  match xs, ys with
  | x :: xs', y :: ys' => f x y :: zipWith f xs' ys'
  | _, _ => []
  end.
End ListOps.

Section Shapes.
Context {A : Type}.

(** Python slice [r[a:b]] for [0 <= a], [0 <= b]. *)
Definition slice (a b : nat) (r : list A) : list A := skipn a (firstn b r).

(** [r.reshape(n, d)] on one row: [n] consecutive chunks of [d] elements. *)
Fixpoint chunks (d n : nat) (r : list A) : list (list A) :=
  match n with
  | O => []
  | S n' => firstn d r :: chunks d n' (skipn d r)
  end.

(** Exchange of the two leading axes of an array whose second axis has
    extent [n]: entry [j] of the result collects entry [j] of every row.
    The extent is passed because a nested list does not record the extent
    of an axis that lies under an empty one. *)
Definition transpose (n : nat) (dflt : A) (m : list (list A)) : list (list A) :=
  map (fun j => map (fun r => nth j r dflt) m) (seq 0 n).

Definition ncols (m : list (list A)) : nat := length (hd [] m).

(** [jnp.repeat(l, repeats=n, axis=0)]: each entry repeated [n] times in
    place. *)
Definition repeat_each (n : nat) (l : list A) : list A :=
  flat_map (fun x => repeat x n) l.

(** numpy broadcasting of two operands along one axis: an axis of extent 1
    is stretched to the extent of the other operand. *)
Definition bzip {B C : Type} (f : A -> B -> C) (xs : list A) (ys : list B) : list C :=
  match xs, ys with
  | [x], _ => map (f x) ys
  | _, [y] => map (fun x => f x y) xs
  | _, _ => zipWith f xs ys
  end.
End Shapes.

(** ** Arrays of scalars *)

(** Arrays of rank 1 to 4. *)
Abbreviation vec T := (list T) (only parsing).
Abbreviation mat T := (list (list T)) (only parsing).
Abbreviation tensor3 T := (list (list (list T))) (only parsing).
Abbreviation tensor4 T := (list (list (list (list T)))) (only parsing).

Section Tensors.
Context {T : Type} `{Scalar T}.

Definition tsum (v : vec T) : T := fold_right sadd szero v.

Definition dot (a b : vec T) : T := tsum (zipWith smul a b).

(** [jnp.matmul] on two matrices: entry (i, j) is the dot product of row
    [i] of [a] and column [j] of [b]. *)
Definition matmul (a b : mat T) : mat T :=
  map (fun r => map (dot r) (transpose (ncols b) szero b)) a.

(** [k.swapaxes(-1, -2)] on one (sequence, feature) matrix. *)
Definition swapaxes (m : mat T) : mat T := transpose (ncols m) szero m.

(** Elementwise operations. *)
Definition vadd (a b : vec T) : vec T := zipWith sadd a b.
Definition vmul (a b : vec T) : vec T := zipWith smul a b.
Definition tadd3 (a b : tensor3 T) : tensor3 T := zipWith (zipWith vadd) a b.
Definition tmul3 (a b : tensor3 T) : tensor3 T := zipWith (zipWith vmul) a b.

(** [w * scale] with a Python float. *)
Definition tscale4 (w : tensor4 T) (c : T) : tensor4 T :=
  map (map (map (map (fun e => smul e c)))) w.

(** The static shape of a rank-4 array. *)
Definition shape4 (t : tensor4 T) : nat * nat * nat * nat :=
  (length t, ncols t, ncols (hd [] t), ncols (hd [] (hd [] t))).

(** Two extents broadcast when they are equal or one of them is 1. *)
Definition compatible (m n : nat) : bool :=
  (m =? n)%nat || (m =? 1)%nat || (n =? 1)%nat.

Definition broadcastable (s1 s2 : nat * nat * nat * nat) : bool :=
  let '(a1, b1, c1, d1) := s1 in
  let '(a2, b2, c2, d2) := s2 in
  compatible a1 a2 && compatible b1 b2 && compatible c1 c2 && compatible d1 d2.

(** [w + attention_mask] with broadcasting on every axis; the array library
    rejects operands whose shapes do not broadcast. *)
Definition add_mask (w mask : tensor4 T) : result (tensor4 T) :=
  if broadcastable (shape4 w) (shape4 mask)
  then ok (bzip (bzip (bzip (bzip sadd))) w mask)
  else raise ShapeError.

(** [jax.nn.softmax] along one row: the maximum is subtracted before
    exponentiation ([initial=-inf]), the exponentials are divided by their
    sum. *)
Definition softmax_row (r : vec T) : vec T :=
  let m := fold_right smax sninf r in
  let u := map (fun e => sexp (ssub e m)) r in
  let s := tsum u in
  map (fun e => sdiv e s) u.

Definition softmax4 (w : tensor4 T) : tensor4 T := map (map (map softmax_row)) w.

(** [jax.nn.sigmoid] and [jax.nn.silu]. *)
Definition sigmoid (e : T) : T := sdiv sone (sadd sone (sexp (sneg e))).
Definition silu (e : T) : T := smul e (sigmoid e).
Definition silu3 (x : tensor3 T) : tensor3 T := map (map (map silu)) x.

(** [jnp.matmul] on rank-4 arrays: batched over the two leading axes. *)
Definition matmul4 (a b : tensor4 T) : tensor4 T := zipWith (zipWith matmul) a b.
Definition swapaxes4 (k : tensor4 T) : tensor4 T := map (map swapaxes) k.

(** [jnp.transpose(q, (0, 2, 1, 3))]; [n] is the extent of axis 2. *)
Definition transpose_0213 (n : nat) (q : tensor4 T) : tensor4 T :=
  map (transpose n []) q.

(** [q.reshape(B, L, n, d)] of a (B, L, n*d) array. *)
Definition split_last (n d : nat) (x : tensor3 T) : tensor4 T :=
  map (map (chunks d n)) x.

(** [w.reshape(B, L, -1)] of a (B, L, n, d) array. *)
Definition merge_last (w : tensor4 T) : tensor3 T := map (map (@concat T)) w.

(** [k.repeat(repeats=n, axis=1)]. *)
Definition repeat_axis1 (n : nat) (k : tensor4 T) : tensor4 T :=
  map (repeat_each n) k.

(** *** flax.nnx layers *)

(** [nnx.Linear(use_bias=False)]: the kernel has shape
    (in_features, out_features). *)
Record Linear : Type := { kernel : mat T }.

Definition Linear_call (l : Linear) (x : tensor3 T) : tensor3 T :=
  map (fun xb => matmul xb (kernel l)) x.

(** [nnx.RMSNorm]: scale-only normalisation of the last axis,
    [x * (rsqrt(mean(x * x) + epsilon) * scale)]. *)
Record RMSNorm : Type := { rms_scale : vec T; epsilon : T }.

Definition rms_row (n : RMSNorm) (r : vec T) : vec T :=
  let var := sdiv (tsum (map (fun e => smul e e) r)) (of_Z (Z.of_nat (length r))) in
  let mul := srsqrt (sadd var (epsilon n)) in
  zipWith (fun e s => smul e (smul mul s)) r (rms_scale n).

Definition RMSNorm_call3 (n : RMSNorm) (x : tensor3 T) : tensor3 T :=
  map (map (rms_row n)) x.
Definition RMSNorm_call4 (n : RMSNorm) (x : tensor4 T) : tensor4 T :=
  map (map (map (rms_row n))) x.

(** [nnx.Embed]: the table has shape (num_embeddings, features).  The
    lookup is [jnp.take(embedding, ids, axis=0)]: a negative id counts from
    the end, an id outside the table yields a row of the fill value. *)
Record Embed : Type := { embedding : mat T }.

Definition take_row (e : Embed) (id : Z) : vec T :=
  let v := Z.of_nat (length (embedding e)) in
  if ((0 <=? id) && (id <? v))%Z then nth (Z.to_nat id) (embedding e) []
  else if ((- v <=? id) && (id <? 0))%Z then nth (Z.to_nat (id + v)) (embedding e) []
  else repeat snan (ncols (embedding e)).

Definition Embed_call (e : Embed) (ids : list (list Z)) : tensor3 T :=
  map (map (take_row e)) ids.

(** [Embed.attend(x)] is [jnp.dot(x, embedding.T)]. *)
Definition Embed_attend (e : Embed) (x : tensor3 T) : tensor3 T :=
  map (fun xb => matmul xb (swapaxes (embedding e))) x.
End Tensors.

Arguments Linear T : clear implicits.
Arguments RMSNorm T : clear implicits.
Arguments Embed T : clear implicits.

(** ** The configuration object

    One record for the attributes the two files read from [config]. *)

Module Config.
Record t (T : Type) : Type := {
  hidden_size : Z;
  num_attention_heads : Z;
  num_key_value_heads : Z;
  head_dim : Z;                    (* read by qwen3 only *)
  num_hidden_layers : Z;
  intermediate_size : Z;
  rms_norm_eps : T;
  partial_rotary_factor : T;       (* read by phi3 only *)
  vocab_size : Z;
  tie_word_embeddings : bool
}.
End Config.

(** ** Construction: [nnx.Rngs] and the layer constructors

    [nnx.Rngs] is a stateful source of initial parameter values; every
    parameter drawn advances it.  Construction is a computation that threads
    the source and may raise. *)

Record Rngs (T : Type) : Type := {
  count : nat;
  stream : nat -> nat -> nat -> mat T
}.

Definition Init (T A : Type) : Type := Rngs T -> result (A * Rngs T).

Definition iret {T A} (a : A) : Init T A := fun r => ok (a, r).

Definition ibind {T A B} (m : Init T A) (f : A -> Init T B) : Init T B :=
  fun r => match m r with
           | inl e => inl e
           | inr (a, r') => f a r'
           end.

Definition ilift {T A} (x : result A) : Init T A :=
  fun r => match x with
           | inl e => inl e
           | inr a => ok (a, r)
           end.

Declare Scope init_scope.
Delimit Scope init_scope with init.
Notation "x <- m ;; k" := (ibind m (fun x => k))
  (at level 61, m at next level, right associativity) : init_scope.

Section Constructors.
Context {T : Type} `{Scalar T}.
Local Open Scope init_scope.

Definition advance (r : Rngs T) : Rngs T :=
  {| count := S (count r); stream := stream r |}.

Definition draw (i o : nat) : Init T (mat T) :=
  fun r => ok (stream r (count r) i o, advance r).

(** The array library rejects a negative extent. *)
Definition check_extent (n : Z) : Init T nat :=
  ilift (if (n <? 0)%Z then raise ShapeError else ok (Z.to_nat n)).

Definition nnx_Linear (in_features out_features : Z) : Init T (Linear T) :=
  i <- check_extent in_features ;;
  o <- check_extent out_features ;;
  k <- draw i o ;;
  iret {| kernel := k |}.

(** The scale of [nnx.RMSNorm] is initialised to ones. *)
Definition nnx_RMSNorm (num_features : Z) (eps : T) : Init T (RMSNorm T) :=
  n <- check_extent num_features ;;
  _ <- draw 0 0 ;;
  iret {| rms_scale := repeat sone n; epsilon := eps |}.

Definition nnx_Embed (num_embeddings features : Z) : Init T (Embed T) :=
  v <- check_extent num_embeddings ;;
  f <- check_extent features ;;
  e <- draw v f ;;
  iret {| embedding := e |}.

(** [[mk for _ in range(n)]]. *)
Fixpoint init_list {A} (n : nat) (mk : Init T A) : Init T (list A) :=
  match n with
  | O => iret []
  | S n' => a <- mk ;; l <- init_list n' mk ;; iret (a :: l)
  end.
End Constructors.

(** ** The collaborators from [nnxlm.utils]

    [phi3.py] and [qwen3.py] import [apply_rope] from [.utils] and are handed
    a cache object; neither is part of the two files. *)

Section Utils.
Context {T : Type} `{Scalar T}.

(** Modelled from the spec: the rotation of one vector (section 4.1,
    RotaryEncoder; [apply_rope] of [nnxlm/utils.py] is missing).  The
    leading [rot] entries are split into two halves [x1], [x2] and become
    [x1*cos - x2*sin] followed by [x2*cos + x1*sin]; the remaining entries
    pass through. *)
Definition rotate_vec (rot : nat) (c s x : vec T) : vec T :=
  let xr := firstn rot x in
  let xp := skipn rot x in
  let x1 := firstn (rot / 2) xr in
  let x2 := skipn (rot / 2) xr in
  zipWith ssub (vmul x1 c) (vmul x2 s)
    ++ zipWith sadd (vmul x2 c) (vmul x1 s)
    ++ xp.

(** Modelled from the spec: the rotation of every position of one
    (sequence, feature) matrix by the table row of that position; without
    [rot_dims] the whole vector is rotated (section 4.1). *)
Definition rope_seq (rot_dims : option nat) (cos sin : mat T) (m : mat T) : mat T :=
  zipWith (fun cs x =>
             rotate_vec (match rot_dims with Some r => r | None => length x end)
                        (fst cs) (snd cs) x)
          (combine cos sin) m.

(** Modelled from the spec: [apply_rope(q, k, cos, sin, rot_dims)] of the
    missing [nnxlm/utils.py] (section 4.1): the same table, one row per
    position of the call, applied to every batch entry and head of the
    query and of the key. *)
Definition apply_rope (q k : tensor4 T) (cos sin : mat T) (rot_dims : option nat)
  : tensor4 T * tensor4 T :=
  (map (map (rope_seq rot_dims cos sin)) q,
   map (map (rope_seq rot_dims cos sin)) k).

(** Modelled from the spec: the per-layer cache entry (sections 3 and 4.2,
    KVCacheEntry; the cache class is missing from the sources): the keys
    and values of the positions seen so far, absent before the first
    update. *)
Record KVCache : Type := { history : option (tensor4 T * tensor4 T) }.

Definition concat_axis2 (a b : tensor4 T) : tensor4 T :=
  zipWith (zipWith (@app (vec T))) a b.

(** Modelled from the spec: [cache(k, v)], the update of section 4.2: the
    new keys and values are appended to the stored history along the
    sequence axis (earliest position first), the cache keeps the result and
    returns it. *)
Definition KVCache_call (c : KVCache) (k v : tensor4 T)
  : tensor4 T * tensor4 T * KVCache :=
  match history c with
  | None => (k, v, {| history := Some (k, v) |})
  | Some (ks, vs) =>
      let k' := concat_axis2 ks k in
      let v' := concat_axis2 vs v in
      (k', v', {| history := Some (k', v') |})
  end.

(** [if cache is not None: k, v = cache(k, v)], with the cache after the
    statement. *)
Definition consult_cache (cache : option KVCache) (k v : tensor4 T)
  : tensor4 T * tensor4 T * option KVCache :=
  match cache with
  | None => (k, v, None)
  | Some c => let '(k', v', c') := KVCache_call c k v in (k', v', Some c')
  end.
End Utils.

Arguments KVCache T : clear implicits.

(** ** The part of [Attention.__call__] that the two files share verbatim *)

Section AttentionCore.
Context {T : Type} `{Scalar T}.

(** [w = jnp.matmul(q, k.swapaxes(-1, -2)) * self.scale] and
    [w = w + attention_mask]. *)
Definition attn_scores (q k : tensor4 T) (scale : T) (attention_mask : tensor4 T)
  : result (tensor4 T) :=
  add_mask (tscale4 (matmul4 q (swapaxes4 k)) scale) attention_mask.

(** [w = jax.nn.softmax(w, axis=-1)]. *)
Definition attn_weights (q k : tensor4 T) (scale : T) (attention_mask : tensor4 T)
  : result (tensor4 T) :=
  match attn_scores q k scale attention_mask with
  | inl e => inl e
  | inr w => ok (softmax4 w)
  end.

(** [w = jnp.matmul(w, v)], [w = w.transpose((0, 2, 1, 3))],
    [w = w.reshape(B, L, -1)] and [self.o_proj(w)]. *)
Definition attn_output (L : nat) (w v : tensor4 T) (o_proj : Linear T) : tensor3 T :=
  Linear_call o_proj (merge_last (transpose_0213 L (matmul4 w v))).

(** The last seven statements of [Attention.__call__], from the scores to
    the output projection. *)
Definition attend (L : nat) (q k v : tensor4 T) (scale : T)
           (attention_mask : tensor4 T) (o_proj : Linear T) : result (tensor3 T) :=
  match attn_weights q k scale attention_mask with
  | inl e => inl e
  | inr w => ok (attn_output L w v o_proj)
  end.

(** Update of one entry of the Python list [cache]. *)
Definition set_nth {A} (i : nat) (a : A) (l : list A) : list A :=
  firstn i l ++ a :: skipn (S i) l.
End AttentionCore.

(** ** [src/nnxlm/phi3.py] *)

Module Phi3.
Section Phi3.
Context {T : Type} `{Scalar T}.
Local Open Scope init_scope.
Local Open Scope Z_scope.

Record Attention : Type := {
  n_heads : Z;
  n_kv_heads : Z;
  head_dim : Z;
  scale : T;
  qkv_proj : Linear T;
  o_proj : Linear T;
  rot_dims : Z
}.

(** [Attention.__init__]. *)
Definition Attention_init (config : Config.t T) : Init T Attention :=
  let n_heads := Config.num_attention_heads config in
  let n_kv_heads := Config.num_key_value_heads config in
  head_dim <- ilift (floordiv (Config.hidden_size config) n_heads) ;;
  scale <- ilift (if head_dim =? 0 then raise ZeroDivisionError
                  else ok (pow_neg_half head_dim)) ;;
  let op_size := n_heads * head_dim + 2 * (n_kv_heads * head_dim) in
  qkv_proj <- nnx_Linear (Config.hidden_size config) op_size ;;
  o_proj <- nnx_Linear (n_heads * head_dim) (Config.hidden_size config) ;;
  rot_dims <- ilift (to_int (smul (of_Z head_dim) (Config.partial_rotary_factor config))) ;;
  iret {| n_heads := n_heads; n_kv_heads := n_kv_heads; head_dim := head_dim;
          scale := scale; qkv_proj := qkv_proj; o_proj := o_proj;
          rot_dims := rot_dims |}.

(** Lines 20-25: the fused projection and its three slices. *)
Definition qkv_split (a : Attention) (x : tensor3 T)
  : tensor3 T * tensor3 T * tensor3 T :=
  let qkv := Linear_call (qkv_proj a) x in
  let query_pos := n_heads a * head_dim a in
  let kv_pos := query_pos + n_kv_heads a * head_dim a in
  let q := map (map (firstn (Z.to_nat query_pos))) qkv in
  let k := map (map (slice (Z.to_nat query_pos) (Z.to_nat kv_pos))) qkv in
  let v := map (map (skipn (Z.to_nat kv_pos))) qkv in
  (q, k, v).

(** Lines 35-38: grouped-query replication of the keys and values. *)
Definition repeat_kv (a : Attention) (k v : tensor4 T)
  : result (tensor4 T * tensor4 T) :=
  if n_heads a >? n_kv_heads a then
    match floordiv (n_heads a) (n_kv_heads a) with
    | inl e => inl e
    | inr n_repeat =>
        if n_repeat <? 0 then raise ValueError
        else ok (repeat_axis1 (Z.to_nat n_repeat) k,
                 repeat_axis1 (Z.to_nat n_repeat) v)
    end
  else ok (k, v).

(** Lines 20-32: the query, key and value of the call, per head and
    rotated. *)
Definition project_heads (a : Attention) (x : tensor3 T) (rope : mat T * mat T)
  : tensor4 T * tensor4 T * tensor4 T :=
  let '(q, k, v) := qkv_split a x in
  let q := split_last (Z.to_nat (n_heads a)) (Z.to_nat (head_dim a)) q in
  let k := split_last (Z.to_nat (n_kv_heads a)) (Z.to_nat (head_dim a)) k in
  let v := split_last (Z.to_nat (n_kv_heads a)) (Z.to_nat (head_dim a)) v in
  let q := transpose_0213 (Z.to_nat (n_heads a)) q in
  let k := transpose_0213 (Z.to_nat (n_kv_heads a)) k in
  let v := transpose_0213 (Z.to_nat (n_kv_heads a)) v in
  let '(q, k) := apply_rope q k (fst rope) (snd rope) (Some (Z.to_nat (rot_dims a))) in
  (q, k, v).

(** [Attention.__call__]; the second component is the cache object after
    the call. *)
Definition Attention_call (a : Attention) (x : tensor3 T)
           (attention_mask : tensor4 T) (rope : mat T * mat T)
           (cache : option (KVCache T)) : result (tensor3 T) * option (KVCache T) :=
  let L := ncols x in
  let '(q, k, v) := project_heads a x rope in
  let '(k, v, cache') := consult_cache cache k v in
  match repeat_kv a k v with
  | inl e => (inl e, cache')
    | inr (k, v) => (attend L q k v (scale a) attention_mask (o_proj a), cache')
  end.

(** For comparison: the replication of lines 36-38 without the guard of
    line 35. *)
Definition repeat_kv_always (a : Attention) (k v : tensor4 T)
  : result (tensor4 T * tensor4 T) :=
  match floordiv (n_heads a) (n_kv_heads a) with
  | inl e => inl e
  | inr n_repeat =>
      if n_repeat <? 0 then raise ValueError
      else ok (repeat_axis1 (Z.to_nat n_repeat) k,
               repeat_axis1 (Z.to_nat n_repeat) v)
  end.

(** For comparison: [Attention.__call__] with the replication performed
    unconditionally. *)
Definition Attention_call_always_repeat (a : Attention) (x : tensor3 T)
           (attention_mask : tensor4 T) (rope : mat T * mat T)
           (cache : option (KVCache T)) : result (tensor3 T) * option (KVCache T) :=
  let L := ncols x in
  let '(q, k, v) := project_heads a x rope in
  let '(k, v, cache') := consult_cache cache k v in
  match repeat_kv_always a k v with
  | inl e => (inl e, cache')
    | inr (k, v) => (attend L q k v (scale a) attention_mask (o_proj a), cache')
  end.

Record MLP : Type := {
  gate_up_proj : Linear T;
  down_proj : Linear T
}.

Definition MLP_init (config : Config.t T) : Init T MLP :=
  gate_up_proj <- nnx_Linear (Config.hidden_size config) (2 * Config.intermediate_size config) ;;
  down_proj <- nnx_Linear (Config.intermediate_size config) (Config.hidden_size config) ;;
  iret {| gate_up_proj := gate_up_proj; down_proj := down_proj |}.

(** [jnp.split(x, 2, axis=-1)]: the two halves of the last axis. *)
Definition split2 (x : tensor3 T) : tensor3 T * tensor3 T :=
  (map (map (fun r => firstn (Nat.div (length r) 2) r)) x,
   map (map (fun r => skipn (Nat.div (length r) 2) r)) x).

(** [MLP.__call__]. *)
Definition MLP_call (m : MLP) (x : tensor3 T) : tensor3 T :=
  let x := Linear_call (gate_up_proj m) x in
  let '(gate, up) := split2 x in
  Linear_call (down_proj m) (tmul3 (silu3 gate) up).

Record TransformerBlock : Type := {
  self_attn : Attention;
  mlp : MLP;
  input_layernorm : RMSNorm T;
  post_attention_layernorm : RMSNorm T
}.

Definition TransformerBlock_init (config : Config.t T) : Init T TransformerBlock :=
  self_attn <- Attention_init config ;;
  mlp <- MLP_init config ;;
  input_layernorm <- nnx_RMSNorm (Config.hidden_size config) (Config.rms_norm_eps config) ;;
  post_attention_layernorm <- nnx_RMSNorm (Config.hidden_size config) (Config.rms_norm_eps config) ;;
  iret {| self_attn := self_attn; mlp := mlp; input_layernorm := input_layernorm;
          post_attention_layernorm := post_attention_layernorm |}.

(** [TransformerBlock.__call__]. *)
Definition TransformerBlock_call (b : TransformerBlock) (x : tensor3 T)
           (attention_mask : tensor4 T) (rope : mat T * mat T)
           (cache : option (KVCache T)) : result (tensor3 T) * option (KVCache T) :=
  let '(r, cache') :=
    Attention_call (self_attn b) (RMSNorm_call3 (input_layernorm b) x)
                   attention_mask rope cache in
  match r with
  | inl e => (inl e, cache')
  | inr h =>
      let x := tadd3 x h in
      (ok (tadd3 x (MLP_call (mlp b) (RMSNorm_call3 (post_attention_layernorm b) x))),
       cache')
  end.

Record Phi3Model : Type := {
  layers : list TransformerBlock;
  embed_tokens : Embed T;
  norm : RMSNorm T
}.

Definition Phi3Model_init (config : Config.t T) : Init T Phi3Model :=
  layers <- init_list (Z.to_nat (Config.num_hidden_layers config)) (TransformerBlock_init config) ;;
  embed_tokens <- nnx_Embed (Config.vocab_size config) (Config.hidden_size config) ;;
  norm <- nnx_RMSNorm (Config.hidden_size config) (Config.rms_norm_eps config) ;;
  iret {| layers := layers; embed_tokens := embed_tokens; norm := norm |}.

(** The loop [for i, layer in enumerate(self.layers)], from index [i] on;
    [cache] is the Python list handed to the model, returned as it is when
    the loop ends or raises. *)
Fixpoint run_layers (ls : list TransformerBlock) (i : nat) (x : tensor3 T)
         (attention_mask : tensor4 T) (rope : mat T * mat T)
         (cache : list (option (KVCache T)))
  : result (tensor3 T) * list (option (KVCache T)) :=
  match ls with
  | [] => (ok x, cache)
  | layer :: rest =>
      match nth_error cache i with
      | None => (raise IndexError, cache)
      | Some c =>
          let '(r, c') := TransformerBlock_call layer x attention_mask rope c in
          let cache' := set_nth i c' cache in
          match r with
          | inl e => (inl e, cache')
          | inr x' => run_layers rest (S i) x' attention_mask rope cache'
          end
      end
  end.

(** [Phi3Model.__call__]. *)
Definition Phi3Model_call (m : Phi3Model) (input_ids : list (list Z))
           (attention_mask : tensor4 T) (rope : mat T * mat T)
           (cache : list (option (KVCache T)))
  : result (tensor3 T) * list (option (KVCache T)) :=
  let x := Embed_call (embed_tokens m) input_ids in
  let '(r, cache') := run_layers (layers m) 0 x attention_mask rope cache in
  match r with
  | inl e => (inl e, cache')
  | inr x => (ok (RMSNorm_call3 (norm m) x), cache')
  end.

Record Phi3ForCausalLM : Type := {
  tie : bool;
  model : Phi3Model;
  lm_head : option (Linear T)       (* the attribute exists when [tie] is false *)
}.

Definition Phi3ForCausalLM_init (config : Config.t T) : Init T Phi3ForCausalLM :=
  let tie := Config.tie_word_embeddings config in
  model <- Phi3Model_init config ;;
  if negb tie then
    lm_head <- nnx_Linear (Config.hidden_size config) (Config.vocab_size config) ;;
    iret {| tie := tie; model := model; lm_head := Some lm_head |}
  else
    iret {| tie := tie; model := model; lm_head := None |}.

(** [Phi3ForCausalLM.__call__]. *)
Definition Phi3ForCausalLM_call (m : Phi3ForCausalLM) (input_ids : list (list Z))
           (attention_mask : tensor4 T) (rope : mat T * mat T)
           (cache : list (option (KVCache T)))
  : result (tensor3 T) * list (option (KVCache T)) :=
  let '(r, cache') := Phi3Model_call (model m) input_ids attention_mask rope cache in
  match r with
  | inl e => (inl e, cache')
  | inr x =>
      if tie m then (ok (Embed_attend (embed_tokens (model m)) x), cache')
      else match lm_head m with
           | Some l => (ok (Linear_call l x), cache')
           | None => (raise AttributeError, cache')
           end
  end.
End Phi3.
End Phi3.

(** ** [src/nnxlm/qwen3.py] *)

Module Qwen3.
Section Qwen3.
Context {T : Type} `{Scalar T}.
Local Open Scope init_scope.
Local Open Scope Z_scope.

Record Attention : Type := {
  num_attention_heads : Z;
  num_kv_heads : Z;
  head_dim : Z;
  scale : T;
  n_repeat : Z;
  q_proj : Linear T;
  k_proj : Linear T;
  v_proj : Linear T;
  o_proj : Linear T;
  q_norm : RMSNorm T;
  k_norm : RMSNorm T
}.

(** [Attention.__init__]. *)
Definition Attention_init (config : Config.t T) : Init T Attention :=
  let num_attention_heads := Config.num_attention_heads config in
  let num_kv_heads := Config.num_key_value_heads config in
  let head_dim := Config.head_dim config in
  scale <- ilift (if head_dim =? 0 then raise ZeroDivisionError
                  else ok (pow_neg_half head_dim)) ;;
  n_repeat <- ilift (floordiv num_attention_heads num_kv_heads) ;;
  q_proj <- nnx_Linear (Config.hidden_size config) (num_attention_heads * head_dim) ;;
  k_proj <- nnx_Linear (Config.hidden_size config) (num_kv_heads * head_dim) ;;
  v_proj <- nnx_Linear (Config.hidden_size config) (num_kv_heads * head_dim) ;;
  o_proj <- nnx_Linear (num_attention_heads * head_dim) (Config.hidden_size config) ;;
  q_norm <- nnx_RMSNorm (Config.head_dim config) (Config.rms_norm_eps config) ;;
  k_norm <- nnx_RMSNorm (Config.head_dim config) (Config.rms_norm_eps config) ;;
  iret {| num_attention_heads := num_attention_heads; num_kv_heads := num_kv_heads;
          head_dim := head_dim; scale := scale; n_repeat := n_repeat;
          q_proj := q_proj; k_proj := k_proj; v_proj := v_proj; o_proj := o_proj;
          q_norm := q_norm; k_norm := k_norm |}.

(** Lines 23-25: the three independent projections. *)
Definition qkv_project (a : Attention) (x : tensor3 T)
  : tensor3 T * tensor3 T * tensor3 T :=
  (Linear_call (q_proj a) x, Linear_call (k_proj a) x, Linear_call (v_proj a) x).

(** Lines 37-39: grouped-query replication of the keys and values. *)
Definition repeat_kv (a : Attention) (k v : tensor4 T) : tensor4 T * tensor4 T :=
  if n_repeat a >? 1 then
    (repeat_axis1 (Z.to_nat (n_repeat a)) k, repeat_axis1 (Z.to_nat (n_repeat a)) v)
  else (k, v).

(** Lines 23-34: the query, key and value of the call, per head,
    normalised and rotated. *)
Definition project_heads (a : Attention) (x : tensor3 T) (rope : mat T * mat T)
  : tensor4 T * tensor4 T * tensor4 T :=
  let '(q, k, v) := qkv_project a x in
  let q := split_last (Z.to_nat (num_attention_heads a)) (Z.to_nat (head_dim a)) q in
  let k := split_last (Z.to_nat (num_kv_heads a)) (Z.to_nat (head_dim a)) k in
  let v := split_last (Z.to_nat (num_kv_heads a)) (Z.to_nat (head_dim a)) v in
  let q := transpose_0213 (Z.to_nat (num_attention_heads a)) q in
  let k := transpose_0213 (Z.to_nat (num_kv_heads a)) k in
  let v := transpose_0213 (Z.to_nat (num_kv_heads a)) v in
  let q := RMSNorm_call4 (q_norm a) q in
  let k := RMSNorm_call4 (k_norm a) k in
  let '(q, k) := apply_rope q k (fst rope) (snd rope) None in
  (q, k, v).

(** [Attention.__call__]; the second component is the cache object after
    the call. *)
Definition Attention_call (a : Attention) (x : tensor3 T)
           (attention_mask : tensor4 T) (rope : mat T * mat T)
                      (cache : option (KVCache T)) : result (tensor3 T) * option (KVCache T) :=
  let L := ncols x in
  let '(q, k, v) := project_heads a x rope in
  let '(k, v, cache') := consult_cache cache k v in
    let '(k, v) := repeat_kv a k v in
  (attend L q k v (scale a) attention_mask (o_proj a), cache').

(** For comparison: [Attention.__call__] with the replication of lines
    38-39 performed without the guard of line 37. *)
Definition Attention_call_always_repeat (a : Attention) (x : tensor3 T)
           (attention_mask : tensor4 T) (rope : mat T * mat T)
                      (cache : option (KVCache T)) : result (tensor3 T) * option (KVCache T) :=
  let L := ncols x in
  let '(q, k, v) := project_heads a x rope in
  let '(k, v, cache') := consult_cache cache k v in
  let k := repeat_axis1 (Z.to_nat (n_repeat a)) k in
    let v := repeat_axis1 (Z.to_nat (n_repeat a)) v in
  (attend L q k v (scale a) attention_mask (o_proj a), cache').

Record MLP : Type := {
  gate_proj : Linear T;
  down_proj : Linear T;
  up_proj : Linear T
}.

Definition MLP_init (config : Config.t T) : Init T MLP :=
  gate_proj <- nnx_Linear (Config.hidden_size config) (Config.intermediate_size config) ;;
  down_proj <- nnx_Linear (Config.intermediate_size config) (Config.hidden_size config) ;;
  up_proj <- nnx_Linear (Config.hidden_size config) (Config.intermediate_size config) ;;
  iret {| gate_proj := gate_proj; down_proj := down_proj; up_proj := up_proj |}.

(** [MLP.__call__]. *)
Definition MLP_call (m : MLP) (x : tensor3 T) : tensor3 T :=
  let gate := Linear_call (gate_proj m) x in
  let up := Linear_call (up_proj m) x in
  Linear_call (down_proj m) (tmul3 (silu3 gate) up).

Record TransformerBlock : Type := {
  self_attn : Attention;
  mlp : MLP;
  input_layernorm : RMSNorm T;
  post_attention_layernorm : RMSNorm T
}.

Definition TransformerBlock_init (config : Config.t T) : Init T TransformerBlock :=
  self_attn <- Attention_init config ;;
  mlp <- MLP_init config ;;
  input_layernorm <- nnx_RMSNorm (Config.hidden_size config) (Config.rms_norm_eps config) ;;
  post_attention_layernorm <- nnx_RMSNorm (Config.hidden_size config) (Config.rms_norm_eps config) ;;
  iret {| self_attn := self_attn; mlp := mlp; input_layernorm := input_layernorm;
          post_attention_layernorm := post_attention_layernorm |}.

(** [TransformerBlock.__call__]. *)
Definition TransformerBlock_call (b : TransformerBlock) (x : tensor3 T)
           (attention_mask : tensor4 T) (rope : mat T * mat T)
                      (cache : option (KVCache T)) : result (tensor3 T) * option (KVCache T) :=
  let '(r, cache') :=
    Attention_call (self_attn b) (RMSNorm_call3 (input_layernorm b) x)
                   attention_mask rope cache in
  match r with
  | inl e => (inl e, cache')
  | inr h =>
      let x := tadd3 x h in
      (ok (tadd3 x (MLP_call (mlp b) (RMSNorm_call3 (post_attention_layernorm b) x))),
       cache')
  end.

Record Qwen3Model : Type := {
  layers : list TransformerBlock;
  embed_tokens : Embed T;
  norm : RMSNorm T
}.

Definition Qwen3Model_init (config : Config.t T) : Init T Qwen3Model :=
  layers <- init_list (Z.to_nat (Config.num_hidden_layers config)) (TransformerBlock_init config) ;;
  embed_tokens <- nnx_Embed (Config.vocab_size config) (Config.hidden_size config) ;;
  norm <- nnx_RMSNorm (Config.hidden_size config) (Config.rms_norm_eps config) ;;
  iret {| layers := layers; embed_tokens := embed_tokens; norm := norm |}.

(** The loop [for i, layer in enumerate(self.layers)], from index [i] on. *)
Fixpoint run_layers (ls : list TransformerBlock) (i : nat) (x : tensor3 T)
         (attention_mask : tensor4 T) (rope : mat T * mat T)
         (cache : list (option (KVCache T)))
  : result (tensor3 T) * list (option (KVCache T)) :=
  match ls with
  | [] => (ok x, cache)
  | layer :: rest =>
      match nth_error cache i with
      | None => (raise IndexError, cache)
      | Some c =>
                    let '(r, c') := TransformerBlock_call layer x attention_mask rope c in
          let cache' := set_nth i c' cache in
          match r with
          | inl e => (inl e, cache')
          | inr x' => run_layers rest (S i) x' attention_mask rope cache'
          end
      end
  end.

(** [Qwen3Model.__call__]. *)
Definition Qwen3Model_call (m : Qwen3Model) (input_ids : list (list Z))
           (attention_mask : tensor4 T) (rope : mat T * mat T)
           (cache : list (option (KVCache T)))
  : result (tensor3 T) * list (option (KVCache T)) :=
  let x := Embed_call (embed_tokens m) input_ids in
  let '(r, cache') := run_layers (layers m) 0 x attention_mask rope cache in
  match r with
  | inl e => (inl e, cache')
  | inr x => (ok (RMSNorm_call3 (norm m) x), cache')
  end.

Record Qwen3ForCausalLM : Type := {
  tie : bool;
  model : Qwen3Model;
  lm_head : option (Linear T)       (* the attribute exists when [tie] is false *)
}.

Definition Qwen3ForCausalLM_init (config : Config.t T) : Init T Qwen3ForCausalLM :=
  let tie := Config.tie_word_embeddings config in
  model <- Qwen3Model_init config ;;
  if negb tie then
    lm_head <- nnx_Linear (Config.hidden_size config) (Config.vocab_size config) ;;
    iret {| tie := tie; model := model; lm_head := Some lm_head |}
  else
    iret {| tie := tie; model := model; lm_head := None |}.

(** [Qwen3ForCausalLM.__call__]. *)
Definition Qwen3ForCausalLM_call (m : Qwen3ForCausalLM) (input_ids : list (list Z))
           (attention_mask : tensor4 T) (rope : mat T * mat T)
           (cache : list (option (KVCache T)))
  : result (tensor3 T) * list (option (KVCache T)) :=
  let '(r, cache') := Qwen3Model_call (model m) input_ids attention_mask rope cache in
  match r with
  | inl e => (inl e, cache')
  | inr x =>
      if tie m then (ok (Embed_attend (embed_tokens (model m)) x), cache')
      else match lm_head m with
           | Some l => (ok (Linear_call l x), cache')
           | None => (raise AttributeError, cache')
           end
  end.
End Qwen3.
End Qwen3.

(** ** Extended reals: the scalar instance without rounding

    IEEE-754 values with the rounding removed: a real number, one of the two
    infinities, or not-a-number.  There is one zero, taken as positive where
    its sign decides a quotient. *)

Inductive xreal : Type :=
| Fin (r : R)
| PInf
| NInf
| NaN.

Definition xneg (x : xreal) : xreal :=
  match x with
  | Fin r => Fin (- r)
  | PInf => NInf
  | NInf => PInf
  | NaN => NaN
  end.

Definition xadd (x y : xreal) : xreal :=
  match x, y with
  | NaN, _ | _, NaN => NaN
  | Fin a, Fin b => Fin (a + b)
  | PInf, NInf | NInf, PInf => NaN
  | PInf, _ | _, PInf => PInf
  | NInf, _ | _, NInf => NInf
  end.

Definition xsub (x y : xreal) : xreal := xadd x (xneg y).

(** The product of an infinity ([pos]: plus infinity) and a real. *)
Definition xmul_inf (pos : bool) (r : R) : xreal :=
  if Rlt_dec 0 r then (if pos then PInf else NInf)
  else if Rlt_dec r 0 then (if pos then NInf else PInf)
  else NaN.

Definition xmul (x y : xreal) : xreal :=
  match x, y with
  | NaN, _ | _, NaN => NaN
  | Fin a, Fin b => Fin (a * b)
  | PInf, Fin r | Fin r, PInf => xmul_inf true r
  | NInf, Fin r | Fin r, NInf => xmul_inf false r
  | PInf, PInf | NInf, NInf => PInf
  | PInf, NInf | NInf, PInf => NInf
  end.

Definition xdiv (x y : xreal) : xreal :=
  match x, y with
  | NaN, _ | _, NaN => NaN
  | Fin a, Fin b => if Req_dec_T b 0 then xmul_inf true a else Fin (a / b)
  | Fin _, PInf | Fin _, NInf => Fin 0
  | PInf, Fin b => if Rlt_dec b 0 then NInf else PInf
  | NInf, Fin b => if Rlt_dec b 0 then PInf else NInf
  | _, _ => NaN
  end.

Definition xexp (x : xreal) : xreal :=
  match x with
  | Fin r => Fin (exp r)
  | PInf => PInf
  | NInf => Fin 0
  | NaN => NaN
  end.

Definition xmax (x y : xreal) : xreal :=
  match x, y with
  | NaN, _ | _, NaN => NaN
  | Fin a, Fin b => Fin (Rmax a b)
  | PInf, _ | _, PInf => PInf
  | NInf, z | z, NInf => z
  end.

Definition xrsqrt (x : xreal) : xreal :=
  match x with
  | Fin r => if Rlt_dec 0 r then Fin (/ sqrt r)
             else if Rlt_dec r 0 then NaN else PInf
  | PInf => Fin 0
  | NInf | NaN => NaN
  end.

(** Truncation towards zero. *)
Definition trunc (r : R) : Z :=
  if Rle_dec 0 r then Int_part r else (- Int_part (- r))%Z.

(** [n ** -0.5]; Python yields a complex number for a negative [n], which
    this scalar type does not represent. *)
Definition xpow_neg_half (n : Z) : xreal :=
  if (0 <? n)%Z then Fin (/ sqrt (IZR n)) else NaN.

Definition xto_int (x : xreal) : result Z :=
  match x with
  | Fin r => ok (trunc r)
  | PInf | NInf => raise OverflowError
  | NaN => raise ValueError
  end.

#[export] Instance xreal_Scalar : Scalar xreal := {|
  szero := Fin 0;
  sone := Fin 1;
  sninf := NInf;
  snan := NaN;
  sadd := xadd;
  ssub := xsub;
  smul := xmul;
  sdiv := xdiv;
  sneg := xneg;
  sexp := xexp;
  smax := xmax;
  srsqrt := xrsqrt;
  of_Z := fun z => Fin (IZR z);
  pow_neg_half := xpow_neg_half;
  to_int := xto_int
|}.

Definition is_fin (x : xreal) : Prop :=
  match x with Fin _ => True | _ => False end.

(** ** Shapes and concatenated kernels *)

(** A (rows, cols) array. *)
Definition has_shape {A} (rows cols : nat) (m : list (list A)) : Prop :=
  length m = rows /\ Forall (fun r => length r = cols) m.

(** Concatenation of two kernels along the output axis
    ([jnp.concatenate([a, b], axis=1)]). *)
Definition hconcat {A} (a b : list (list A)) : list (list A) :=
  zipWith (@app A) a b.

(** One row of [matmul x w]: the products of the row [r] of [x] with the
    columns of the kernel [w]. *)
Definition lin_row {T} `{Scalar T} (w : mat T) (r : vec T) : vec T :=
  map (dot r) (transpose (ncols w) szero w).

(** ** Untied counterparts of a tied model *)



(** ** Conditions under which the phi3 replication does not raise *)

(** [n_heads // n_kv_heads] is evaluated only when [n_heads > n_kv_heads];
    it raises for [n_kv_heads = 0], and [repeat] rejects a negative count. *)
Definition phi3_heads_ok {T} (a : @Phi3.Attention T) : Prop :=
  (Phi3.n_heads a <= Phi3.n_kv_heads a \/ 0 < Phi3.n_kv_heads a)%Z.

(** ** Finite arrays and rows of an array *)

Definition to_R (x : xreal) : R :=
  match x with Fin r => r | _ => 0%R end.

Definition fin1 (v : vec xreal) : Prop := Forall is_fin v.
Definition fin2 (m : mat xreal) : Prop := Forall fin1 m.
Definition fin3 (t : tensor3 xreal) : Prop := Forall fin2 t.

(** An entry of a mask: finite, or minus infinity. *)
Definition fin_or_ninf (e : xreal) : Prop := is_fin e \/ e = NInf.


Definition rsum (l : list R) : R := fold_right Rplus 0%R l.

(** The exponential of [e - mx] for an entry that is finite or minus
    infinity. *)
Definition exp_shift (mx : R) (e : xreal) : R :=
  match e with Fin r => exp (r - mx) | _ => 0%R end.

(** ** Prefill and token-by-token decoding

    The two ways of running an attention layer over a sequence that the
    specification compares (sections 4.2 and 8): one call over all positions
    without a cache, under the causal mask; and one call per position with a
    cache, each under the mask row of that position. *)

Section Decoding.
Context {T : Type} `{Scalar T}.

(** The input, rotary table and output of position [t] alone. *)
Definition step_input (t : nat) (x : tensor3 T) : tensor3 T :=
  map (fun xb => [nth t xb []]) x.

Definition step_rope (t : nat) (rope : mat T * mat T) : mat T * mat T :=
  ([nth t (fst rope) []], [nth t (snd rope) []]).



Fixpoint zipWith3 {A B C D} (f : A -> B -> C -> D)
         (xs : list A) (ys : list B) (zs : list C) : list D :=
  match xs, ys, zs with
  | x :: xs', y :: ys', z :: zs' => f x y z :: zipWith3 f xs' ys' zs'
  | _, _, _ => []
  end.

(** Scaled dot-product attention of one head of one batch entry under the
    mask rows [M]: the part of [attend] between the head split and the head
    merge. *)
Definition sdpa_head (scale : T) (M : mat T) (qh kh vh : mat T) : mat T :=
  matmul (map softmax_row
            (bzip (bzip sadd)
                  (map (map (fun e => smul e scale)) (matmul qh (swapaxes kh))) M))
         vh.

(** [attend] on one batch entry, under a mask of shape
    (1, 1, len M, ncols M). *)
Definition attend_batch (L : nat) (scale : T) (M : mat T) (o_proj : Linear T)
           (qb kb vb : tensor3 T) : mat T :=
  matmul (map (@concat T) (transpose L [] (zipWith3 (sdpa_head scale M) qb kb vb)))
         (kernel o_proj).

(** An attention layer in row form: [fq h cs r] is the query vector of head
    [h] computed from the input row [r] and the rotary table row [cs] of
    its position, likewise [fk] for the key and [fv] for the value of
    key/value head [h]. *)
Definition row_heads (nh nkv : nat)
           (fq fk : nat -> vec T * vec T -> vec T -> vec T) (fv : nat -> vec T -> vec T)
           (cs : list (vec T * vec T)) (x : tensor3 T)
  : tensor4 T * tensor4 T * tensor4 T :=
  (map (fun xb => map (fun h => zipWith (fq h) cs xb) (seq 0 nh)) x,
   map (fun xb => map (fun h => zipWith (fk h) cs xb) (seq 0 nkv)) x,
   map (fun xb => map (fun h => map (fv h) xb) (seq 0 nkv)) x).

Definition row_call (nh nkv rep : nat)
           (fq fk : nat -> vec T * vec T -> vec T -> vec T) (fv : nat -> vec T -> vec T)
           (scale : T) (o_proj : Linear T)
           (x : tensor3 T) (attention_mask : tensor4 T) (rope : mat T * mat T)
           (cache : option (KVCache T)) : result (tensor3 T) * option (KVCache T) :=
  let '(q, k, v) := row_heads nh nkv fq fk fv (combine (fst rope) (snd rope)) x in
  let '(k, v, cache') := consult_cache cache k v in
  (attend (ncols x) q (repeat_axis1 rep k) (repeat_axis1 rep v) scale
          attention_mask o_proj,
   cache').
End Decoding.

(** ** The row form of an attention layer, per batch entry *)

Section RowForm.
Context {T : Type} `{Scalar T}.
Variables (nh nkv rep : nat).
Variables (fq fk : nat -> vec T * vec T -> vec T -> vec T) (fv : nat -> vec T -> vec T).
Variables (scale : T) (o_proj : Linear T).
Variable (cs : list (vec T * vec T)).

(** The rotated vectors of [n] heads at every position of a batch entry. *)
Definition rot_heads (n : nat) (f : nat -> vec T * vec T -> vec T -> vec T)
           (xb : mat T) : tensor3 T :=
  map (fun h => zipWith (f h) cs xb) (seq 0 n).

Definition val_heads (xb : mat T) : tensor3 T :=
  map (fun h => map (fv h) xb) (seq 0 nkv).

(** The output of a call over the whole batch entry [xb] under the mask
    rows [M]. *)
Definition full_batch (L : nat) (M : mat T) (xb : mat T) : mat T :=
  attend_batch L scale M o_proj
    (rot_heads nh fq xb)
    (repeat_each rep (rot_heads nkv fk xb))
    (repeat_each rep (val_heads xb)).

(** The cache after the first [t] positions of [x] have been decoded. *)
Definition cache_at (x : tensor3 T) (t : nat) : KVCache T :=
  match t with
  | O => {| history := None |}
  | S _ =>
      {| history :=
           Some (map (fun xb => map (firstn t) (rot_heads nkv fk xb)) x,
                 map (fun xb => map (firstn t) (val_heads xb)) x) |}
  end.
End RowForm.

(** Row [i] of the causal mask over [L] positions: zero up to the diagonal,
    minus infinity after it. *)
Definition causal_row (L i : nat) : vec xreal :=
  repeat (Fin 0) (S i) ++ repeat NInf (L - S i).

(** The causal mask of a call over [L] positions, of shape (1, 1, L, L). *)
Definition causal_mask (L : nat) : tensor4 xreal :=
  [[map (causal_row L) (seq 0 L)]].

(** The mask of the call for position [t] alone, over the [t + 1] keys seen
    so far: row [t] of the causal mask without its forbidden part, of shape
    (1, 1, 1, t + 1). *)
Definition step_mask (t : nat) : tensor4 xreal :=
  [[[repeat (Fin 0) (S t)]]].

(** A key row as it enters a dot product after [swapaxes]: cut or padded
    with zeros to the width [c] of the key matrix. *)
Definition fit {T} `{Scalar T} (c : nat) (r : vec T) : vec T :=
  map (fun e => nth e r szero) (seq 0 c).

(** The scaled scores of one query against the rows of a key matrix. *)
Definition raw_row (scale : xreal) (k : mat xreal) (q : vec xreal) : vec xreal :=
  map (fun e => xmul e scale) (map (fun kr => dot q (fit (ncols k) kr)) k).

(** ** The two attention layers in row form *)

Section RowFunctions.
Context {T : Type} `{Scalar T}.

(** phi3: query, key and value vectors of head [h] from one input row
    (lines 20-32 of [phi3.py], read for a single position). *)
Definition phi3_q_row (a : @Phi3.Attention T) (r : vec T) : vec T :=
  firstn (Z.to_nat (Phi3.n_heads a * Phi3.head_dim a))
         (lin_row (kernel (Phi3.qkv_proj a)) r).

Definition phi3_k_row (a : @Phi3.Attention T) (r : vec T) : vec T :=
  slice (Z.to_nat (Phi3.n_heads a * Phi3.head_dim a))
        (Z.to_nat (Phi3.n_heads a * Phi3.head_dim a
                   + Phi3.n_kv_heads a * Phi3.head_dim a))
        (lin_row (kernel (Phi3.qkv_proj a)) r).

Definition phi3_v_row (a : @Phi3.Attention T) (r : vec T) : vec T :=
  skipn (Z.to_nat (Phi3.n_heads a * Phi3.head_dim a
                   + Phi3.n_kv_heads a * Phi3.head_dim a))
        (lin_row (kernel (Phi3.qkv_proj a)) r).

Definition phi3_fq (a : @Phi3.Attention T) (h : nat) (c : vec T * vec T) (r : vec T) : vec T :=
  rotate_vec (Z.to_nat (Phi3.rot_dims a)) (fst c) (snd c)
    (nth h (chunks (Z.to_nat (Phi3.head_dim a)) (Z.to_nat (Phi3.n_heads a))
                   (phi3_q_row a r)) []).

Definition phi3_fk (a : @Phi3.Attention T) (h : nat) (c : vec T * vec T) (r : vec T) : vec T :=
  rotate_vec (Z.to_nat (Phi3.rot_dims a)) (fst c) (snd c)
    (nth h (chunks (Z.to_nat (Phi3.head_dim a)) (Z.to_nat (Phi3.n_kv_heads a))
                   (phi3_k_row a r)) []).

Definition phi3_fv (a : @Phi3.Attention T) (h : nat) (r : vec T) : vec T :=
  nth h (chunks (Z.to_nat (Phi3.head_dim a)) (Z.to_nat (Phi3.n_kv_heads a))
                (phi3_v_row a r)) [].

(** The replication factor in effect: 1 when the guard skips the
    replication. *)
Definition phi3_rep (a : @Phi3.Attention T) : nat :=
  if (Phi3.n_heads a >? Phi3.n_kv_heads a)%Z
  then Z.to_nat (Phi3.n_heads a / Phi3.n_kv_heads a) else 1.

(** qwen3: lines 23-34 of [qwen3.py], read for a single position. *)
Definition qwen3_normed (n : RMSNorm T) (heads : nat) (a : @Qwen3.Attention T)
           (l : Linear T) (h : nat) (r : vec T) : vec T :=
  rms_row n (nth h (chunks (Z.to_nat (Qwen3.head_dim a)) heads
                           (lin_row (kernel l) r)) []).

Definition qwen3_fq (a : @Qwen3.Attention T) (h : nat) (c : vec T * vec T) (r : vec T) : vec T :=
  let v := qwen3_normed (Qwen3.q_norm a) (Z.to_nat (Qwen3.num_attention_heads a)) a
                        (Qwen3.q_proj a) h r in
  rotate_vec (length v) (fst c) (snd c) v.

Definition qwen3_fk (a : @Qwen3.Attention T) (h : nat) (c : vec T * vec T) (r : vec T) : vec T :=
  let v := qwen3_normed (Qwen3.k_norm a) (Z.to_nat (Qwen3.num_kv_heads a)) a
                        (Qwen3.k_proj a) h r in
  rotate_vec (length v) (fst c) (snd c) v.

Definition qwen3_fv (a : @Qwen3.Attention T) (h : nat) (r : vec T) : vec T :=
  nth h (chunks (Z.to_nat (Qwen3.head_dim a)) (Z.to_nat (Qwen3.num_kv_heads a))
                (lin_row (kernel (Qwen3.v_proj a)) r)) [].

Definition qwen3_rep (a : @Qwen3.Attention T) : nat :=
  if (Qwen3.n_repeat a >? 1)%Z then Z.to_nat (Qwen3.n_repeat a) else 1.
End RowFunctions.

(** ** Well-formed inputs and layers for the prefill/decoding comparison *)

(** A batch of [L >= 1] positions with finite entries. *)
Definition input_ok (x : tensor3 xreal) (L : nat) : Prop :=
  x <> [] /\ Forall (fun xb => length xb = L) x /\ (1 <= L)%nat /\ fin3 x.

(** A rotary table for [L] positions: finite rows of [half] cosines and
    [half] sines. *)
Definition rope_ok (half L : nat) (rope : mat xreal * mat xreal) : Prop :=
  length (fst rope) = L /\ length (snd rope) = L
  /\ fin2 (fst rope) /\ fin2 (snd rope)
  /\ Forall (fun r => length r = half) (fst rope)
  /\ Forall (fun r => length r = half) (snd rope).

(** A finite kernel with at least one row and rows of [width] entries. *)
Definition kernel_ok (width : nat) (w : mat xreal) : Prop :=
  w <> [] /\ fin2 w /\ Forall (fun r => length r = width) w.

Definition norm_ok (d : nat) (n : RMSNorm xreal) : Prop :=
  length (rms_scale n) = d /\ fin1 (rms_scale n)
  /\ exists e, epsilon n = Fin e /\ (0 < e)%R.

Definition phi3_layer_ok (a : @Phi3.Attention xreal) : Prop :=
  (0 < Phi3.n_heads a)%Z /\ (0 < Phi3.n_kv_heads a)%Z /\ (2 <= Phi3.head_dim a)%Z
  /\ (0 <= Phi3.rot_dims a <= Phi3.head_dim a)%Z
  /\ is_fin (Phi3.scale a)
  /\ kernel_ok (Z.to_nat (Phi3.n_heads a * Phi3.head_dim a
                          + 2 * (Phi3.n_kv_heads a * Phi3.head_dim a)))
               (kernel (Phi3.qkv_proj a)).

Definition qwen3_layer_ok (a : @Qwen3.Attention xreal) : Prop :=
  (0 < Qwen3.num_attention_heads a)%Z /\ (0 < Qwen3.num_kv_heads a)%Z
  /\ (2 <= Qwen3.head_dim a)%Z
  /\ is_fin (Qwen3.scale a)
  /\ kernel_ok (Z.to_nat (Qwen3.num_attention_heads a * Qwen3.head_dim a))
               (kernel (Qwen3.q_proj a))
  /\ kernel_ok (Z.to_nat (Qwen3.num_kv_heads a * Qwen3.head_dim a))
               (kernel (Qwen3.k_proj a))
  /\ kernel_ok (Z.to_nat (Qwen3.num_kv_heads a * Qwen3.head_dim a))
               (kernel (Qwen3.v_proj a))
  /\ norm_ok (Z.to_nat (Qwen3.head_dim a)) (Qwen3.q_norm a)
  /\ norm_ok (Z.to_nat (Qwen3.head_dim a)) (Qwen3.k_norm a).

(** ** Prefill and token-by-token decoding of a whole model *)

(** The token ids of position [t] alone. *)
Definition step_ids (t : nat) (input_ids : list (list Z)) : list (list Z) :=
  map (fun row => [nth t row 0%Z]) input_ids.


(** A layer as the forward loop sees it: an attention layer or a block. *)
Definition layer_fn : Type :=
  tensor3 xreal -> tensor4 xreal -> mat xreal * mat xreal -> option (KVCache xreal) ->
  result (tensor3 xreal) * option (KVCache xreal).

(** The loop of [Model.__call__] over a list of layers given as functions
    ([Phi3.run_layers] and [Qwen3.run_layers] are its instances). *)
Fixpoint run_fns (fs : list layer_fn) (i : nat) (x : tensor3 xreal)
         (attention_mask : tensor4 xreal) (rope : mat xreal * mat xreal)
         (cache : list (option (KVCache xreal)))
  : result (tensor3 xreal) * list (option (KVCache xreal)) :=
  match fs with
  | [] => (ok x, cache)
  | f :: rest =>
      match nth_error cache i with
      | None => (raise IndexError, cache)
      | Some c =>
          let '(r, c') := f x attention_mask rope c in
          let cache' := set_nth i c' cache in
          match r with
          | inl e => (inl e, cache')
          | inr x' => run_fns rest (S i) x' attention_mask rope cache'
          end
      end
  end.

(** [TransformerBlock.__call__] over an attention layer, a feed-forward
    network and two norms given as such ([Phi3.TransformerBlock_call] and
    [Qwen3.TransformerBlock_call] are its instances). *)
Definition block_fn (attn : layer_fn) (mlp : tensor3 xreal -> tensor3 xreal)
           (n1 n2 : RMSNorm xreal) : layer_fn :=
  fun x attention_mask rope cache =>
    let '(r, cache') := attn (RMSNorm_call3 n1 x) attention_mask rope cache in
    match r with
    | inl e => (inl e, cache')
    | inr h =>
        let x := tadd3 x h in
        (ok (tadd3 x (mlp (RMSNorm_call3 n2 x))), cache')
    end.

(** The first [P] positions of an input, of a batch of token ids and of a
    rotary table: what a call over a prompt of [P] tokens is handed. *)
Definition prefix_input {T} (P : nat) (x : tensor3 T) : tensor3 T := map (firstn P) x.

Definition prefix_ids (P : nat) (input_ids : list (list Z)) : list (list Z) :=
  map (firstn P) input_ids.

Definition prefix_rope {T} (P : nat) (rope : mat T * mat T) : mat T * mat T :=
  (firstn P (fst rope), firstn P (snd rope)).

(** A layer agrees with its own cache-enabled runs on sequences of [L]
    positions.  Called without a cache on a finite input under the causal
    mask it returns no cache and treats every batch entry on its own: entry
    [xb] gives the finite entry [F xb].  Called on one position at a time
    under the mask row of that position, from an empty cache, it returns
    the same output position by position; called on the first [P] positions
    at once with an empty cache, it returns the first [P] positions of that
    output and leaves the cache that [P] single-position calls leave. *)
Definition steps_agree (f : layer_fn) (L : nat) (rope : mat xreal * mat xreal) : Prop :=
  exists F : mat xreal -> mat xreal,
    forall x, input_ok x L ->
      exists cs : nat -> KVCache xreal,
        cs 0%nat = {| history := None |}
        /\ f x (causal_mask L) rope None = (ok (map F x), None)
        /\ (forall t, (t < L)%nat ->
              f (step_input t x) (step_mask t) (step_rope t rope) (Some (cs t))
              = (ok (step_input t (map F x)), Some (cs (S t))))
        /\ (forall P, (1 <= P <= L)%nat ->
              f (prefix_input P x) (causal_mask P) (prefix_rope P rope)
                (Some {| history := None |})
              = (ok (prefix_input P (map F x)), Some (cs P)))
        /\ input_ok (map F x) L.

(** Finite parameters of the parts of a block around its attention layer. *)
Definition linear_fin (l : Linear xreal) : Prop := fin2 (kernel l).

Definition norm_fin (n : RMSNorm xreal) : Prop :=
  fin1 (rms_scale n) /\ exists e, epsilon n = Fin e /\ (0 < e)%R.

Definition phi3_block_ok (b : @Phi3.TransformerBlock xreal) : Prop :=
  phi3_layer_ok (Phi3.self_attn b)
  /\ linear_fin (Phi3.o_proj (Phi3.self_attn b))
  /\ linear_fin (Phi3.gate_up_proj (Phi3.mlp b))
  /\ linear_fin (Phi3.down_proj (Phi3.mlp b))
  /\ norm_fin (Phi3.input_layernorm b)
  /\ norm_fin (Phi3.post_attention_layernorm b).

Definition qwen3_block_ok (b : @Qwen3.TransformerBlock xreal) : Prop :=
  qwen3_layer_ok (Qwen3.self_attn b)
  /\ linear_fin (Qwen3.o_proj (Qwen3.self_attn b))
  /\ linear_fin (Qwen3.gate_proj (Qwen3.mlp b))
  /\ linear_fin (Qwen3.up_proj (Qwen3.mlp b))
  /\ linear_fin (Qwen3.down_proj (Qwen3.mlp b))
  /\ norm_fin (Qwen3.input_layernorm b)
  /\ norm_fin (Qwen3.post_attention_layernorm b).

(** A batch of [L >= 1] token ids per entry, all within the embedding
    table, whose rows are finite. *)
Definition ids_ok (e : Embed xreal) (input_ids : list (list Z)) (L : nat) : Prop :=
  input_ids <> [] /\ Forall (fun row => length row = L) input_ids /\ (1 <= L)%nat
  /\ Forall (Forall (fun id => (0 <= id < Z.of_nat (length (embedding e)))%Z)) input_ids
  /\ fin2 (embedding e).

(** A model whose output head exists, with finite parameters throughout and
    one rotary table that fits every layer. *)
Definition phi3_model_ok (m : @Phi3.Phi3ForCausalLM xreal) (L : nat)
           (rope : mat xreal * mat xreal) : Prop :=
  Forall (fun b => phi3_block_ok b
                   /\ rope_ok (Z.to_nat (Phi3.rot_dims (Phi3.self_attn b)) / 2) L rope)
         (Phi3.layers (Phi3.model m))
  /\ (Phi3.tie m = false -> Phi3.lm_head m <> None).

Definition qwen3_model_ok (m : @Qwen3.Qwen3ForCausalLM xreal) (L : nat)
           (rope : mat xreal * mat xreal) : Prop :=
  Forall (fun b => qwen3_block_ok b
                   /\ rope_ok (Z.to_nat (Qwen3.head_dim (Qwen3.self_attn b)) / 2) L rope)
         (Qwen3.layers (Qwen3.model m))
  /\ (Qwen3.tie m = false -> Qwen3.lm_head m <> None).

(** Two cache lists that hold, entry by entry, either no cache or a cache
    without history: what a caller passes to a first call. *)
Definition fresh_alike {T : Type} (c1 c2 : list (option (KVCache T))) : Prop :=
  Forall2 (fun a b => (a = None \/ a = Some {| history := None |})
                      /\ (b = None \/ b = Some {| history := None |})) c1 c2.

(** ** Small concrete objects, used to instantiate the statements below *)

Module Ex.
Local Open Scope R_scope.

Definition lin1 : Linear xreal := {| kernel := [[Fin 1]] |}.
Definition lin3 : Linear xreal := {| kernel := [[Fin 1; Fin 1; Fin 1]] |}.
Definition norm1 : RMSNorm xreal := {| rms_scale := [Fin 1]; epsilon := Fin 1 |}.

(** One head, one key/value head, head_dim 1, hidden size 1. *)
Definition phi3_attn : Phi3.Attention :=
  {| Phi3.n_heads := 1; Phi3.n_kv_heads := 1; Phi3.head_dim := 1;
     Phi3.scale := Fin 1; Phi3.qkv_proj := lin3; Phi3.o_proj := lin1;
     Phi3.rot_dims := 0 |}.

Definition qwen3_attn : Qwen3.Attention :=
  {| Qwen3.num_attention_heads := 1; Qwen3.num_kv_heads := 1; Qwen3.head_dim := 1;
     Qwen3.scale := Fin 1; Qwen3.n_repeat := 1;
     Qwen3.q_proj := lin1; Qwen3.k_proj := lin1; Qwen3.v_proj := lin1;
     Qwen3.o_proj := lin1; Qwen3.q_norm := norm1; Qwen3.k_norm := norm1 |}.

(** Four heads over two key/value heads. *)
Definition phi3_gqa : Phi3.Attention :=
  {| Phi3.n_heads := 4; Phi3.n_kv_heads := 2; Phi3.head_dim := 1;
     Phi3.scale := Fin 1; Phi3.qkv_proj := lin3; Phi3.o_proj := lin1;
     Phi3.rot_dims := 0 |}.

Definition qwen3_gqa : Qwen3.Attention :=
  {| Qwen3.num_attention_heads := 4; Qwen3.num_kv_heads := 2; Qwen3.head_dim := 1;
     Qwen3.scale := Fin 1; Qwen3.n_repeat := 2;
     Qwen3.q_proj := lin1; Qwen3.k_proj := lin1; Qwen3.v_proj := lin1;
     Qwen3.o_proj := lin1; Qwen3.q_norm := norm1; Qwen3.k_norm := norm1 |}.

Definition x1 : tensor3 xreal := [[[Fin 1]]].
Definition mask0 : tensor4 xreal := [[[[Fin 0]]]].
Definition rope0 : mat xreal * mat xreal := ([[]], [[]]).

Definition lin2 : Linear xreal := {| kernel := [[Fin 1; Fin 1]] |}.

Definition phi3_mlp : Phi3.MLP :=
  {| Phi3.gate_up_proj := lin2; Phi3.down_proj := lin1 |}.

Definition qwen3_mlp : Qwen3.MLP :=
  {| Qwen3.gate_proj := lin1; Qwen3.down_proj := lin1; Qwen3.up_proj := lin1 |}.




Definition ids0 : list (list Z) := [[0%Z]].

(** A configuration whose hidden size (10) is not a multiple of its number
    of heads (4), and whose number of heads is not a multiple of its number
    of key/value heads (3). *)
Definition cfg_uneven : Config.t xreal :=
  {| Config.hidden_size := 10;
     Config.num_attention_heads := 4;
     Config.num_key_value_heads := 3;
     Config.head_dim := 2;
     Config.num_hidden_layers := 1;
     Config.intermediate_size := 4;
     Config.rms_norm_eps := Fin 1;
     Config.partial_rotary_factor := Fin 1;
     Config.vocab_size := 5;
     Config.tie_word_embeddings := true |}.

(** A parameter source that yields all-zero arrays. *)
Definition rngs0 : Rngs xreal :=
  {| count := 0; stream := fun _ i o => repeat (repeat (Fin 0) o) i |}.

Definition empty_cache : KVCache xreal := {| history := None |}.






(** Two positions, with their rotary table, and a mask of shape
    (1, 1, 3, 3), which does not broadcast against scores of shape
    (1, 1, 2, 2). *)
Definition x2 : tensor3 xreal := [[[Fin 1]; [Fin 1]]].

(** One query and one key of one feature, and the masked score they give
    under [mask0] and scale 1. *)
Definition q1 : tensor4 xreal := [[[[Fin 1]]]].


(** Layers with two heads over one key/value head, head_dim 2, hidden
    size 1, and a rotary table for two positions. *)
Definition lin8 : Linear xreal :=
  {| kernel := [[Fin 1; Fin 1; Fin 1; Fin 1; Fin 1; Fin 1; Fin 1; Fin 1]] |}.
Definition lin4 : Linear xreal := {| kernel := [[Fin 1; Fin 1; Fin 1; Fin 1]] |}.
Definition lin4x1 : Linear xreal := {| kernel := [[Fin 1]; [Fin 1]; [Fin 1]; [Fin 1]] |}.
Definition norm2 : RMSNorm xreal := {| rms_scale := [Fin 1; Fin 1]; epsilon := Fin 1 |}.

Definition phi3_attn2 : Phi3.Attention :=
  {| Phi3.n_heads := 2; Phi3.n_kv_heads := 1; Phi3.head_dim := 2;
     Phi3.scale := Fin 1; Phi3.qkv_proj := lin8; Phi3.o_proj := lin4x1;
     Phi3.rot_dims := 2 |}.

Definition qwen3_attn2 : Qwen3.Attention :=
  {| Qwen3.num_attention_heads := 2; Qwen3.num_kv_heads := 1; Qwen3.head_dim := 2;
     Qwen3.scale := Fin 1; Qwen3.n_repeat := 2;
     Qwen3.q_proj := lin4; Qwen3.k_proj := lin2; Qwen3.v_proj := lin2;
     Qwen3.o_proj := lin4x1; Qwen3.q_norm := norm2; Qwen3.k_norm := norm2 |}.

Definition rope_2pos : mat xreal * mat xreal := ([[Fin 1]; [Fin 1]], [[Fin 0]; [Fin 0]]).

(** Blocks around the two-head layers, and two-layer models with tied
    embeddings over a vocabulary of two tokens. *)
Definition emb2 : Embed xreal := {| embedding := [[Fin 1]; [Fin 2]] |}.

Definition phi3_block2 : Phi3.TransformerBlock :=
  {| Phi3.self_attn := phi3_attn2; Phi3.mlp := phi3_mlp;
     Phi3.input_layernorm := norm1; Phi3.post_attention_layernorm := norm1 |}.

Definition qwen3_block2 : Qwen3.TransformerBlock :=
  {| Qwen3.self_attn := qwen3_attn2; Qwen3.mlp := qwen3_mlp;
     Qwen3.input_layernorm := norm1; Qwen3.post_attention_layernorm := norm1 |}.

Definition phi3_lm2 : Phi3.Phi3ForCausalLM :=
  {| Phi3.tie := true;
     Phi3.model := {| Phi3.layers := [phi3_block2; phi3_block2];
                      Phi3.embed_tokens := emb2; Phi3.norm := norm1 |};
     Phi3.lm_head := None |}.

Definition qwen3_lm2 : Qwen3.Qwen3ForCausalLM :=
  {| Qwen3.tie := true;
     Qwen3.model := {| Qwen3.layers := [qwen3_block2; qwen3_block2];
                       Qwen3.embed_tokens := emb2; Qwen3.norm := norm1 |};
     Qwen3.lm_head := None |}.

(** Two batches of one entry of two tokens, which agree on the first
    token. *)
Definition ids_a : list (list Z) := [[0%Z; 0%Z]].
Definition ids_b : list (list Z) := [[0%Z; 1%Z]].
End Ex.

(** * Properties *)

(** ** Lists *)

Lemma repeat_each_1 {A} (l : list A) : repeat_each 1 l = l.
Proof.
  induction l as [|x l IH]; [reflexivity|].
  change (repeat_each 1 (x :: l)) with (x :: repeat_each 1 l).
  now rewrite IH.
Qed.

Lemma repeat_each_cons {A} n (x : A) l :
  repeat_each n (x :: l) = repeat x n ++ repeat_each n l.
Proof. reflexivity. Qed.

Lemma length_repeat_each {A} n (l : list A) :
  length (repeat_each n l) = (length l * n)%nat.
Proof.
  induction l as [|x l IH]; [reflexivity|].
  rewrite repeat_each_cons, length_app, repeat_length, IH. simpl. lia.
Qed.

(** Entry [h] of the list occupies the positions [h*n .. h*n + n - 1] of the
    replicated list. *)
Lemma nth_repeat_each {A} n (l : list A) d h r :
  (r < n)%nat -> nth (h * n + r) (repeat_each n l) d = nth h l d.
Proof.
  intros Hr. revert h. induction l as [|x l IH]; intros h.
  - simpl. now destruct (h * n + r)%nat, h.
  - rewrite repeat_each_cons. destruct h as [|h].
    + simpl. rewrite app_nth1 by (rewrite repeat_length; lia).
      apply nth_repeat_lt. exact Hr. 
    + rewrite app_nth2 by (rewrite repeat_length; simpl; lia).
      rewrite repeat_length.
      replace (S h * n + r - n)%nat with (h * n + r)%nat by (simpl; lia).
      simpl. apply IH.
Qed.

Lemma repeat_axis1_1 {T} (k : tensor4 T) : repeat_axis1 1 k = k.
Proof.
  unfold repeat_axis1. induction k as [|b k IH]; simpl; [reflexivity|].
  now rewrite repeat_each_1, IH.
Qed.

Lemma nth_repeat_axis1 {T} n (k : tensor4 T) b h r :
  (r < n)%nat ->
  nth (h * n + r) (nth b (repeat_axis1 n k) []) [] = nth h (nth b k []) [].
Proof.
  intros Hr. unfold repeat_axis1.
  change (nth b (map (repeat_each n) k) [])
    with (nth b (map (repeat_each n) k) (repeat_each n [])).
  rewrite map_nth. now apply nth_repeat_each.
Qed.

Lemma length_repeat_axis1 {T} n (k : tensor4 T) b :
  length (nth b (repeat_axis1 n k) []) = (length (nth b k []) * n)%nat.
Proof.
  unfold repeat_axis1.
  change (nth b (map (repeat_each n) k) [])
    with (nth b (map (repeat_each n) k) (repeat_each n [])).
  rewrite map_nth. apply length_repeat_each.
Qed.

(** ** Grouped-query replication *)

Section Replication.
Context {T : Type} `{Scalar T}.
Local Open Scope Z_scope.

Lemma phi3_repeat_kv_gqa (a : Phi3.Attention) (k v : tensor4 T) :
  0 < Phi3.n_kv_heads a < Phi3.n_heads a ->
  Phi3.repeat_kv a k v =
  ok (repeat_axis1 (Z.to_nat (Phi3.n_heads a / Phi3.n_kv_heads a)) k,
      repeat_axis1 (Z.to_nat (Phi3.n_heads a / Phi3.n_kv_heads a)) v).
Proof.
  intros [Hkv Hlt]. unfold Phi3.repeat_kv, floordiv.
  replace (Phi3.n_heads a >? Phi3.n_kv_heads a) with true
    by (symmetry; apply Z.gtb_lt; exact Hlt).
  replace (Phi3.n_kv_heads a =? 0) with false by (symmetry; apply Z.eqb_neq; lia).
  cbn.
  replace (Phi3.n_heads a / Phi3.n_kv_heads a <? 0) with false; [reflexivity|].
  symmetry. apply Z.ltb_ge. apply Z.div_pos; lia.
Qed.

Lemma qwen3_repeat_kv_gqa (a : Qwen3.Attention) (k v : tensor4 T) :
  0 < Qwen3.num_kv_heads a < Qwen3.num_attention_heads a ->
  Qwen3.n_repeat a = Qwen3.num_attention_heads a / Qwen3.num_kv_heads a ->
  Qwen3.repeat_kv a k v =
  (repeat_axis1 (Z.to_nat (Qwen3.num_attention_heads a / Qwen3.num_kv_heads a)) k,
   repeat_axis1 (Z.to_nat (Qwen3.num_attention_heads a / Qwen3.num_kv_heads a)) v).
Proof.
  intros [Hkv Hlt] Hn. unfold Qwen3.repeat_kv. rewrite Hn.
  assert (Hge : 1 <= Qwen3.num_attention_heads a / Qwen3.num_kv_heads a).
  { apply Z.div_le_lower_bound; lia. }
  destruct (Z.gtb_spec (Qwen3.num_attention_heads a / Qwen3.num_kv_heads a) 1) as [Hgt|Hle].
  - reflexivity.
  - replace (Qwen3.num_attention_heads a / Qwen3.num_kv_heads a) with 1 by lia.
    cbn. now rewrite !repeat_axis1_1.
Qed.

(** C2.  With more attention heads than key/value heads, both attention
    variants compute their scores and outputs from the keys and values
    replicated [n_repeat = num_heads // num_kv_heads] times along the head
    axis, and the replicated array holds key/value head [h] at exactly the
    head positions [h*n_repeat .. (h+1)*n_repeat - 1]. *)
Theorem gqa_replication_contiguous
        (pa : Phi3.Attention) (qa : Qwen3.Attention)
        (x : tensor3 T) (attention_mask : tensor4 T) (rope : mat T * mat T)
        (cache : option (KVCache T)) :
  0 < Phi3.n_kv_heads pa < Phi3.n_heads pa ->
  0 < Qwen3.num_kv_heads qa < Qwen3.num_attention_heads qa ->
  Qwen3.n_repeat qa = Qwen3.num_attention_heads qa / Qwen3.num_kv_heads qa ->
  let pn := Z.to_nat (Phi3.n_heads pa / Phi3.n_kv_heads pa) in
  let qn := Z.to_nat (Qwen3.num_attention_heads qa / Qwen3.num_kv_heads qa) in
  Phi3.Attention_call pa x attention_mask rope cache =
    (let '(q, k, v) := Phi3.project_heads pa x rope in
     let '(k, v, cache') := consult_cache cache k v in
          (attend (ncols x) q (repeat_axis1 pn k) (repeat_axis1 pn v)
             (Phi3.scale pa) attention_mask (Phi3.o_proj pa),
      cache'))
  /\ Qwen3.Attention_call qa x attention_mask rope cache =
    (let '(q, k, v) := Qwen3.project_heads qa x rope in
     let '(k, v, cache') := consult_cache cache k v in
          (attend (ncols x) q (repeat_axis1 qn k) (repeat_axis1 qn v)
             (Qwen3.scale qa) attention_mask (Qwen3.o_proj qa),
      cache'))
  /\ (forall (n : nat) (kv : tensor4 T) (b h r : nat),
        (r < n)%nat ->
        nth (h * n + r) (nth b (repeat_axis1 n kv) []) [] = nth h (nth b kv []) [])
  /\ (forall (n : nat) (kv : tensor4 T) (b : nat),
        length (nth b (repeat_axis1 n kv) []) = (length (nth b kv []) * n)%nat).
Proof.
  intros Hp Hq Hn pn qn. repeat split.
  - unfold Phi3.Attention_call.
    destruct (Phi3.project_heads pa x rope) as [[q k] v].
    destruct (consult_cache cache k v) as [[k' v'] c'].
    now rewrite phi3_repeat_kv_gqa.
  - unfold Qwen3.Attention_call.
    destruct (Qwen3.project_heads qa x rope) as [[q k] v].
    destruct (consult_cache cache k v) as [[k' v'] c'].
    now rewrite qwen3_repeat_kv_gqa.
  - intros. now apply nth_repeat_axis1.
  - intros. apply length_repeat_axis1.
Qed.

(** Four heads over two key/value heads: heads 0 and 1 read key/value
    head 0, heads 2 and 3 read key/value head 1. *)
Example gqa_4_over_2 (kv : tensor4 T) (b : nat) :
  let kv' := nth b (repeat_axis1 2 kv) [] in
  nth 0 kv' [] = nth 0 (nth b kv []) [] /\
  nth 1 kv' [] = nth 0 (nth b kv []) [] /\
  nth 2 kv' [] = nth 1 (nth b kv []) [] /\
  nth 3 kv' [] = nth 1 (nth b kv []) [].
Proof.
  cbv zeta. repeat split.
  - apply (nth_repeat_axis1 kv b 0 (n:=2) (r:=0)). lia.
  - apply (nth_repeat_axis1 kv b 0 (n:=2) (r:=1)). lia.
  - apply (nth_repeat_axis1 kv b 1 (n:=2) (r:=0)). lia.
  - apply (nth_repeat_axis1 kv b 1 (n:=2) (r:=1)). lia.
Qed.

Lemma phi3_repeat_kv_guard (a : Phi3.Attention) (k v : tensor4 T) :
  Phi3.n_heads a = Phi3.n_kv_heads a -> Phi3.n_heads a <> 0 ->
  Phi3.repeat_kv a k v = Phi3.repeat_kv_always a k v.
Proof.
  intros Heq Hnz. unfold Phi3.repeat_kv, Phi3.repeat_kv_always, floordiv.
  rewrite <- Heq.
  replace (Phi3.n_heads a >? Phi3.n_heads a) with false
    by (symmetry; rewrite Z.gtb_ltb; apply Z.ltb_irrefl).
  replace (Phi3.n_heads a =? 0) with false by (symmetry; now apply Z.eqb_neq).
  cbn. rewrite Z.div_same by exact Hnz. cbn.
  now rewrite !repeat_axis1_1.
Qed.

(** C10.  Replication with factor 1 is the identity; hence, when the
    factor is 1, the guarded replication of both attention variants (phi3
    skips it when [n_heads = n_kv_heads], qwen3 when [n_repeat = 1]) gives
    the same attention result as replicating unconditionally. *)
Theorem repeat_guard_skips_identity
        (pa : Phi3.Attention) (qa : Qwen3.Attention)
        (x : tensor3 T) (attention_mask : tensor4 T) (rope : mat T * mat T)
        (cache : option (KVCache T)) :
  Phi3.n_heads pa = Phi3.n_kv_heads pa -> Phi3.n_heads pa <> 0 ->
  Qwen3.n_repeat qa = 1 ->
  (forall k : tensor4 T, repeat_axis1 1 k = k)
  /\ Phi3.Attention_call pa x attention_mask rope cache =
     Phi3.Attention_call_always_repeat pa x attention_mask rope cache
  /\ Qwen3.Attention_call qa x attention_mask rope cache =
     Qwen3.Attention_call_always_repeat qa x attention_mask rope cache.
Proof.
  intros Heq Hnz Hq. repeat split.
  - apply repeat_axis1_1.
  - unfold Phi3.Attention_call, Phi3.Attention_call_always_repeat.
    destruct (Phi3.project_heads pa x rope) as [[q k] v].
    destruct (consult_cache cache k v) as [[k' v'] c'].
    now rewrite phi3_repeat_kv_guard.
  - unfold Qwen3.Attention_call, Qwen3.Attention_call_always_repeat, Qwen3.repeat_kv.
    destruct (Qwen3.project_heads qa x rope) as [[q k] v].
    destruct (consult_cache cache k v) as [[k' v'] c'].
    rewrite Hq. cbn. now rewrite !repeat_axis1_1.
Qed.
End Replication.

Lemma gqa_replication_contiguous_witness :
  Phi3.Attention_call Ex.phi3_gqa Ex.x1 Ex.mask0 Ex.rope0 None =
    (let '(q, k, v) := Phi3.project_heads Ex.phi3_gqa Ex.x1 Ex.rope0 in
     let '(k, v, cache') := consult_cache None k v in
          (attend (ncols Ex.x1) q (repeat_axis1 2 k) (repeat_axis1 2 v)
             (Phi3.scale Ex.phi3_gqa) Ex.mask0 (Phi3.o_proj Ex.phi3_gqa),
      cache')).
Proof.
    assert (Hp : (0 < Phi3.n_kv_heads Ex.phi3_gqa < Phi3.n_heads Ex.phi3_gqa)%Z)
    by (cbn; lia).
  assert (Hq : (0 < Qwen3.num_kv_heads Ex.qwen3_gqa
                < Qwen3.num_attention_heads Ex.qwen3_gqa)%Z) by (cbn; lia).
  exact (proj1 (gqa_replication_contiguous Ex.phi3_gqa Ex.qwen3_gqa
                  Ex.x1 Ex.mask0 Ex.rope0 None Hp Hq eq_refl)).
Defined.

Lemma repeat_guard_skips_identity_witness :
  Phi3.Attention_call Ex.phi3_attn Ex.x1 Ex.mask0 Ex.rope0 None =
  Phi3.Attention_call_always_repeat Ex.phi3_attn Ex.x1 Ex.mask0 Ex.rope0 None
  /\ Qwen3.Attention_call Ex.qwen3_attn Ex.x1 Ex.mask0 Ex.rope0 None =
     Qwen3.Attention_call_always_repeat Ex.qwen3_attn Ex.x1 Ex.mask0 Ex.rope0 None.
Proof.
    assert (Hnz : Phi3.n_heads Ex.phi3_attn <> 0%Z) by (cbn; discriminate).
  exact (proj2 (repeat_guard_skips_identity Ex.phi3_attn Ex.qwen3_attn
                  Ex.x1 Ex.mask0 Ex.rope0 None eq_refl Hnz eq_refl)).
Defined.

(** ** Fused and separate projections *)

Section Fused.
Context {T : Type} `{Scalar T}.

Lemma matmul_rows (x w : mat T) : matmul x w = map (lin_row w) x.
Proof. reflexivity. Qed.

Lemma length_lin_row (w : mat T) (r : vec T) : length (lin_row w r) = ncols w.
Proof. unfold lin_row, transpose. now rewrite !length_map, length_seq. Qed.

Lemma has_shape_cons {A} rows cols (r : list A) m :
  has_shape (S rows) cols (r :: m) <-> length r = cols /\ has_shape rows cols m.
Proof.
  unfold has_shape. simpl. split.
  - intros [Hl Hf]. inversion Hf; subst. repeat split; auto.
  - intros [Hr [Hl Hf]]. split; [now rewrite Hl | now constructor].
Qed.

Lemma has_shape_0 {A} cols (m : list (list A)) : has_shape 0 cols m -> m = [].
Proof. intros [Hl _]. now destruct m. Qed.

Lemma ncols_shape {A} rows cols (m : list (list A)) :
  has_shape (S rows) cols m -> ncols m = cols.
Proof.
  destruct m as [|r m]; intros [Hl Hf]; [discriminate|].
  now inversion Hf.
Qed.

Lemma hconcat_shape {A} rows ca cb (a b : list (list A)) :
  has_shape rows ca a -> has_shape rows cb b -> has_shape rows (ca + cb) (hconcat a b).
Proof.
  revert a b. induction rows as [|rows IH]; intros a b Ha Hb.
  - apply has_shape_0 in Ha. subst. split; [reflexivity | constructor].
  - destruct a as [|ra a]; [destruct Ha; discriminate|].
    destruct b as [|rb b]; [destruct Hb; discriminate|].
    apply has_shape_cons in Ha, Hb. destruct Ha as [Hra Ha], Hb as [Hrb Hb].
    change (hconcat (ra :: a) (rb :: b)) with ((ra ++ rb) :: hconcat a b).
    apply has_shape_cons. split; [rewrite length_app; lia | now apply IH].
Qed.

Lemma col_hconcat_l {A} rows ca cb (a b : list (list A)) d j :
  has_shape rows ca a -> has_shape rows cb b -> (j < ca)%nat ->
  map (fun r => nth j r d) (hconcat a b) = map (fun r => nth j r d) a.
Proof.
  intros Ha Hb Hj. revert a b Ha Hb.
  induction rows as [|rows IH]; intros a b Ha Hb.
  - apply has_shape_0 in Ha. now subst.
  - destruct a as [|ra a]; [destruct Ha; discriminate|].
    destruct b as [|rb b]; [destruct Hb; discriminate|].
    apply has_shape_cons in Ha, Hb. destruct Ha as [Hra Ha], Hb as [Hrb Hb].
    change (hconcat (ra :: a) (rb :: b)) with ((ra ++ rb) :: hconcat a b).
    simpl. rewrite app_nth1 by lia. f_equal. now apply IH.
Qed.

Lemma col_hconcat_r {A} rows ca cb (a b : list (list A)) d j :
  has_shape rows ca a -> has_shape rows cb b ->
  map (fun r => nth (ca + j) r d) (hconcat a b) = map (fun r => nth j r d) b.
Proof.
  intros Ha Hb. revert a b Ha Hb.
  induction rows as [|rows IH]; intros a b Ha Hb.
  - apply has_shape_0 in Ha, Hb. now subst.
  - destruct a as [|ra a]; [destruct Ha; discriminate|].
    destruct b as [|rb b]; [destruct Hb; discriminate|].
    apply has_shape_cons in Ha, Hb. destruct Ha as [Hra Ha], Hb as [Hrb Hb].
    change (hconcat (ra :: a) (rb :: b)) with ((ra ++ rb) :: hconcat a b).
    simpl. rewrite app_nth2 by lia.
    replace (ca + j - length ra)%nat with j by lia. f_equal. now apply IH.
Qed.

Lemma seq_from (a n : nat) : seq a n = map (fun j => (a + j)%nat) (seq 0 n).
Proof.
  revert a. induction n as [|n IH]; intros a; [reflexivity|].
  simpl. rewrite Nat.add_0_r. f_equal.
  rewrite (IH (S a)), (IH 1%nat), map_map.
  apply map_ext. intros j. lia.
Qed.

Lemma transpose_hconcat {A} rows ca cb (a b : list (list A)) d :
  has_shape rows ca a -> has_shape rows cb b ->
  transpose (ca + cb) d (hconcat a b) = transpose ca d a ++ transpose cb d b.
Proof.
  intros Ha Hb. unfold transpose.
  rewrite seq_app, map_app. f_equal.
  - apply map_ext_in. intros j Hj. apply in_seq in Hj.
    apply (col_hconcat_l d Ha Hb). lia.
  - simpl. rewrite (seq_from ca cb), map_map.
    apply map_ext. intros j. apply (col_hconcat_r d j Ha Hb).
Qed.
End Fused.

Section FusedProjections.
Context {T : Type} `{Scalar T}.

Lemma lin_row_hconcat rows ca cb (a b : mat T) (r : vec T) :
  has_shape rows ca a -> has_shape rows cb b ->
  lin_row (hconcat a b) r = lin_row a r ++ lin_row b r.
Proof.
  intros Ha Hb. destruct rows as [|rows].
  - apply has_shape_0 in Ha, Hb. now subst.
  - unfold lin_row.
    rewrite (ncols_shape (hconcat_shape Ha Hb)), (ncols_shape Ha), (ncols_shape Hb).
    now rewrite (transpose_hconcat szero Ha Hb), map_app.
Qed.

Lemma lin_row_length_shape rows c (w : mat T) (r : vec T) :
  has_shape rows c w -> lin_row w r = [] \/ length (lin_row w r) = c.
Proof.
  intros Hw. destruct rows as [|rows].
  - left. apply has_shape_0 in Hw. now subst.
  - right. rewrite length_lin_row. apply (ncols_shape Hw).
Qed.

Lemma firstn_exact_or_nil {A} n (l1 l2 : list A) :
  (l1 = [] /\ l2 = []) \/ length l1 = n -> firstn n (l1 ++ l2) = l1.
Proof.
  intros [[-> ->]| <-]; [apply firstn_nil|].
  rewrite <- (Nat.add_0_r (length l1)), firstn_app_2. simpl. apply app_nil_r.
Qed.

Lemma skipn_exact_or_nil {A} n (l1 l2 : list A) :
  (l1 = [] /\ l2 = []) \/ length l1 = n -> skipn n (l1 ++ l2) = l2.
Proof.
  intros [[-> ->]| <-]; [apply skipn_nil|].
  rewrite skipn_app, skipn_all, Nat.sub_diag. reflexivity.
Qed.

(** The three slices of a row of the fused projection are the rows of the
    three separate projections. *)
Lemma lin_row_split3 rows nq nk nv (wq wk wv : mat T) (r : vec T) :
  has_shape rows nq wq -> has_shape rows nk wk -> has_shape rows nv wv ->
  let r' := lin_row (hconcat wq (hconcat wk wv)) r in
  firstn nq r' = lin_row wq r
  /\ slice nq (nq + nk) r' = lin_row wk r
  /\ skipn (nq + nk) r' = lin_row wv r.
Proof.
  intros Hq Hk Hv r'. subst r'.
  rewrite (lin_row_hconcat r Hq (hconcat_shape Hk Hv)), (lin_row_hconcat r Hk Hv).
  destruct rows as [|rows].
  - apply has_shape_0 in Hq, Hk, Hv. subst. unfold slice, lin_row. simpl.
    rewrite !firstn_nil, !skipn_nil. now repeat split.
  - assert (Lq : length (lin_row wq r) = nq)
      by (rewrite length_lin_row; apply (ncols_shape Hq)).
    assert (Lk : length (lin_row wk r) = nk)
      by (rewrite length_lin_row; apply (ncols_shape Hk)).
    repeat split.
    + apply firstn_exact_or_nil. now right.
    + unfold slice. rewrite app_assoc.
      rewrite (firstn_exact_or_nil (n := nq + nk)) by (right; rewrite length_app; lia).
      apply skipn_exact_or_nil. now right.
    + rewrite app_assoc. apply skipn_exact_or_nil. right. rewrite length_app. lia.
Qed.

(** C5.  When the kernel of the fused projection of the phi3 attention is
    the concatenation, along the output axis, of the kernels of the three
    projections of the qwen3 attention (of widths [n_heads*head_dim],
    [n_kv_heads*head_dim] and [n_kv_heads*head_dim]), slicing the fused
    output at [n_heads*head_dim] and [n_heads*head_dim + n_kv_heads*head_dim]
    gives exactly the query, key and value of the three projections. *)
Theorem fused_qkv_equals_separate
        (pa : Phi3.Attention) (qa : Qwen3.Attention) (hidden : nat) (x : tensor3 T) :
  (0 <= Phi3.n_heads pa * Phi3.head_dim pa)%Z ->
  (0 <= Phi3.n_kv_heads pa * Phi3.head_dim pa)%Z ->
  has_shape hidden (Z.to_nat (Phi3.n_heads pa * Phi3.head_dim pa))
            (kernel (Qwen3.q_proj qa)) ->
  has_shape hidden (Z.to_nat (Phi3.n_kv_heads pa * Phi3.head_dim pa))
            (kernel (Qwen3.k_proj qa)) ->
  has_shape hidden (Z.to_nat (Phi3.n_kv_heads pa * Phi3.head_dim pa))
            (kernel (Qwen3.v_proj qa)) ->
  kernel (Phi3.qkv_proj pa) =
    hconcat (kernel (Qwen3.q_proj qa))
            (hconcat (kernel (Qwen3.k_proj qa)) (kernel (Qwen3.v_proj qa))) ->
  Phi3.qkv_split pa x = Qwen3.qkv_project qa x.
Proof.
  intros Hnq Hnk Hq Hk Hv Hw.
  unfold Phi3.qkv_split, Qwen3.qkv_project, Linear_call.
  rewrite Hw, Z2Nat.inj_add by assumption.
  f_equal; [f_equal|].
  - rewrite map_map. apply map_ext. intros xb.
    rewrite !matmul_rows, map_map. apply map_ext. intros r.
    apply (lin_row_split3 r Hq Hk Hv).
  - rewrite map_map. apply map_ext. intros xb.
    rewrite !matmul_rows, map_map. apply map_ext. intros r.
    apply (lin_row_split3 r Hq Hk Hv).
  - rewrite map_map. apply map_ext. intros xb.
    rewrite !matmul_rows, map_map. apply map_ext. intros r.
    apply (lin_row_split3 r Hq Hk Hv).
Qed.
End FusedProjections.

Lemma fused_qkv_equals_separate_witness :
  Phi3.qkv_split Ex.phi3_attn Ex.x1 = Qwen3.qkv_project Ex.qwen3_attn Ex.x1.
Proof.
  apply (@fused_qkv_equals_separate xreal _ Ex.phi3_attn Ex.qwen3_attn 1%nat Ex.x1);
    cbn; try lia; try reflexivity;
    (split; [reflexivity | repeat constructor]).
Defined.

Section FusedMLP.
Context {T : Type} `{Scalar T}.


End FusedMLP.


(** ** Block composition and the output projection *)

Section Composition.
Context {T : Type} `{Scalar T}.


Lemma phi3_init_tie (config : Config.t T) (r r' : Rngs T) (m : Phi3.Phi3ForCausalLM) :
  Phi3.Phi3ForCausalLM_init config r = inr (m, r') ->
  Phi3.tie m = Config.tie_word_embeddings config
  /\ (Phi3.tie m = true -> Phi3.lm_head m = None)
  /\ (Phi3.tie m = false -> exists l, Phi3.lm_head m = Some l).
Proof.
  unfold Phi3.Phi3ForCausalLM_init, ibind.
  destruct (Phi3.Phi3Model_init config r) as [e|[m0 r0]]; [discriminate|].
  destruct (Config.tie_word_embeddings config); cbn.
  - intros E. inversion E; subst; cbn.
    split; [reflexivity | split; [reflexivity | discriminate]].
  - destruct (nnx_Linear _ _ r0) as [e|[l r1]]; [discriminate|].
    intros E. inversion E; subst; cbn.
    split; [reflexivity | split; [discriminate | now exists l]].
Qed.

Lemma qwen3_init_tie (config : Config.t T) (r r' : Rngs T) (m : Qwen3.Qwen3ForCausalLM) :
  Qwen3.Qwen3ForCausalLM_init config r = inr (m, r') ->
  Qwen3.tie m = Config.tie_word_embeddings config
  /\ (Qwen3.tie m = true -> Qwen3.lm_head m = None)
  /\ (Qwen3.tie m = false -> exists l, Qwen3.lm_head m = Some l).
Proof.
  unfold Qwen3.Qwen3ForCausalLM_init, ibind.
  destruct (Qwen3.Qwen3Model_init config r) as [e|[m0 r0]]; [discriminate|].
  destruct (Config.tie_word_embeddings config); cbn.
  - intros E. inversion E; subst; cbn.
    split; [reflexivity | split; [reflexivity | discriminate]].
  - destruct (nnx_Linear _ _ r0) as [e|[l r1]]; [discriminate|].
    intros E. inversion E; subst; cbn.
    split; [reflexivity | split; [discriminate | now exists l]].
Qed.

End Composition.


(** ** Construction *)

Section Construction.
Context {T : Type} `{Scalar T}.
Local Open Scope Z_scope.

Lemma check_extent_ok (n : Z) (r : Rngs T) :
  0 <= n -> check_extent n r = inr (Z.to_nat n, r).
Proof.
  intros Hn. unfold check_extent, ilift.
  now replace (n <? 0) with false by (symmetry; apply Z.ltb_ge; exact Hn).
Qed.

Lemma nnx_Linear_ok (i o : Z) (r : Rngs T) :
  0 <= i -> 0 <= o ->
  nnx_Linear i o r
  = inr ({| kernel := stream r (count r) (Z.to_nat i) (Z.to_nat o) |}, advance r).
Proof.
  intros Hi Ho. unfold nnx_Linear, ibind.
  now rewrite !check_extent_ok by assumption.
Qed.

Lemma nnx_RMSNorm_ok (n : Z) (eps : T) (r : Rngs T) :
  0 <= n ->
  nnx_RMSNorm n eps r
  = inr ({| rms_scale := repeat sone (Z.to_nat n); epsilon := eps |}, advance r).
Proof.
  intros Hn. unfold nnx_RMSNorm, ibind.
  now rewrite check_extent_ok by assumption.
Qed.

Lemma phi3_attention_init_ok (config : Config.t T) (r : Rngs T) (rd : Z) :
  0 < Config.num_attention_heads config <= Config.hidden_size config ->
  0 < Config.num_key_value_heads config ->
  to_int (smul (of_Z (Config.hidden_size config / Config.num_attention_heads config))
               (Config.partial_rotary_factor config)) = ok rd ->
  let hd := Config.hidden_size config / Config.num_attention_heads config in
  Phi3.Attention_init config r =
  inr ({| Phi3.n_heads := Config.num_attention_heads config;
          Phi3.n_kv_heads := Config.num_key_value_heads config;
          Phi3.head_dim := hd;
          Phi3.scale := pow_neg_half hd;
          Phi3.qkv_proj :=
            {| kernel := stream r (count r)
                 (Z.to_nat (Config.hidden_size config))
                 (Z.to_nat (Config.num_attention_heads config * hd
                            + 2 * (Config.num_key_value_heads config * hd))) |};
          Phi3.o_proj :=
            {| kernel := stream r (S (count r))
                 (Z.to_nat (Config.num_attention_heads config * hd))
                 (Z.to_nat (Config.hidden_size config)) |};
          Phi3.rot_dims := rd |},
       advance (advance r)).
Proof.
  intros [Hh Hle] Hkv Hrd hd.
  assert (Hhd : 0 < hd) by (apply Z.div_str_pos; lia).
  unfold Phi3.Attention_init, ibind, ilift, floordiv.
  replace (Config.num_attention_heads config =? 0) with false
    by (symmetry; apply Z.eqb_neq; lia).
  cbn -[Z.mul Z.add Z.div]. fold hd. fold hd in Hrd. clearbody hd.
  replace (hd =? 0) with false by (symmetry; apply Z.eqb_neq; lia).
  cbn -[Z.mul Z.add Z.div].
  rewrite nnx_Linear_ok by nia.
  rewrite nnx_Linear_ok by nia.
  rewrite Hrd. reflexivity.
Qed.

Lemma qwen3_attention_init_ok (config : Config.t T) (r : Rngs T) :
  0 < Config.num_attention_heads config ->
  0 < Config.num_key_value_heads config ->
  0 < Config.head_dim config ->
  0 <= Config.hidden_size config ->
  exists a r',
    Qwen3.Attention_init config r = inr (a, r')
    /\ Qwen3.num_attention_heads a = Config.num_attention_heads config
    /\ Qwen3.num_kv_heads a = Config.num_key_value_heads config
    /\ Qwen3.head_dim a = Config.head_dim config
    /\ Qwen3.n_repeat a
       = Config.num_attention_heads config / Config.num_key_value_heads config.
Proof.
  intros Hh Hkv Hd Hs.
  unfold Qwen3.Attention_init, ibind, ilift, floordiv.
  replace (Config.head_dim config =? 0) with false
    by (symmetry; apply Z.eqb_neq; lia).
  replace (Config.num_key_value_heads config =? 0) with false
    by (symmetry; apply Z.eqb_neq; lia).
  cbn -[Z.mul Z.add Z.div].
  rewrite !nnx_Linear_ok by nia.
  rewrite !nnx_RMSNorm_ok by lia.
  do 2 eexists. split; [reflexivity|]. cbn. repeat split.
Qed.
End Construction.

Section ConstructionErrors.
Context {T : Type} `{Scalar T}.
Local Open Scope Z_scope.

Lemma phi3_attention_init_zero_heads (config : Config.t T) (r : Rngs T) :
  Config.num_attention_heads config = 0 ->
  Phi3.Attention_init config r = inl ZeroDivisionError.
Proof.
  intros Hz. unfold Phi3.Attention_init, ibind, ilift, floordiv.
  now rewrite Hz.
Qed.

Lemma phi3_attention_init_zero_head_dim (config : Config.t T) (r : Rngs T) :
  0 <= Config.hidden_size config < Config.num_attention_heads config ->
  Phi3.Attention_init config r = inl ZeroDivisionError.
Proof.
  intros Hlt. unfold Phi3.Attention_init, ibind, ilift, floordiv.
  replace (Config.num_attention_heads config =? 0) with false
    by (symmetry; apply Z.eqb_neq; lia).
  cbn -[Z.mul Z.add Z.div].
  now rewrite Z.div_small by exact Hlt.
Qed.

Lemma qwen3_attention_init_zero_head_dim (config : Config.t T) (r : Rngs T) :
  Config.head_dim config = 0 ->
  Qwen3.Attention_init config r = inl ZeroDivisionError.
Proof.
  intros Hz. unfold Qwen3.Attention_init, ibind, ilift.
  now rewrite Hz.
Qed.

Lemma qwen3_attention_init_zero_kv_heads (config : Config.t T) (r : Rngs T) :
  Config.head_dim config <> 0 ->
  Config.num_key_value_heads config = 0 ->
  Qwen3.Attention_init config r = inl ZeroDivisionError.
Proof.
  intros Hd Hz. unfold Qwen3.Attention_init, ibind, ilift, floordiv.
  replace (Config.head_dim config =? 0) with false
    by (symmetry; now apply Z.eqb_neq).
  now rewrite Hz.
Qed.

(** C8, as amended.  Construction of an attention layer checks no
    divisibility.  With positive head counts (and, for phi3, a hidden size
    not below the number of heads) it succeeds and derives
    [head_dim = hidden_size // num_attention_heads] (phi3), respectively
    [n_repeat = num_attention_heads // num_key_value_heads] (qwen3), by floor
    division; the fused projection gets the width
    [n_heads*head_dim + 2*(n_kv_heads*head_dim)] computed from the floored
    [head_dim].  The failures the two files raise themselves are the
    [ZeroDivisionError]s of [//] and of [0 ** -0.5]. *)
Theorem attention_init_floor_division (config : Config.t T) (r : Rngs T) :
  (forall rd,
      0 < Config.num_attention_heads config <= Config.hidden_size config ->
      0 < Config.num_key_value_heads config ->
      to_int (smul (of_Z (Config.hidden_size config / Config.num_attention_heads config))
                   (Config.partial_rotary_factor config)) = ok rd ->
      exists a r',
        Phi3.Attention_init config r = inr (a, r')
        /\ Phi3.head_dim a = Config.hidden_size config / Config.num_attention_heads config
        /\ kernel (Phi3.qkv_proj a)
           = stream r (count r) (Z.to_nat (Config.hidden_size config))
               (Z.to_nat (Config.num_attention_heads config * Phi3.head_dim a
                          + 2 * (Config.num_key_value_heads config * Phi3.head_dim a))))
  /\ (0 < Config.num_attention_heads config ->
      0 < Config.num_key_value_heads config ->
      0 < Config.head_dim config ->
      0 <= Config.hidden_size config ->
      exists a r',
        Qwen3.Attention_init config r = inr (a, r')
        /\ Qwen3.n_repeat a
           = Config.num_attention_heads config / Config.num_key_value_heads config)
  /\ (Config.num_attention_heads config = 0 ->
      Phi3.Attention_init config r = inl ZeroDivisionError)
  /\ (0 <= Config.hidden_size config < Config.num_attention_heads config ->
      Phi3.Attention_init config r = inl ZeroDivisionError)
  /\ (Config.head_dim config = 0 ->
      Qwen3.Attention_init config r = inl ZeroDivisionError)
  /\ (Config.head_dim config <> 0 -> Config.num_key_value_heads config = 0 ->
      Qwen3.Attention_init config r = inl ZeroDivisionError).
Proof.
  repeat apply conj.
  - intros rd Hh Hkv Hrd. do 2 eexists. split.
    + apply (phi3_attention_init_ok config r Hh Hkv Hrd).
    + split; reflexivity.
  - intros Hh Hkv Hd Hs.
    destruct (qwen3_attention_init_ok config r Hh Hkv Hd Hs)
      as (a & r' & E & _ & _ & _ & Hn).
    now exists a, r'.
  - apply phi3_attention_init_zero_heads.
  - apply phi3_attention_init_zero_head_dim.
  - apply qwen3_attention_init_zero_head_dim.
  - apply qwen3_attention_init_zero_kv_heads.
Qed.
End ConstructionErrors.

Lemma attention_init_floor_division_witness :
  exists a r',
    Phi3.Attention_init Ex.cfg_uneven Ex.rngs0 = inr (a, r')
    /\ Phi3.head_dim a = (10 / 4)%Z
    /\ kernel (Phi3.qkv_proj a)
       = stream Ex.rngs0 (count Ex.rngs0) (Z.to_nat 10)
           (Z.to_nat (4 * Phi3.head_dim a + 2 * (3 * Phi3.head_dim a))).
Proof.
  destruct (attention_init_floor_division Ex.cfg_uneven Ex.rngs0) as [Hp _].
  apply (Hp (trunc (IZR (10 / 4) * 1))); cbn; [lia | lia | reflexivity].
Defined.

(** C8 as stated fails: a configuration whose hidden size (10) is not a
    multiple of its number of heads (4), and whose number of heads is not a
    multiple of its number of key/value heads (3), is accepted by both
    constructors; phi3 silently derives [head_dim = 2] (so that
    [n_heads * head_dim = 8], not 10), qwen3 derives [n_repeat = 1]. *)
Lemma attention_init_accepts_uneven_heads :
  (10 mod 4 <> 0)%Z /\ (4 mod 3 <> 0)%Z
  /\ (exists a r',
        Phi3.Attention_init Ex.cfg_uneven Ex.rngs0 = inr (a, r')
        /\ Phi3.head_dim a = 2%Z
        /\ (Phi3.n_heads a * Phi3.head_dim a)%Z = 8%Z)
  /\ (exists a r',
        Qwen3.Attention_init Ex.cfg_uneven Ex.rngs0 = inr (a, r')
        /\ Qwen3.n_repeat a = 1%Z).
Proof.
  split; [discriminate|]. split; [discriminate|]. split.
  - do 2 eexists. split.
    + apply (@phi3_attention_init_ok xreal _ Ex.cfg_uneven Ex.rngs0
               (trunc (IZR (10 / 4) * 1))); cbn; [lia | lia | reflexivity].
    + split; reflexivity.
  - destruct (@qwen3_attention_init_ok xreal _ Ex.cfg_uneven Ex.rngs0)
      as (a & r' & E & _ & _ & _ & Hn); cbn; try lia.
    exists a, r'. split; [exact E | exact Hn].
Qed.

(** ** Call-time failures *)

Section CallErrors.
Context {T : Type} `{Scalar T}.

Lemma length_set_nth {A} i (a : A) l :
  (i < length l)%nat -> length (set_nth i a l) = length l.
Proof.
  intros Hi. unfold set_nth.
  rewrite length_app, length_firstn. cbn [length]. rewrite length_skipn. lia.
Qed.

Lemma compatible_1 n : compatible n 1 = true.
Proof. unfold compatible. now rewrite orb_true_r. Qed.






Lemma KVCache_call_history (c : KVCache T) k v :
  history (snd (KVCache_call c k v)) <> None.
Proof.
  unfold KVCache_call. destruct (history c) as [[ks vs]|]; cbn; discriminate.
Qed.

Lemma phi3_block_cache (b : Phi3.TransformerBlock) x mask rope cache :
  snd (Phi3.TransformerBlock_call b x mask rope cache) =
  snd (Phi3.Attention_call (Phi3.self_attn b)
         (RMSNorm_call3 (Phi3.input_layernorm b) x) mask rope cache).
Proof.
  unfold Phi3.TransformerBlock_call.
  destruct (Phi3.Attention_call _ _ _ _ _) as [[e|h] c]; reflexivity.
Qed.

Lemma qwen3_block_cache (b : Qwen3.TransformerBlock) x mask rope cache :
  snd (Qwen3.TransformerBlock_call b x mask rope cache) =
  snd (Qwen3.Attention_call (Qwen3.self_attn b)
         (RMSNorm_call3 (Qwen3.input_layernorm b) x) mask rope cache).
Proof.
  unfold Qwen3.TransformerBlock_call.
  destruct (Qwen3.Attention_call _ _ _ _ _) as [[e|h] c]; reflexivity.
Qed.


End CallErrors.

Section ForwardLoop.
Context {T : Type} `{Scalar T}.




End ForwardLoop.

Section ForwardValidation.
Context {T : Type} `{Scalar T}.

End ForwardValidation.



(** ** Arithmetic on finite extended reals *)

Section XReal.
Local Open Scope R_scope.

Lemma fin_map_to_R (l : vec xreal) : fin1 l -> l = map Fin (map to_R l).
Proof.
  induction 1 as [|x l Hx _ IH]; [reflexivity|].
  destruct x; try contradiction. simpl. now rewrite <- IH.
Qed.

Lemma fin1_map_Fin (l : list R) : fin1 (map Fin l).
Proof. induction l; constructor; simpl; auto. Qed.

Lemma tsum_map_Fin (l : list R) : tsum (map Fin l) = Fin (rsum l).
Proof.
  induction l as [|a l IH]; [reflexivity|].
  change (tsum (map Fin (a :: l))) with (xadd (Fin a) (tsum (map Fin l))).
  now rewrite IH.
Qed.

Lemma rsum_app (a b : list R) : rsum (a ++ b) = rsum a + rsum b.
Proof. induction a as [|x a IH]; simpl; [lra | rewrite IH; lra]. Qed.

Lemma rsum_repeat_0 n : rsum (repeat 0 n) = 0.
Proof. induction n as [|n IH]; simpl; [reflexivity | rewrite IH; lra]. Qed.


Lemma rsum_nonneg (l : list R) : Forall (fun u => 0 <= u) l -> 0 <= rsum l.
Proof. induction 1 as [|a l Ha _ IH]; simpl; lra. Qed.

Lemma rsum_pos (l : list R) :
  Forall (fun u => 0 <= u) l -> Exists (fun u => 0 < u) l -> 0 < rsum l.
Proof.
  intros Hall Hex. induction Hex as [a l Ha|a l _ IH];
    inversion Hall as [|? ? Ha0 Hl]; subst; simpl.
  - pose proof (rsum_nonneg Hl). lra.
  - specialize (IH Hl). lra.
Qed.

(** The row maximum of entries that are finite or minus infinity. *)
Lemma max_fin_or_ninf (s : vec xreal) :
  Forall fin_or_ninf s ->
  fold_right xmax NInf s = NInf \/ exists mx, fold_right xmax NInf s = Fin mx.
Proof.
  induction 1 as [|e s He _ IH]; [now left|].
  simpl. destruct He as [He| ->].
  - right. destruct e; try contradiction.
    destruct IH as [-> | [mx ->]]; simpl; eauto.
  - destruct IH as [-> | [mx ->]]; simpl; eauto.
Qed.

Lemma max_fin_exists (s : vec xreal) :
  Forall fin_or_ninf s -> Exists is_fin s ->
  exists mx, fold_right xmax NInf s = Fin mx.
Proof.
  intros Hall Hex. induction Hex as [e s He|e s _ IH];
    inversion Hall as [|? ? He0 Hs]; subst; simpl.
  - destruct e; try contradiction.
    destruct (max_fin_or_ninf Hs) as [-> | [mx ->]]; simpl; eauto.
  - destruct (IH Hs) as [mx ->].
    destruct He0 as [He0| ->]; [destruct e; try contradiction|]; simpl; eauto.
Qed.

Lemma exp_shift_map (mx : R) (s : vec xreal) :
  Forall fin_or_ninf s ->
  map (fun e => xexp (xsub e (Fin mx))) s = map Fin (map (exp_shift mx) s).
Proof.
  induction 1 as [|e s He _ IH]; [reflexivity|].
  simpl. rewrite IH. f_equal.
  destruct He as [He| ->]; [destruct e; try contradiction|]; reflexivity.
Qed.

Lemma exp_shift_nonneg (mx : R) (s : vec xreal) :
  Forall (fun u => 0 <= u) (map (exp_shift mx) s).
Proof.
  induction s as [|e s IH]; constructor; [|exact IH].
  destruct e; simpl; try lra. left. apply exp_pos.
Qed.

Lemma exp_shift_pos (mx : R) (s : vec xreal) :
  Exists is_fin s -> Exists (fun u => 0 < u) (map (exp_shift mx) s).
Proof.
  induction 1 as [e s He|e s _ IH]; simpl.
  - left. destruct e; try contradiction. apply exp_pos.
  - now right.
Qed.

Lemma div_map_Fin (S : R) (us : list R) :
  S <> 0 ->
  map (fun e => xdiv e (Fin S)) (map Fin us) = map Fin (map (fun u => u * / S) us).
Proof.
  intros HS. rewrite !map_map. apply map_ext. intros u. simpl.
  destruct (Req_dec_T S 0) as [E|_]; [contradiction | reflexivity].
Qed.

(** The softmax of a row whose entries are finite or minus infinity, with
    at least one finite entry. *)
Lemma softmax_row_fin (s : vec xreal) :
  Forall fin_or_ninf s -> Exists is_fin s ->
  exists mx,
    fold_right xmax NInf s = Fin mx
    /\ 0 < rsum (map (exp_shift mx) s)
    /\ softmax_row s
       = map Fin (map (fun u => u * / rsum (map (exp_shift mx) s))
                      (map (exp_shift mx) s)).
Proof.
  intros Hall Hex. destruct (max_fin_exists Hall Hex) as [mx Hmx].
  exists mx. split; [exact Hmx|].
  assert (Hpos : 0 < rsum (map (exp_shift mx) s))
    by (apply rsum_pos; [apply exp_shift_nonneg | now apply exp_shift_pos]).
  split; [exact Hpos|].
  unfold softmax_row.
  change (@smax xreal _) with xmax. change (@sninf xreal _) with NInf.
  change (@sexp xreal _) with xexp. change (@ssub xreal _) with xsub.
  change (@sdiv xreal _) with xdiv.
  rewrite Hmx, (exp_shift_map mx Hall), tsum_map_Fin.
  apply div_map_Fin. lra.
Qed.
End XReal.

(** ** Rows of the attention weights *)

Section Rows.

Lemma in_zipWith {A B C} (f : A -> B -> C) xs ys z :
  In z (zipWith f xs ys) -> exists x y, In x xs /\ In y ys /\ z = f x y.
Proof.
  revert ys. induction xs as [|x xs IH]; intros [|y ys] Hz; simpl in Hz;
    try contradiction.
  destruct Hz as [<-|Hz].
  - exists x, y. simpl. auto.
  - destruct (IH ys Hz) as (x' & y' & Hx & Hy & ->).
    exists x', y'. simpl. auto.
Qed.


Lemma bzip_same_length {A B C} (f : A -> B -> C) xs ys :
  length xs = length ys -> bzip f xs ys = zipWith f xs ys.
Proof.
  intros Hl. destruct xs as [|x [|x' xs]]; destruct ys as [|y [|y' ys]];
    try discriminate; reflexivity.
Qed.


End Rows.

Section FiniteScores.
Local Open Scope R_scope.

Lemma is_fin_nth (v : vec xreal) j : fin1 v -> is_fin (nth j v (Fin 0)).
Proof.
  intros Hv. revert j. induction Hv as [|x v Hx _ IH]; intros [|j]; simpl; auto.
Qed.

Lemma fin1_nth (m : mat xreal) j : fin2 m -> fin1 (nth j m []).
Proof.
  intros Hm. revert j. induction Hm as [|r m Hr _ IH]; intros [|j]; simpl; auto;
    constructor.
Qed.

Lemma fin2_transpose n (m : mat xreal) : fin2 m -> fin2 (transpose n (Fin 0) m).
Proof.
  intros Hm. unfold transpose, fin2. apply Forall_map. apply Forall_forall.
  intros j _. unfold fin1. apply Forall_map.
  eapply Forall_impl; [|exact Hm]. intros r Hr. now apply is_fin_nth.
Qed.

Lemma is_fin_tsum (v : vec xreal) : fin1 v -> is_fin (tsum v).
Proof.
  intros Hv. rewrite (fin_map_to_R Hv), tsum_map_Fin. exact I.
Qed.

Lemma fin1_zipWith (f : xreal -> xreal -> xreal) (a b : vec xreal) :
  (forall x y, is_fin x -> is_fin y -> is_fin (f x y)) ->
  fin1 a -> fin1 b -> fin1 (zipWith f a b).
Proof.
  intros Hf Ha. revert b. induction Ha as [|x a Hx _ IH]; intros b Hb.
  - constructor.
  - inversion Hb as [|y b' Hy Hb']; subst; simpl; constructor; auto.
    now apply IH.
Qed.

Lemma is_fin_xmul x y : is_fin x -> is_fin y -> is_fin (xmul x y).
Proof. destruct x, y; simpl; tauto. Qed.

Lemma is_fin_xadd x y : is_fin x -> is_fin y -> is_fin (xadd x y).
Proof. destruct x, y; simpl; tauto. Qed.

Lemma is_fin_xsub x y : is_fin x -> is_fin y -> is_fin (xsub x y).
Proof. destruct x, y; simpl; tauto. Qed.

Lemma is_fin_dot (a b : vec xreal) : fin1 a -> fin1 b -> is_fin (dot a b).
Proof.
  intros Ha Hb. apply is_fin_tsum. apply fin1_zipWith; auto using is_fin_xmul.
Qed.

Lemma fin1_lin_row (w : mat xreal) (r : vec xreal) :
  fin2 w -> fin1 r -> fin1 (lin_row w r).
Proof.
  intros Hw Hr. unfold lin_row, fin1. apply Forall_map.
  eapply Forall_impl; [|apply (fin2_transpose (ncols w) Hw)].
  intros c Hc. now apply is_fin_dot.
Qed.




End FiniteScores.

Section MaskedSoftmax.
Local Open Scope R_scope.




End MaskedSoftmax.



(** ** [attend] per batch entry and head *)

Section AttendForm.
Context {T : Type} `{Scalar T}.

Lemma zipWith_map_l {A A' B C} (f : A' -> B -> C) (g : A -> A') xs ys :
  zipWith f (map g xs) ys = zipWith (fun x y => f (g x) y) xs ys.
Proof.
  revert ys. induction xs as [|x xs IH]; intros [|y ys]; simpl; auto.
  now rewrite IH.
Qed.

Lemma zipWith_map_r {A B B' C} (f : A -> B' -> C) (g : B -> B') xs ys :
  zipWith f xs (map g ys) = zipWith (fun x y => f x (g y)) xs ys.
Proof.
  revert ys. induction xs as [|x xs IH]; intros [|y ys]; simpl; auto.
  now rewrite IH.
Qed.

Lemma map_zipWith {A B C D} (g : C -> D) (f : A -> B -> C) xs ys :
  map g (zipWith f xs ys) = zipWith (fun x y => g (f x y)) xs ys.
Proof.
  revert ys. induction xs as [|x xs IH]; intros [|y ys]; simpl; auto.
  now rewrite IH.
Qed.

Lemma zipWith_same {A B C} (f : B -> B -> C) (l : list A) :
  forall (a b : A -> B),
  zipWith f (map a l) (map b l) = map (fun x => f (a x) (b x)) l.
Proof. intros a b. induction l as [|x l IH]; simpl; [reflexivity | now rewrite IH]. Qed.

Lemma zipWith3_same {A B C D E} (f : B -> C -> D -> E) (l : list A) a b c :
  zipWith3 f (map a l) (map b l) (map c l) = map (fun x => f (a x) (b x) (c x)) l.
Proof. induction l as [|x l IH]; simpl; [reflexivity | now rewrite IH]. Qed.

Lemma zipWith_ext {A B C} (f g : A -> B -> C) xs ys :
  (forall x y, f x y = g x y) -> zipWith f xs ys = zipWith g xs ys.
Proof.
  intros E. revert ys. induction xs as [|x xs IH]; intros [|y ys]; simpl; auto.
  now rewrite E, IH.
Qed.

Lemma bzip_singleton_r {A B C} (f : A -> B -> C) xs y :
  bzip f xs [y] = map (fun x => f x y) xs.
Proof. destruct xs as [|x [|x' xs]]; reflexivity. Qed.

Lemma heads_form (scale : T) (M : mat T) (qb kb vb : tensor3 T) :
  zipWith matmul
    (map (fun rh => map softmax_row (bzip (bzip sadd) rh M))
         (map (map (map (fun e => smul e scale)))
              (zipWith matmul qb (map swapaxes kb))))
    vb
  = zipWith3 (sdpa_head scale M) qb kb vb.
Proof.
  revert kb vb. induction qb as [|qh qb IH]; intros [|kh kb] [|vh vb];
    simpl; try reflexivity.
  now rewrite IH.
Qed.

Lemma batch_form (L : nat) (scale : T) (M : mat T) (o : Linear T)
      (q k v : tensor4 T) :
  Linear_call o
    (merge_last
       (transpose_0213 L
          (matmul4
             (softmax4
                (bzip (bzip (bzip (bzip sadd)))
                      (tscale4 (matmul4 q (swapaxes4 k)) scale) [[M]]))
             v)))
  = zipWith3 (attend_batch L scale M o) q k v.
Proof.
  unfold Linear_call, merge_last, transpose_0213, matmul4, softmax4, tscale4,
    swapaxes4.
  rewrite bzip_singleton_r.
  revert k v. induction q as [|qb q IH]; intros [|kb k] [|vb v];
    simpl; try reflexivity.
  rewrite IH. f_equal. unfold attend_batch.
  rewrite bzip_singleton_r. rewrite map_map.
  rewrite <- heads_form. now rewrite !map_map.
Qed.

(** [attend] under a mask of shape (1, 1, len M, ncols M). *)
Lemma attend_batch_form (L : nat) (q k v : tensor4 T) (scale : T) (M : mat T)
      (o : Linear T) :
  attend L q k v scale [[M]] o =
  if broadcastable (shape4 (tscale4 (matmul4 q (swapaxes4 k)) scale)) (shape4 [[M]])
  then ok (zipWith3 (attend_batch L scale M o) q k v)
  else raise ShapeError.
Proof.
  unfold attend, attn_weights, attn_scores, add_mask.
  destruct (broadcastable _ _); [|reflexivity].
  unfold ok at 1 2. cbv beta iota. unfold attn_output. now rewrite batch_form.
Qed.
End AttendForm.

(** ** Indexing lemmas *)

Section Indexing.

Lemma nth_map_lt {A B} (f : A -> B) l t d d' :
  (t < length l)%nat -> nth t (map f l) d' = f (nth t l d).
Proof.
  revert t. induction l as [|x l IH]; intros [|t] Ht; simpl in *; try lia; auto.
  apply IH. lia.
Qed.

Lemma nth_zipWith_lt {A B C} (f : A -> B -> C) xs ys t d dx dy :
  (t < length xs)%nat -> (t < length ys)%nat ->
  nth t (zipWith f xs ys) d = f (nth t xs dx) (nth t ys dy).
Proof.
  revert ys t. induction xs as [|x xs IH]; intros [|y ys] [|t] Hx Hy;
    simpl in *; try lia; auto.
  apply IH; lia.
Qed.

Lemma length_zipWith {A B C} (f : A -> B -> C) xs ys :
  length (zipWith f xs ys) = Nat.min (length xs) (length ys).
Proof.
  revert ys. induction xs as [|x xs IH]; intros [|y ys]; simpl; auto.
Qed.

Lemma nth_map_seq {A} (f : nat -> A) n t d :
  (t < n)%nat -> nth t (map f (seq 0 n)) d = f t.
Proof.
  intros Ht. rewrite (@nth_map_lt _ _ f (seq 0 n) t 0%nat d) by (now rewrite length_seq).
  now rewrite seq_nth.
Qed.

Lemma map_nth_seq {A B} (f : A -> B) (l : list A) d :
  map (fun i => f (nth i l d)) (seq 0 (length l)) = map f l.
Proof.
  induction l as [|x l IH]; [reflexivity|].
  simpl. f_equal. rewrite <- seq_shift, map_map. exact IH.
Qed.

Lemma zipWith_app {A B C} (f : A -> B -> C) a b c d :
  length a = length c ->
  zipWith f (a ++ b) (c ++ d) = zipWith f a c ++ zipWith f b d.
Proof.
  revert c. induction a as [|x a IH]; intros [|y c] Hl; simpl in *;
    try discriminate; auto.
  f_equal. apply IH. now injection Hl.
Qed.

Lemma firstn_zipWith {A B C} (f : A -> B -> C) n xs ys :
  firstn n (zipWith f xs ys) = zipWith f (firstn n xs) (firstn n ys).
Proof.
  revert xs ys. induction n as [|n IH]; intros [|x xs] [|y ys]; simpl; auto.
  now rewrite IH.
Qed.

Lemma firstn_S_nth {A} (l : list A) t d :
  (t < length l)%nat -> firstn (S t) l = firstn t l ++ [nth t l d].
Proof.
  revert t. induction l as [|x l IH]; intros [|t] Ht; simpl in *; try lia; auto.
  f_equal. apply IH. lia.
Qed.

Lemma ncols_firstn {A} (m : list (list A)) t : ncols (firstn (S t) m) = ncols m.
Proof. now destruct m. Qed.

Lemma repeat_each_map {A B} (f : A -> B) n l :
  repeat_each n (map f l) = map f (repeat_each n l).
Proof.
  induction l as [|x l IH]; [reflexivity|].
  simpl map. rewrite !repeat_each_cons, map_app, IH. f_equal.
  clear. induction n as [|n IH]; simpl; [reflexivity | now rewrite IH].
Qed.
End Indexing.

Section SwapAxes.
Context {T : Type} `{Scalar T}.

(** The scores of one query against a key matrix of positive width: one
    dot product per key row. *)
Lemma lin_row_swapaxes (k : mat T) (q : vec T) :
  (1 <= ncols k)%nat ->
  lin_row (swapaxes k) q = map (fun kr => dot q (fit (ncols k) kr)) k.
Proof.
  intros Hc. unfold lin_row, swapaxes.
  assert (Hn : ncols (transpose (ncols k) szero k) = length k).
  { unfold transpose, ncols at 1. destruct (ncols k) as [|c]; [lia|].
    simpl. now rewrite length_map. }
  rewrite Hn. unfold transpose at 1. rewrite map_map.
  rewrite <- (map_nth_seq (fun kr => dot q (fit (ncols k) kr)) k []).
  apply map_ext_in. intros i Hi. apply in_seq in Hi. f_equal.
  unfold transpose, fit. rewrite map_map. apply map_ext. intros j.
  rewrite (@nth_map_lt _ _ (fun r => nth j r szero) k i [] szero); [reflexivity|].
  lia.
Qed.
End SwapAxes.

(** ** Masked keys contribute nothing *)

Section Prefix.
Local Open Scope R_scope.

Lemma fin1_fin_or_ninf (s : vec xreal) : fin1 s -> Forall fin_or_ninf s.
Proof. intros Hs. eapply Forall_impl; [|exact Hs]. intros e He. now left. Qed.

Lemma fin1_exists (s : vec xreal) : fin1 s -> s <> [] -> Exists is_fin s.
Proof.
  intros Hs Hne. destruct s as [|e s]; [contradiction|].
  left. now inversion Hs.
Qed.

Lemma fin1_app (a b : vec xreal) : fin1 a -> fin1 b -> fin1 (a ++ b).
Proof. intros Ha Hb. apply Forall_app. now split. Qed.

Lemma fold_max_ninf n : fold_right xmax NInf (repeat NInf n) = NInf.
Proof. induction n as [|n IH]; simpl; [reflexivity | now rewrite IH]. Qed.

Lemma fold_max_app_ninf (s : vec xreal) n :
  fold_right xmax NInf (s ++ repeat NInf n) = fold_right xmax NInf s.
Proof. now rewrite fold_right_app, fold_max_ninf. Qed.

Lemma zipWith_xadd_ninf (b : vec xreal) n :
  fin1 b -> length b = n -> zipWith xadd b (repeat NInf n) = repeat NInf n.
Proof.
  intros Hb. revert n. induction Hb as [|x b Hx _ IH]; intros [|n] Hl;
    simpl in *; try discriminate; auto.
  destruct x; try contradiction. simpl. f_equal. apply IH. now injection Hl.
Qed.

Lemma map_Fin_app_zeros (l : list R) n :
  map Fin (l ++ repeat 0 n) = map Fin l ++ repeat (Fin 0) n.
Proof. now rewrite map_app, map_repeat. Qed.

(** The softmax of a finite row followed by masked entries is the softmax
    of the finite row followed by zeros. *)
Lemma softmax_prefix (s : vec xreal) n :
  fin1 s -> s <> [] ->
  exists ps,
    softmax_row s = map Fin ps
    /\ length ps = length s
    /\ softmax_row (s ++ repeat NInf n) = map Fin ps ++ repeat (Fin 0) n.
Proof.
  intros Hs Hne.
  destruct (softmax_row_fin (fin1_fin_or_ninf Hs) (fin1_exists Hs Hne))
    as (mx & Hmx & Hpos & E).
  assert (Hall' : Forall fin_or_ninf (s ++ repeat NInf n)).
  { apply Forall_app. split; [now apply fin1_fin_or_ninf|].
    apply Forall_forall. intros e He. apply repeat_spec in He. now right. }
  assert (Hex' : Exists is_fin (s ++ repeat NInf n)).
  { apply Exists_app. left. now apply fin1_exists. }
  destruct (softmax_row_fin Hall' Hex') as (mx' & Hmx' & _ & E').
  rewrite fold_max_app_ninf, Hmx in Hmx'. injection Hmx' as <-.
  exists (map (fun u => u * / rsum (map (exp_shift mx) s)) (map (exp_shift mx) s)).
  split; [exact E|]. split; [now rewrite !length_map|].
  rewrite E'. rewrite (map_app (exp_shift mx)), map_repeat.
  change (exp_shift mx NInf) with 0.
  rewrite rsum_app, rsum_repeat_0, Rplus_0_r.
  rewrite map_app, map_repeat, Rmult_0_l.
  apply map_Fin_app_zeros.
Qed.

Lemma zipWith_xmul_Fin (a b : list R) :
  zipWith xmul (map Fin a) (map Fin b) = map Fin (zipWith Rmult a b).
Proof.
  revert b. induction a as [|x a IH]; intros [|y b]; simpl; auto.
  now rewrite IH.
Qed.

Lemma rsum_zip_zeros n (r : list R) : rsum (zipWith Rmult (repeat 0 n) r) = 0.
Proof.
  revert r. induction n as [|n IH]; intros [|y r]; simpl; auto.
  rewrite IH. ring.
Qed.

Lemma dot_app_zeros (ps : list R) (c1 c2 : vec xreal) n :
  fin1 c1 -> fin1 c2 -> length c1 = length ps ->
  dot (map Fin ps ++ repeat (Fin 0) n) (c1 ++ c2) = dot (map Fin ps) c1.
Proof.
  intros H1 H2 Hl. unfold dot.
  change (@smul xreal _) with xmul.
  rewrite zipWith_app by (now rewrite length_map).
  rewrite (fin_map_to_R H1), (fin_map_to_R H2).
  rewrite <- (map_repeat 0 n Fin), !zipWith_xmul_Fin, <- map_app, !tsum_map_Fin.
  rewrite rsum_app, rsum_zip_zeros. f_equal. ring.
Qed.

(** The weighted sum of the values: zero weights on the trailing keys let
    the trailing values drop out. *)
Lemma lin_row_prefix (v : mat xreal) (ps : list R) n :
  fin2 v -> length v = (length ps + n)%nat -> (1 <= length ps)%nat ->
  lin_row v (map Fin ps ++ repeat (Fin 0) n)
  = lin_row (firstn (length ps) v) (map Fin ps).
Proof.
  intros Hv Hl Hp. unfold lin_row.
  replace (ncols (firstn (length ps) v)) with (ncols v)
    by (destruct (length ps); [lia | now rewrite ncols_firstn]).
  unfold transpose. rewrite !map_map. apply map_ext. intros j.
  rewrite <- (firstn_skipn (length ps) v) at 1. rewrite map_app.
  apply dot_app_zeros.
  - unfold fin1. apply Forall_map. apply Forall_forall. intros r Hr.
    apply is_fin_nth.
    apply (proj1 (Forall_forall _ _) Hv r).
    rewrite <- (firstn_skipn (length ps) v). apply in_or_app. now left.
  - unfold fin1. apply Forall_map. apply Forall_forall. intros r Hr.
    apply is_fin_nth.
    apply (proj1 (Forall_forall _ _) Hv r).
    rewrite <- (firstn_skipn (length ps) v). apply in_or_app. now right.
  - rewrite length_map, length_firstn. lia.
Qed.
End Prefix.

Section HeadPrefix.
Local Open Scope R_scope.

Lemma fin1_fit c (r : vec xreal) : fin1 r -> fin1 (fit c r).
Proof.
  intros Hr. unfold fit, fin1. apply Forall_map. apply Forall_forall.
  intros e _. now apply is_fin_nth.
Qed.

Lemma fin1_raw_row scale (k : mat xreal) q :
  is_fin scale -> fin2 k -> fin1 q -> fin1 (raw_row scale k q).
Proof.
  intros Hs Hk Hq. unfold raw_row, fin1. rewrite map_map. apply Forall_map.
  eapply Forall_impl; [|exact Hk]. intros kr Hkr.
  apply is_fin_xmul; [|exact Hs]. apply is_fin_dot; [exact Hq | now apply fin1_fit].
Qed.

Lemma raw_row_firstn scale (k : mat xreal) q t :
  raw_row scale (firstn (S t) k) q = firstn (S t) (raw_row scale k q).
Proof. unfold raw_row. now rewrite ncols_firstn, !firstn_map. Qed.

Lemma length_raw_row scale (k : mat xreal) q : length (raw_row scale k q) = length k.
Proof. unfold raw_row. now rewrite !length_map. Qed.

Lemma length_causal_row L t : (t < L)%nat -> length (causal_row L t) = L.
Proof.
  intros Ht. unfold causal_row. rewrite length_app, !repeat_length. lia.
Qed.

(** Row [t] of a head under the causal mask equals the only row of the same
    head run on query [t] alone against the first [t + 1] keys and values. *)
Lemma head_prefix (scale : xreal) (qh kh vh : mat xreal) (L t : nat) :
  is_fin scale -> fin2 qh -> fin2 kh -> fin2 vh ->
  length qh = L -> length kh = L -> length vh = L ->
  (t < L)%nat -> (1 <= ncols kh)%nat ->
  nth t (sdpa_head scale (map (causal_row L) (seq 0 L)) qh kh vh) []
  = nth 0 (sdpa_head scale [repeat (Fin 0) (S t)] [nth t qh []]
                     (firstn (S t) kh) (firstn (S t) vh)) [].
Proof.
  intros Hs Fq Fk Fv Lq Lk Lv Ht Hc.
  assert (Fqt : fin1 (nth t qh [])) by (now apply fin1_nth).
  pose proof (@fin1_raw_row scale kh (nth t qh []) Hs Fk Fqt) as Fraw.
  pose proof (length_raw_row scale kh (nth t qh [])) as Lraw.
  (* the row of the single-position call *)
  assert (R : nth 0 (sdpa_head scale [repeat (Fin 0) (S t)] [nth t qh []]
                        (firstn (S t) kh) (firstn (S t) vh)) []
              = lin_row (firstn (S t) vh)
                  (softmax_row (zipWith xadd (firstn (S t) (raw_row scale kh (nth t qh [])))
                                        (repeat (Fin 0) (S t))))).
  { unfold sdpa_head. rewrite !matmul_rows. cbn [map bzip nth].
    rewrite lin_row_swapaxes by (now rewrite ncols_firstn).
    change (map (fun e => smul e scale)
                (map (fun kr => dot (nth t qh []) (fit (ncols (firstn (S t) kh)) kr))
                     (firstn (S t) kh)))
      with (raw_row scale (firstn (S t) kh) (nth t qh [])).
    rewrite raw_row_firstn.
    change (@sadd xreal _) with xadd.
    rewrite bzip_same_length; [reflexivity|].
    rewrite length_firstn, repeat_length, Lraw. lia. }
  rewrite R. clear R.
  (* the row of the full call *)
  unfold sdpa_head. rewrite !matmul_rows.
  rewrite (bzip_same_length (bzip sadd))
    by (now rewrite !length_map, length_seq).
  rewrite (@nth_map_lt _ _ (lin_row vh) _ t [] [])
    by (rewrite length_map, length_zipWith, !length_map, length_seq; lia).
  rewrite (@nth_map_lt _ _ softmax_row _ t [] [])
    by (rewrite length_zipWith, !length_map, length_seq; lia).
  rewrite (@nth_zipWith_lt _ _ _ (bzip sadd) _ _ t [] [] [])
    by (rewrite ?length_map, ?length_seq; lia).
  rewrite nth_map_seq by exact Ht.
  rewrite (@nth_map_lt _ _ (map (fun e => smul e scale)) _ t [] [])
    by (rewrite length_map; lia).
  rewrite (@nth_map_lt _ _ (lin_row (swapaxes kh)) qh t [] []) by lia.
  rewrite lin_row_swapaxes by exact Hc.
  change (map (fun e => smul e scale)
              (map (fun kr => dot (nth t qh []) (fit (ncols kh) kr)) kh))
    with (raw_row scale kh (nth t qh [])).
  change (@sadd xreal _) with xadd.
  rewrite bzip_same_length by (rewrite Lraw, length_causal_row; lia).
  unfold causal_row.
  rewrite <- (firstn_skipn (S t) (raw_row scale kh (nth t qh []))) at 1.
  rewrite zipWith_app by (rewrite length_firstn, repeat_length, Lraw; lia).
  rewrite (zipWith_xadd_ninf (n := (L - S t)%nat)).
  2:{ unfold fin1. apply Forall_forall. intros e He.
      apply (proj1 (Forall_forall _ _) Fraw e).
      rewrite <- (firstn_skipn (S t) (raw_row scale kh (nth t qh []))).
      apply in_or_app. now right. }
  2:{ rewrite length_skipn, Lraw. lia. }
  set (st := zipWith xadd (firstn (S t) (raw_row scale kh (nth t qh [])))
                     (repeat (Fin 0) (S t))).
  assert (Lst : length st = S t).
  { unfold st. rewrite length_zipWith, length_firstn, repeat_length, Lraw. lia. }
  assert (Fst : fin1 st).
  { unfold st. apply fin1_zipWith; [exact is_fin_xadd | |].
    - unfold fin1. apply Forall_forall. intros e He.
      apply (proj1 (Forall_forall _ _) Fraw e).
      rewrite <- (firstn_skipn (S t) (raw_row scale kh (nth t qh []))).
      apply in_or_app. now left.
    - unfold fin1. apply Forall_forall. intros e He.
      apply repeat_spec in He. now subst. }
  assert (Nst : st <> []) by (intros E; rewrite E in Lst; discriminate).
  destruct (softmax_prefix (L - S t) Fst Nst) as (ps & Eps & Lps & Efull).
  rewrite Efull, Eps.
  rewrite lin_row_prefix by (try exact Fv; lia).
  now rewrite Lps, Lst.
Qed.
End HeadPrefix.

(** ** [attend] on arrays given per batch entry *)

Section AttendRows.
Context {T : Type} `{Scalar T}.

Lemma compatible_refl n : compatible n n = true.
Proof. unfold compatible. now rewrite Nat.eqb_refl. Qed.

Lemma ncols_swapaxes (k : mat T) : (1 <= ncols k)%nat -> ncols (swapaxes k) = length k.
Proof.
  intros Hc. unfold swapaxes, transpose, ncols at 1.
  destruct (ncols k) as [|c]; [lia|]. simpl. now rewrite length_map.
Qed.

Lemma broadcastable_first (q0 : mat T) qs q (k0 : mat T) ks k (scale : T) (M : mat T) :
  length q0 = length M -> (1 <= length q0)%nat ->
  length k0 = ncols M -> (1 <= ncols k0)%nat ->
  broadcastable
    (shape4 (tscale4 (matmul4 ((q0 :: qs) :: q) (swapaxes4 ((k0 :: ks) :: k))) scale))
    (shape4 [[M]]) = true.
Proof.
  intros Hq Hq1 Hk Hk1. unfold shape4, broadcastable.
  cbn [hd ncols length tscale4 matmul4 swapaxes4 map zipWith].
  rewrite !compatible_1. cbn [andb].
  rewrite matmul_rows, !length_map, Hq, compatible_refl. cbn [andb].
  destruct q0 as [|r0 q0]; [simpl in Hq1; lia|].
  unfold ncols at 1. cbn [map hd].
  rewrite length_map, length_lin_row, ncols_swapaxes by exact Hk1.
  rewrite Hk. apply compatible_refl.
Qed.

Lemma attend_rows {A} (x : list A) (Qf Kf Vf : A -> tensor3 T)
      (L : nat) (scale : T) (M : mat T) (o : Linear T)
      xb0 x' (q0 : mat T) qs (k0 : mat T) ks :
  x = xb0 :: x' -> Qf xb0 = q0 :: qs -> Kf xb0 = k0 :: ks ->
  length q0 = length M -> (1 <= length q0)%nat ->
  length k0 = ncols M -> (1 <= ncols k0)%nat ->
  attend L (map Qf x) (map Kf x) (map Vf x) scale [[M]] o
  = ok (map (fun xb => attend_batch L scale M o (Qf xb) (Kf xb) (Vf xb)) x).
Proof.
  intros -> EQ EK Hq Hq1 Hk Hk1.
  rewrite attend_batch_form, zipWith3_same.
  cbn [map]. rewrite EQ, EK.
  now rewrite broadcastable_first.
Qed.

Lemma zipWith3_maps {A B C D E F} (f : C -> D -> E -> F)
      (a : A -> C) (b : B -> D) (c : B -> E) hs gs :
  zipWith3 f (map a hs) (map b gs) (map c gs)
  = zipWith (fun h g => f (a h) (b g) (c g)) hs gs.
Proof.
  revert gs. induction hs as [|h hs IH]; intros [|g gs]; simpl; auto.
  now rewrite IH.
Qed.

(** Row [t] of the output of a batch entry. *)
Lemma nth_attend_batch (L : nat) (scale : T) (M : mat T) (o : Linear T)
      (qb kb vb : tensor3 T) t :
  (t < L)%nat ->
  nth t (attend_batch L scale M o qb kb vb) []
  = lin_row (kernel o)
      (concat (map (fun hm => nth t hm []) (zipWith3 (sdpa_head scale M) qb kb vb))).
Proof.
  intros Ht. unfold attend_batch. rewrite matmul_rows.
  rewrite (@nth_map_lt _ _ (lin_row (kernel o)) _ t [] [])
    by (unfold transpose; now rewrite !length_map, length_seq).
  f_equal.
  rewrite (@nth_map_lt _ _ (@concat T) _ t [] [])
    by (unfold transpose; now rewrite length_map, length_seq).
  f_equal. unfold transpose. now rewrite nth_map_seq.
Qed.

Lemma length_attend_batch (L : nat) (scale : T) (M : mat T) (o : Linear T)
      (qb kb vb : tensor3 T) :
  length (attend_batch L scale M o qb kb vb) = L.
Proof.
  unfold attend_batch, transpose. now rewrite matmul_rows, !length_map, length_seq.
Qed.

Lemma attend_batch_1 (scale : T) (M : mat T) (o : Linear T) (qb kb vb : tensor3 T) :
  attend_batch 1 scale M o qb kb vb
  = [nth 0 (attend_batch 1 scale M o qb kb vb) []].
Proof.
  pose proof (length_attend_batch 1 scale M o qb kb vb) as Hl.
  destruct (attend_batch 1 scale M o qb kb vb) as [|r [|r' l]]; try discriminate.
  reflexivity.
Qed.
End AttendRows.

(** ** Prefill against token-by-token decoding, in row form *)

Unset Implicit Arguments.

Section RowDecode.
Local Open Scope nat_scope.
Variables (nh nkv rep : nat).
Variables (fq fk : nat -> vec xreal * vec xreal -> vec xreal -> vec xreal).
Variable (fv : nat -> vec xreal -> vec xreal).
Variables (scale : xreal) (o : Linear xreal).
Variables (cos sin : mat xreal) (x : tensor3 xreal) (L : nat).

Local Abbreviation cs := (combine cos sin).
Local Abbreviation Mc := (map (causal_row L) (seq 0 L)).
Local Abbreviation Fb := (full_batch nh nkv rep fq fk fv scale o cs L Mc).

Hypothesis Hx : x <> [].
Hypothesis HL : Forall (fun xb => length xb = L) x.
Hypothesis HLpos : 1 <= L.
Hypothesis Hcos : length cos = L.
Hypothesis Hsin : length sin = L.
Hypothesis Hnh : 1 <= nh.
Hypothesis Hnkv : 1 <= nkv.
Hypothesis Hrep : 1 <= rep.
Hypothesis Hscale : is_fin scale.
Hypothesis Hfq : forall h c xb r, In c cs -> In xb x -> In r xb -> fin1 (fq h c r).
Hypothesis Hfk : forall h c xb r, In c cs -> In xb x -> In r xb -> fin1 (fk h c r).
Hypothesis Hfv : forall h xb r, In xb x -> In r xb -> fin1 (fv h r).
Hypothesis Hkne : forall h c xb r,
    h < nkv -> In c cs -> In xb x -> In r xb -> fk h c r <> [].

Lemma length_cs : length cs = L.
Proof. rewrite length_combine, Hcos, Hsin. apply Nat.min_id. Qed.

Lemma length_xb xb : In xb x -> length xb = L.
Proof. intros Hin. exact (proj1 (Forall_forall _ _) HL xb Hin). Qed.

Lemma length_rot (f : nat -> vec xreal * vec xreal -> vec xreal -> vec xreal) h xb :
  In xb x -> length (zipWith (f h) cs xb) = L.
Proof.
  intros Hin. rewrite length_zipWith, length_cs, (length_xb xb Hin). apply Nat.min_id.
Qed.

Lemma fin2_rot (f : nat -> vec xreal * vec xreal -> vec xreal -> vec xreal) h xb :
  (forall c r, In c cs -> In r xb -> fin1 (f h c r)) ->
  fin2 (zipWith (f h) cs xb).
Proof.
  intros Hf. apply Forall_forall. intros v Hv.
  apply in_zipWith in Hv. destruct Hv as (c & r & Hc & Hr & ->). now apply Hf.
Qed.

Lemma ncols_rot_k h xb : h < nkv -> In xb x -> 1 <= ncols (zipWith (fk h) cs xb).
Proof.
  intros Hh Hin.
  pose proof length_cs as Lc. pose proof (length_xb xb Hin) as Lx.
  destruct cs as [|c0 cl] eqn:Ecs; [simpl in Lc; lia|].
  destruct xb as [|r0 xl]; [simpl in Lx; lia|].
  unfold ncols. cbn [zipWith hd].
  assert (Hne : fk h c0 r0 <> []).
  { apply (Hkne h c0 (r0 :: xl) r0 Hh); [now left | exact Hin | now left]. }
  destruct (fk h c0 r0); [contradiction | simpl; lia].
Qed.

Lemma in_repeat_each {A} n (l : list A) g : In g (repeat_each n l) -> In g l.
Proof.
  unfold repeat_each. intros Hg. apply in_flat_map in Hg.
  destruct Hg as (y & Hy & Hg). apply repeat_spec in Hg. now subst.
Qed.

Lemma zipWith_ext_in {A B C} (f g : A -> B -> C) xs ys :
  (forall a b, In a xs -> In b ys -> f a b = g a b) ->
  zipWith f xs ys = zipWith g xs ys.
Proof.
  revert ys. induction xs as [|a xs IH]; intros [|b ys] E; simpl; auto.
  rewrite E by (now left). f_equal. apply IH. intros a' b' Ha Hb.
  apply E; now right.
Qed.

(** The heads of a batch entry start with head 0. *)
Lemma rot_heads_cons n (f : nat -> vec xreal * vec xreal -> vec xreal -> vec xreal)
      (xb : mat xreal) :
  1 <= n ->
  rot_heads cs n f xb = zipWith (f 0) cs xb :: map (fun h => zipWith (f h) cs xb) (seq 1 (n - 1)).
Proof.
  intros Hn. unfold rot_heads. destruct n as [|n]; [lia|].
  simpl. now rewrite Nat.sub_0_r.
Qed.

Lemma repeat_each_cons_first {A} (a : A) l :
  exists tl, repeat_each rep (a :: l) = a :: tl.
Proof.
  rewrite repeat_each_cons. destruct rep as [|r]; [lia|].
  simpl. eexists. reflexivity.
Qed.

Lemma x_cons : exists xb0 x', x = xb0 :: x'.
Proof. destruct x as [|xb0 x']; [contradiction | eauto]. Qed.

Lemma ncols_Mc : ncols Mc = L.
Proof.
  unfold ncols. destruct L as [|l]; [lia|].
  cbn [seq map hd]. apply length_causal_row. lia.
Qed.

(** The call over the whole sequence, without cache, under the causal
    mask. *)
Lemma row_full :
  row_call nh nkv rep fq fk fv scale o x (causal_mask L) (cos, sin) None
  = (ok (map Fb x), None).
Proof.
  destruct x_cons as (xb0 & x' & Ex).
  assert (Hin0 : In xb0 x) by (rewrite Ex; now left).
  unfold row_call, row_heads, causal_mask, repeat_axis1.
  cbn [fst snd consult_cache]. rewrite !map_map.
  replace (ncols x) with L
    by (rewrite Ex; unfold ncols; cbn [hd]; symmetry; now apply length_xb).
  f_equal.
  destruct (repeat_each_cons_first (zipWith (fk 0) cs xb0)
              (map (fun h => zipWith (fk h) cs xb0) (seq 1 (nkv - 1)))) as [ks Eks].
  apply (@attend_rows _ _ _ x
           (rot_heads cs nh fq)
           (fun xb => repeat_each rep (rot_heads cs nkv fk xb))
           (fun xb => repeat_each rep (val_heads nkv fv xb))
           L scale Mc o xb0 x'
           (zipWith (fq 0) cs xb0) (map (fun h => zipWith (fq h) cs xb0) (seq 1 (nh - 1)))
           (zipWith (fk 0) cs xb0) ks Ex).
  - now apply rot_heads_cons.
  - rewrite rot_heads_cons by exact Hnkv. exact Eks.
  - rewrite length_rot by exact Hin0. now rewrite length_map, length_seq.
  - rewrite length_rot by exact Hin0. exact HLpos.
  - rewrite length_rot by exact Hin0. symmetry. apply ncols_Mc.
  - apply ncols_rot_k; [lia | exact Hin0].
Qed.

Lemma nth_cs t : t < L -> nth t cs ([], []) = (nth t cos [], nth t sin []).
Proof. intros Ht. apply combine_nth. now rewrite Hcos, Hsin. Qed.

Lemma rot_step (f : nat -> vec xreal * vec xreal -> vec xreal -> vec xreal) h xb t :
  In xb x -> t < L ->
  firstn (S t) (zipWith (f h) cs xb)
  = firstn t (zipWith (f h) cs xb) ++ [f h (nth t cos [], nth t sin []) (nth t xb [])].
Proof.
  intros Hin Ht.
  rewrite (@firstn_S_nth _ (zipWith (f h) cs xb) t [])
    by (rewrite length_rot by exact Hin; exact Ht).
  rewrite (@nth_zipWith_lt _ _ _ (f h) cs xb t [] ([], []) [])
    by (rewrite ?length_cs, ?(length_xb xb Hin); exact Ht).
  now rewrite nth_cs.
Qed.

Lemma val_step h xb t :
  In xb x -> t < L ->
  firstn (S t) (map (fv h) xb) = firstn t (map (fv h) xb) ++ [fv h (nth t xb [])].
Proof.
  intros Hin Ht.
  rewrite (@firstn_S_nth _ (map (fv h) xb) t [])
    by (rewrite length_map, (length_xb xb Hin); exact Ht).
  now rewrite (@nth_map_lt _ _ (fv h) xb t [] [])
    by (rewrite (length_xb xb Hin); exact Ht).
Qed.

(** The keys and values the call for position [t] obtains from the cache of
    the first [t] positions. *)
Lemma consult_step t :
  t < L ->
  consult_cache (Some (cache_at nkv fk fv cs x t))
    (map (fun xb => map (fun h => [fk h (nth t cos [], nth t sin []) (nth t xb [])])
                        (seq 0 nkv)) x)
    (map (fun xb => map (fun h => [fv h (nth t xb [])]) (seq 0 nkv)) x)
  = (map (fun xb => map (firstn (S t)) (rot_heads cs nkv fk xb)) x,
     map (fun xb => map (firstn (S t)) (val_heads nkv fv xb)) x,
     Some (cache_at nkv fk fv cs x (S t))).
Proof.
  intros Ht.
  assert (EK : forall t', t' = t ->
             map (fun xb => map (fun h => firstn t' (zipWith (fk h) cs xb)
                                          ++ [fk h (nth t cos [], nth t sin []) (nth t xb [])])
                                (seq 0 nkv)) x
             = map (fun xb => map (firstn (S t)) (rot_heads cs nkv fk xb)) x).
  { intros t' ->. apply map_ext_in. intros xb Hin. unfold rot_heads.
    rewrite map_map. apply map_ext. intros h. symmetry. now apply rot_step. }
  assert (EV : forall t', t' = t ->
             map (fun xb => map (fun h => firstn t' (map (fv h) xb) ++ [fv h (nth t xb [])])
                                (seq 0 nkv)) x
             = map (fun xb => map (firstn (S t)) (val_heads nkv fv xb)) x).
  { intros t' ->. apply map_ext_in. intros xb Hin. unfold val_heads.
    rewrite map_map. apply map_ext. intros h. symmetry. now apply val_step. }
  unfold consult_cache, KVCache_call, cache_at. destruct t as [|t'].
  - cbn [history]. rewrite <- (EK 0 eq_refl), <- (EV 0 eq_refl). reflexivity.
  - cbn [history]. unfold concat_axis2, rot_heads, val_heads.
    rewrite !zipWith_same.
    assert (E1 : map (fun xb => zipWith (@app (list xreal))
                          (map (firstn (S t')) (map (fun h => zipWith (fk h) cs xb) (seq 0 nkv)))
                          (map (fun h => [fk h (nth (S t') cos [], nth (S t') sin [])
                                             (nth (S t') xb [])]) (seq 0 nkv))) x
                 = map (fun xb => map (firstn (S (S t'))) (rot_heads cs nkv fk xb)) x).
    { rewrite <- (EK (S t') eq_refl). apply map_ext. intros xb.
      now rewrite map_map, zipWith_same. }
    assert (E2 : map (fun xb => zipWith (@app (list xreal))
                          (map (firstn (S t')) (map (fun h => map (fv h) xb) (seq 0 nkv)))
                          (map (fun h => [fv h (nth (S t') xb [])]) (seq 0 nkv))) x
                 = map (fun xb => map (firstn (S (S t'))) (val_heads nkv fv xb)) x).
    { rewrite <- (EV (S t') eq_refl). apply map_ext. intros xb.
      now rewrite map_map, zipWith_same. }
    unfold rot_heads, val_heads in E1, E2. rewrite E1, E2. reflexivity.
Qed.

(** The output of the call for position [t] alone, per batch entry, is row
    [t] of the output of the call over the whole sequence. *)
Lemma step_rows xb t :
  In xb x -> t < L ->
  attend_batch 1 scale [repeat (Fin 0) (S t)] o
    (map (fun h => [fq h (nth t cos [], nth t sin []) (nth t xb [])]) (seq 0 nh))
    (repeat_each rep (map (firstn (S t)) (rot_heads cs nkv fk xb)))
    (repeat_each rep (map (firstn (S t)) (val_heads nkv fv xb)))
  = [nth t (Fb xb) []].
Proof.
  intros Hin Ht. rewrite attend_batch_1. f_equal.
  unfold full_batch.
  rewrite (@nth_attend_batch _ _ 1) by lia.
  rewrite (@nth_attend_batch _ _ L) by exact Ht.
  f_equal. f_equal.
  unfold rot_heads, val_heads. rewrite !map_map, !repeat_each_map.
  rewrite !zipWith3_maps, !map_zipWith.
  apply zipWith_ext_in. intros h g Hh Hg.
  apply in_repeat_each, in_seq in Hg.
  symmetry.
  rewrite (@head_prefix scale (zipWith (fq h) cs xb) (zipWith (fk g) cs xb)
             (map (fv g) xb) L t Hscale).
  - rewrite (@nth_zipWith_lt _ _ _ (fq h) cs xb t [] ([], []) [])
      by (rewrite ?length_cs, ?(length_xb xb Hin); exact Ht).
    now rewrite nth_cs.
  - apply fin2_rot. intros c r Hc Hr. now apply (Hfq h c xb r).
  - apply fin2_rot. intros c r Hc Hr. now apply (Hfk g c xb r).
  - apply Forall_forall. intros v Hv. apply in_map_iff in Hv.
    destruct Hv as (r & <- & Hr). now apply (Hfv g xb r).
  - now apply length_rot.
  - now apply length_rot.
  - rewrite length_map. now apply length_xb.
  - exact Ht.
  - apply ncols_rot_k; [lia | exact Hin].
Qed.

(** The call for position [t] alone, with the cache of the positions
    before it. *)
Lemma row_step t :
  t < L ->
  row_call nh nkv rep fq fk fv scale o (step_input t x) (step_mask t)
           (step_rope t (cos, sin)) (Some (cache_at nkv fk fv cs x t))
  = (ok (map (fun xb => [nth t (Fb xb) []]) x),
     Some (cache_at nkv fk fv cs x (S t))).
Proof.
  intros Ht. destruct x_cons as (xb0 & x' & Ex).
  assert (Hin0 : In xb0 x) by (rewrite Ex; now left).
  unfold row_call, row_heads, step_rope, step_input, step_mask.
  cbn [fst snd combine]. rewrite !map_map. cbn [zipWith map].
  rewrite consult_step by exact Ht.
  unfold repeat_axis1. rewrite !map_map.
  replace (ncols (map (fun xb => [nth t xb []]) x)) with 1
    by (rewrite Ex; reflexivity).
  destruct (repeat_each_cons_first (firstn (S t) (zipWith (fk 0) cs xb0))
              (map (firstn (S t))
                   (map (fun h => zipWith (fk h) cs xb0) (seq 1 (nkv - 1)))))
    as [ks Eks].
  rewrite (@attend_rows _ _ _ x
             (fun xb => map (fun h => [fq h (nth t cos [], nth t sin []) (nth t xb [])])
                            (seq 0 nh))
             (fun xb => repeat_each rep (map (firstn (S t)) (rot_heads cs nkv fk xb)))
             (fun xb => repeat_each rep (map (firstn (S t)) (val_heads nkv fv xb)))
             1 scale [repeat (Fin 0) (S t)] o xb0 x'
             [fq 0 (nth t cos [], nth t sin []) (nth t xb0 [])]
             (map (fun h => [fq h (nth t cos [], nth t sin []) (nth t xb0 [])])
                  (seq 1 (nh - 1)))
             (firstn (S t) (zipWith (fk 0) cs xb0)) ks Ex).
  - f_equal. f_equal. apply map_ext_in. intros xb Hin. now apply step_rows.
  - destruct nh as [|n]; [lia|]. simpl. now rewrite Nat.sub_0_r.
  - rewrite rot_heads_cons by exact Hnkv. exact Eks.
  - reflexivity.
  - simpl. lia.
  - rewrite length_firstn, length_rot by exact Hin0.
    unfold ncols. cbn [hd]. rewrite repeat_length. lia.
  - rewrite ncols_firstn. apply ncols_rot_k; [lia | exact Hin0].
Qed.




End RowDecode.

(** ** The attention layers are of row form *)

Section RowForms.
Context {T : Type} `{Scalar T}.

Lemma rot_row_form (rd : option nat) (n d : nat) (cos sin : mat T)
      (g : vec T -> vec T) (norm : vec T -> vec T) (lin : mat T) (xb : mat T) :
  map (rope_seq rd cos sin)
      (map (map norm) (transpose n [] (map (chunks d n) (map g (matmul xb lin)))))
  = map (fun h =>
           zipWith (fun c r =>
                      let v := norm (nth h (chunks d n (g (lin_row lin r))) []) in
                      rotate_vec (match rd with Some k => k | None => length v end)
                                 (fst c) (snd c) v)
                   (combine cos sin) xb)
        (seq 0 n).
Proof.
  unfold transpose. rewrite !map_map. apply map_ext. intros h.
  unfold rope_seq. rewrite matmul_rows, !map_map.
  now rewrite zipWith_map_r.
Qed.

Lemma val_row_form (n d : nat) (g : vec T -> vec T) (lin : mat T) (xb : mat T) :
  transpose n [] (map (chunks d n) (map g (matmul xb lin)))
  = map (fun h => map (fun r => nth h (chunks d n (g (lin_row lin r))) []) xb) (seq 0 n).
Proof.
  unfold transpose. apply map_ext. intros h.
  now rewrite matmul_rows, !map_map.
Qed.

Lemma phi3_project_row_form (a : Phi3.Attention) (x : tensor3 T) (rope : mat T * mat T) :
  Phi3.project_heads a x rope
  = row_heads (Z.to_nat (Phi3.n_heads a)) (Z.to_nat (Phi3.n_kv_heads a))
              (phi3_fq a) (phi3_fk a) (phi3_fv a)
              (combine (fst rope) (snd rope)) x.
Proof.
  unfold Phi3.project_heads, Phi3.qkv_split, apply_rope, transpose_0213, split_last,
    Linear_call, row_heads.
  rewrite !map_map. f_equal; [f_equal|]; apply map_ext; intros xb.
  - rewrite <- (map_id (transpose _ _ _)) at 1.
    rewrite <- (map_ext (map (fun v : vec T => v)) (fun m => m)) by (intros; apply map_id).
    rewrite rot_row_form. reflexivity.
  - rewrite <- (map_id (transpose _ _ _)) at 1.
    rewrite <- (map_ext (map (fun v : vec T => v)) (fun m => m)) by (intros; apply map_id).
    rewrite rot_row_form. reflexivity.
  - rewrite val_row_form. reflexivity.
Qed.

Lemma qwen3_project_row_form (a : Qwen3.Attention) (x : tensor3 T) (rope : mat T * mat T) :
  Qwen3.project_heads a x rope
  = row_heads (Z.to_nat (Qwen3.num_attention_heads a)) (Z.to_nat (Qwen3.num_kv_heads a))
              (qwen3_fq a) (qwen3_fk a) (qwen3_fv a)
              (combine (fst rope) (snd rope)) x.
Proof.
  unfold Qwen3.project_heads, Qwen3.qkv_project, apply_rope, RMSNorm_call4,
    transpose_0213, split_last, Linear_call, row_heads.
  rewrite !map_map. f_equal; [f_equal|]; apply map_ext; intros xb.
  - rewrite <- (map_id (matmul xb _)) at 1.
    rewrite (rot_row_form None _ _ _ _ (fun v => v)). reflexivity.
  - rewrite <- (map_id (matmul xb _)) at 1.
    rewrite (rot_row_form None _ _ _ _ (fun v => v)). reflexivity.
  - rewrite <- (map_id (matmul xb _)) at 1.
    rewrite (val_row_form _ _ (fun v => v)). reflexivity.
Qed.

Lemma phi3_repeat_kv_rep (a : Phi3.Attention) (k v : tensor4 T) :
  phi3_heads_ok a ->
  Phi3.repeat_kv a k v = ok (repeat_axis1 (phi3_rep a) k, repeat_axis1 (phi3_rep a) v).
Proof.
  intros Hok. unfold phi3_rep.
  destruct (Z.gtb_spec (Phi3.n_heads a) (Phi3.n_kv_heads a)) as [Hgt|Hle].
  - apply phi3_repeat_kv_gqa. destruct Hok; lia.
  - unfold Phi3.repeat_kv.
    replace (Phi3.n_heads a >? Phi3.n_kv_heads a)%Z with false
      by (symmetry; rewrite Z.gtb_ltb; apply Z.ltb_ge; lia).
    now rewrite !repeat_axis1_1.
Qed.

Lemma qwen3_repeat_kv_rep (a : Qwen3.Attention) (k v : tensor4 T) :
  Qwen3.repeat_kv a k v = (repeat_axis1 (qwen3_rep a) k, repeat_axis1 (qwen3_rep a) v).
Proof.
  unfold Qwen3.repeat_kv, qwen3_rep.
  destruct (Qwen3.n_repeat a >? 1)%Z; [reflexivity | now rewrite !repeat_axis1_1].
Qed.

(** [Attention.__call__] of phi3 is of row form. *)
Lemma phi3_row_form (a : Phi3.Attention) :
  phi3_heads_ok a ->
  forall x mask rope cache,
    Phi3.Attention_call a x mask rope cache
    = row_call (Z.to_nat (Phi3.n_heads a)) (Z.to_nat (Phi3.n_kv_heads a)) (phi3_rep a)
               (phi3_fq a) (phi3_fk a) (phi3_fv a) (Phi3.scale a) (Phi3.o_proj a)
               x mask rope cache.
Proof.
  intros Hok x mask rope cache. unfold Phi3.Attention_call, row_call.
  rewrite phi3_project_row_form.
  destruct (row_heads _ _ _ _ _ _ _) as [[q k] v].
  destruct (consult_cache cache k v) as [[k' v'] c'].
  now rewrite phi3_repeat_kv_rep.
Qed.

(** [Attention.__call__] of qwen3 is of row form. *)
Lemma qwen3_row_form (a : Qwen3.Attention) :
  forall x mask rope cache,
    Qwen3.Attention_call a x mask rope cache
    = row_call (Z.to_nat (Qwen3.num_attention_heads a)) (Z.to_nat (Qwen3.num_kv_heads a))
               (qwen3_rep a)
               (qwen3_fq a) (qwen3_fk a) (qwen3_fv a) (Qwen3.scale a) (Qwen3.o_proj a)
               x mask rope cache.
Proof.
  intros x mask rope cache. unfold Qwen3.Attention_call, row_call.
  rewrite qwen3_project_row_form.
  destruct (row_heads _ _ _ _ _ _ _) as [[q k] v].
  destruct (consult_cache cache k v) as [[k' v'] c'].
  now rewrite qwen3_repeat_kv_rep.
Qed.

End RowForms.

(** ** Finite and non-empty head vectors *)

Section HeadVectors.
Local Open Scope nat_scope.

Lemma fin1_sub (l l' : vec xreal) :
  (forall e, In e l' -> In e l) -> fin1 l -> fin1 l'.
Proof.
  intros Hsub Hl. apply Forall_forall. intros e He.
  exact (proj1 (Forall_forall _ _) Hl e (Hsub e He)).
Qed.

Lemma in_firstn {A} n (l : list A) e : In e (firstn n l) -> In e l.
Proof.
  intros He. rewrite <- (firstn_skipn n l). apply in_or_app. now left.
Qed.

Lemma in_skipn {A} n (l : list A) e : In e (skipn n l) -> In e l.
Proof.
  intros He. rewrite <- (firstn_skipn n l). apply in_or_app. now right.
Qed.

Lemma fin1_firstn n (l : vec xreal) : fin1 l -> fin1 (firstn n l).
Proof. apply fin1_sub. apply in_firstn. Qed.

Lemma fin1_skipn n (l : vec xreal) : fin1 l -> fin1 (skipn n l).
Proof. apply fin1_sub. apply in_skipn. Qed.

Lemma fin2_chunks d n : forall (l : vec xreal), fin1 l -> fin2 (chunks d n l).
Proof.
  induction n as [|n IH]; intros l Hl; simpl; constructor.
  - now apply fin1_firstn.
  - apply IH. now apply fin1_skipn.
Qed.

Lemma fin1_chunk d n h (l : vec xreal) : fin1 l -> fin1 (nth h (chunks d n l) []).
Proof. intros Hl. apply fin1_nth. now apply fin2_chunks. Qed.

Lemma fin1_rotate rot (c s v : vec xreal) :
  fin1 c -> fin1 s -> fin1 v -> fin1 (rotate_vec rot c s v).
Proof.
  intros Hc Hs Hv. unfold rotate_vec, vmul.
  repeat apply fin1_app.
  - apply fin1_zipWith; [exact is_fin_xsub | |];
      (apply fin1_zipWith; [exact is_fin_xmul | | assumption]).
    + now apply fin1_firstn, fin1_firstn.
    + now apply fin1_skipn, fin1_firstn.
  - apply fin1_zipWith; [exact is_fin_xadd | |];
      (apply fin1_zipWith; [exact is_fin_xmul | | assumption]).
    + now apply fin1_skipn, fin1_firstn.
    + now apply fin1_firstn, fin1_firstn.
  - now apply fin1_skipn.
Qed.

Lemma length_rotate rot (c s v : vec xreal) :
  rot <= length v -> length c = rot / 2 -> length s = rot / 2 ->
  length (rotate_vec rot c s v) = rot / 2 + rot / 2 + (length v - rot).
Proof.
  intros Hr Hc Hs. unfold rotate_vec, vmul.
  pose proof (Nat.div_mod_eq rot 2) as Hdm.
  pose proof (Nat.mod_upper_bound rot 2) as Hm.
  rewrite !length_app, !length_zipWith, !length_firstn, !length_skipn,
    !length_firstn, Hc, Hs.
  lia.
Qed.

Lemma rotate_nonempty rot (c s v : vec xreal) :
  2 <= length v -> rot <= length v -> length c = rot / 2 -> length s = rot / 2 ->
  rotate_vec rot c s v <> [].
Proof.
  intros Hv Hr Hc Hs E.
  pose proof (length_rotate rot c s v Hr Hc Hs) as Hl. rewrite E in Hl.
  pose proof (Nat.div_mod_eq rot 2) as Hdm.
  assert (Hm : rot mod 2 < 2) by (apply Nat.mod_upper_bound; lia).
  cbn [length] in Hl. lia.
Qed.

Lemma length_nth_chunks {A} d n : forall (l : list A) h,
  length l = n * d -> h < n -> length (nth h (chunks d n l) []) = d.
Proof.
  induction n as [|n IH]; intros l h Hl Hh; [lia|].
  cbn [chunks]. destruct h as [|h]; cbn [nth].
  - rewrite length_firstn. simpl in Hl. lia.
  - apply IH; [|lia]. rewrite length_skipn. simpl in Hl. lia.
Qed.

Lemma length_lin_row_kernel width (w : mat xreal) r :
  kernel_ok width w -> length (lin_row w r) = width.
Proof.
  intros (Hne & _ & Hw). rewrite length_lin_row. unfold ncols.
  destruct w as [|r0 w]; [contradiction|]. cbn [hd]. now inversion Hw.
Qed.
End HeadVectors.

Section NormFinite.
Local Open Scope R_scope.

Lemma rsum_squares_nonneg (l : list R) : 0 <= rsum (map (fun u => u * u) l).
Proof.
  apply rsum_nonneg. apply Forall_map. apply Forall_forall. intros u _. nra.
Qed.

Lemma squares_map_Fin (l : list R) :
  map (fun e => xmul e e) (map Fin l) = map Fin (map (fun u => u * u) l).
Proof. rewrite !map_map. reflexivity. Qed.

Lemma fin1_rms_row d (n : RMSNorm xreal) (r : vec xreal) :
  norm_ok d n -> fin1 r -> fin1 (rms_row n r).
Proof.
  intros (_ & Hsc & e & He & Hpos) Hr. unfold rms_row.
  destruct r as [|r0 r]; [constructor|].
  set (l := r0 :: r) in *.
  assert (Hmul : is_fin (srsqrt (sadd (sdiv (tsum (map (fun e0 => smul e0 e0) l))
                                            (of_Z (Z.of_nat (length l))))
                                      (epsilon n)))).
  { rewrite He, (fin_map_to_R Hr).
    change (@smul xreal _) with xmul. rewrite squares_map_Fin, tsum_map_Fin.
    set (S := rsum (map (fun u => u * u) (map to_R l))).
    set (N := IZR (Z.of_nat (length (map Fin (map to_R l))))).
    assert (HN : 0 < N).
    { apply IZR_lt. rewrite !length_map. unfold l. simpl length. lia. }
    assert (HS : 0 <= S) by apply rsum_squares_nonneg.
    assert (Hv : 0 < S / N + e).
    { apply Rplus_le_lt_0_compat; [|exact Hpos].
      apply Rmult_le_pos; [exact HS|]. left. now apply Rinv_0_lt_compat. }
    change (is_fin (xrsqrt (xadd (xdiv (Fin S) (Fin N)) (Fin e)))).
    unfold xdiv. destruct (Req_dec_T N 0) as [E|_]; [lra|].
    cbn [xadd xrsqrt].
    destruct (Rlt_dec 0 (S / N + e)) as [_|Hn]; [exact I | contradiction]. }
  apply fin1_zipWith; [|exact Hr|exact Hsc].
  intros a b Ha Hb. apply is_fin_xmul; [exact Ha|]. now apply is_fin_xmul.
Qed.

Lemma length_rms_row (n : RMSNorm xreal) (r : vec xreal) :
  length (rms_row n r) = Nat.min (length r) (length (rms_scale n)).
Proof. unfold rms_row. apply length_zipWith. Qed.
End NormFinite.

(** ** Prefill against token-by-token decoding, for the two layers *)

Section PrefillDecode.
Local Open Scope nat_scope.

Lemma input_row_fin (x : tensor3 xreal) L xb r :
  input_ok x L -> In xb x -> In r xb -> fin1 r.
Proof.
  intros (_ & _ & _ & Hf) Hxb Hr.
  pose proof (proj1 (Forall_forall _ _) Hf xb Hxb) as H2.
  exact (proj1 (Forall_forall _ _) H2 r Hr).
Qed.

Lemma rope_row (half L : nat) (cos sin : mat xreal) c :
  rope_ok half L (cos, sin) -> In c (combine cos sin) ->
  fin1 (fst c) /\ fin1 (snd c) /\ length (fst c) = half /\ length (snd c) = half.
Proof.
  intros (_ & _ & Fc & Fs & Lc & Ls) Hc. destruct c as [c s].
  pose proof (in_combine_l _ _ _ _ Hc) as Hl.
  pose proof (in_combine_r _ _ _ _ Hc) as Hr.
  cbn [fst snd] in *. repeat split.
  - exact (proj1 (Forall_forall _ _) Fc c Hl).
  - exact (proj1 (Forall_forall _ _) Fs s Hr).
  - exact (proj1 (Forall_forall _ _) Lc c Hl).
  - exact (proj1 (Forall_forall _ _) Ls s Hr).
Qed.

Lemma phi3_k_row_length (a : Phi3.Attention) r :
  phi3_layer_ok a ->
  length (phi3_k_row a r)
  = Z.to_nat (Phi3.n_kv_heads a) * Z.to_nat (Phi3.head_dim a).
Proof.
  intros (Hh & Hkv & Hd & _ & _ & Hk).
  unfold phi3_k_row, slice.
  rewrite length_skipn, length_firstn, (length_lin_row_kernel _ _ r Hk).
  rewrite <- Z2Nat.inj_mul by lia.
  assert (0 <= Phi3.n_heads a * Phi3.head_dim a)%Z by nia.
  assert (0 <= Phi3.n_kv_heads a * Phi3.head_dim a)%Z by nia.
  lia.
Qed.


Lemma qwen3_normed_fin (n : RMSNorm xreal) heads (a : Qwen3.Attention)
      (l : Linear xreal) d h r :
  norm_ok d n -> fin2 (kernel l) -> fin1 r -> fin1 (qwen3_normed n heads a l h r).
Proof.
  intros Hn Hl Hr. unfold qwen3_normed.
  apply (fin1_rms_row d); [exact Hn|].
  now apply fin1_chunk, fin1_lin_row.
Qed.

Lemma qwen3_key_length (a : Qwen3.Attention) h r :
  qwen3_layer_ok a -> h < Z.to_nat (Qwen3.num_kv_heads a) ->
  length (qwen3_normed (Qwen3.k_norm a) (Z.to_nat (Qwen3.num_kv_heads a)) a
                       (Qwen3.k_proj a) h r)
  = Z.to_nat (Qwen3.head_dim a).
Proof.
  intros (Hh & Hkv & Hd & _ & _ & Hk & _ & _ & (Lsc & _)) Hlt.
  unfold qwen3_normed. rewrite length_rms_row, Lsc.
  rewrite length_nth_chunks; [apply Nat.min_id | | exact Hlt].
  rewrite (length_lin_row_kernel _ _ r Hk). apply Z2Nat.inj_mul; lia.
Qed.


End PrefillDecode.


(** ** Construction of the layer stack *)

Section ModelConstruction.
Context {T : Type} `{Scalar T}.
Local Open Scope Z_scope.

Lemma init_list_spec {A} (P : A -> Prop) (mk : Init T A) :
  (forall r a r', mk r = inr (a, r') -> P a) ->
  forall n r l r',
    init_list n mk r = inr (l, r') -> length l = n /\ Forall P l.
Proof.
  intros Hmk. induction n as [|n IH]; intros r l r' E.
  - cbn in E. inversion E; subst. split; [reflexivity | constructor].
  - cbn [init_list] in E. unfold ibind in E.
    destruct (mk r) as [e|[a r1]] eqn:Ea; [discriminate|].
    destruct (init_list n mk r1) as [e|[l1 r2]] eqn:El; [discriminate|].
    cbn in E. inversion E; subst.
    destruct (IH r1 l1 r' El) as [Hlen Hall].
    split; [cbn; now rewrite Hlen | constructor; [now apply (Hmk r a r1) | exact Hall]].
Qed.

Lemma phi3_attention_init_fields (config : Config.t T) (r r' : Rngs T) (a : Phi3.Attention) :
  Phi3.Attention_init config r = inr (a, r') ->
  Phi3.n_heads a = Config.num_attention_heads config
  /\ Phi3.n_kv_heads a = Config.num_key_value_heads config
  /\ Phi3.head_dim a = Config.hidden_size config / Config.num_attention_heads config
  /\ Phi3.head_dim a <> 0.
Proof.
  unfold Phi3.Attention_init, ibind, ilift, floordiv.
  destruct (Config.num_attention_heads config =? 0); [discriminate|].
  cbn -[Z.mul Z.add Z.div].
  destruct (Z.eqb_spec (Config.hidden_size config / Config.num_attention_heads config) 0)
    as [E0|N0]; [discriminate|].
  cbn -[Z.mul Z.add Z.div].
  destruct (nnx_Linear _ _ r) as [e|[l1 r1]]; [discriminate|].
  destruct (nnx_Linear _ _ r1) as [e|[l2 r2]]; [discriminate|].
  destruct (to_int _) as [e|rd]; [discriminate|].
  cbn. intros E. inversion E; subst. cbn. repeat split. exact N0.
Qed.

Lemma qwen3_attention_init_fields (config : Config.t T) (r r' : Rngs T) (a : Qwen3.Attention) :
  Qwen3.Attention_init config r = inr (a, r') ->
  Qwen3.num_attention_heads a = Config.num_attention_heads config
  /\ Qwen3.num_kv_heads a = Config.num_key_value_heads config
  /\ Qwen3.head_dim a = Config.head_dim config
  /\ Qwen3.n_repeat a
     = Config.num_attention_heads config / Config.num_key_value_heads config
  /\ Config.num_key_value_heads config <> 0.
Proof.
  unfold Qwen3.Attention_init, ibind, ilift, floordiv.
  destruct (Config.head_dim config =? 0); [discriminate|].
  cbn -[Z.mul Z.add Z.div].
  destruct (Z.eqb_spec (Config.num_key_value_heads config) 0) as [E0|N0]; [discriminate|].
  cbn -[Z.mul Z.add Z.div].
  repeat (match goal with
          | |- context [match ?m ?s with inl _ => _ | inr _ => _ end] =>
              destruct (m s) as [?|[? ?]]; [discriminate|]
          end; cbn -[Z.mul Z.add Z.div]).
  intros E. inversion E; subst. cbn. repeat split. exact N0.
Qed.

Lemma phi3_block_init_attn (config : Config.t T) (r r' : Rngs T) (b : Phi3.TransformerBlock) :
  Phi3.TransformerBlock_init config r = inr (b, r') ->
  exists r0 r1, Phi3.Attention_init config r0 = inr (Phi3.self_attn b, r1).
Proof.
  unfold Phi3.TransformerBlock_init, ibind.
  destruct (Phi3.Attention_init config r) as [e|[a r1]] eqn:Ea; [discriminate|].
  destruct (Phi3.MLP_init config r1) as [e|[m r2]]; [discriminate|].
  destruct (nnx_RMSNorm _ _ r2) as [e|[n1 r3]]; [discriminate|].
  destruct (nnx_RMSNorm _ _ r3) as [e|[n2 r4]]; [discriminate|].
  cbn. intros E. inversion E; subst. cbn. now exists r, r1.
Qed.

Lemma qwen3_block_init_attn (config : Config.t T) (r r' : Rngs T) (b : Qwen3.TransformerBlock) :
  Qwen3.TransformerBlock_init config r = inr (b, r') ->
  exists r0 r1, Qwen3.Attention_init config r0 = inr (Qwen3.self_attn b, r1).
Proof.
  unfold Qwen3.TransformerBlock_init, ibind.
  destruct (Qwen3.Attention_init config r) as [e|[a r1]] eqn:Ea; [discriminate|].
  destruct (Qwen3.MLP_init config r1) as [e|[m r2]]; [discriminate|].
  destruct (nnx_RMSNorm _ _ r2) as [e|[n1 r3]]; [discriminate|].
  destruct (nnx_RMSNorm _ _ r3) as [e|[n2 r4]]; [discriminate|].
  cbn. intros E. inversion E; subst. cbn. now exists r, r1.
Qed.

Lemma phi3_model_init_layers (config : Config.t T) (r r' : Rngs T) (m : Phi3.Phi3Model) :
  Phi3.Phi3Model_init config r = inr (m, r') ->
  length (Phi3.layers m) = Z.to_nat (Config.num_hidden_layers config)
  /\ Forall (fun b =>
               Phi3.n_heads (Phi3.self_attn b) = Config.num_attention_heads config
               /\ Phi3.n_kv_heads (Phi3.self_attn b) = Config.num_key_value_heads config
               /\ Phi3.head_dim (Phi3.self_attn b)
                  = Config.hidden_size config / Config.num_attention_heads config)
            (Phi3.layers m).
Proof.
  unfold Phi3.Phi3Model_init, ibind.
  destruct (init_list _ _ r) as [e|[ls r1]] eqn:El; [discriminate|].
  destruct (nnx_Embed _ _ r1) as [e|[em r2]]; [discriminate|].
  destruct (nnx_RMSNorm _ _ r2) as [e|[n r3]]; [discriminate|].
  cbn. intros E. inversion E; subst. cbn [Phi3.layers].
  apply (init_list_spec _ (Phi3.TransformerBlock_init config)) with (r := r) (r' := r1);
    [|exact El].
  intros r0 b r0' Eb.
  destruct (phi3_block_init_attn config r0 r0' b Eb) as (ra & rb & Ea).
  destruct (phi3_attention_init_fields config ra rb _ Ea) as (H1 & H2 & H3 & _).
  now repeat split.
Qed.

Lemma qwen3_model_init_layers (config : Config.t T) (r r' : Rngs T) (m : Qwen3.Qwen3Model) :
  Qwen3.Qwen3Model_init config r = inr (m, r') ->
  length (Qwen3.layers m) = Z.to_nat (Config.num_hidden_layers config)
  /\ Forall (fun b =>
               Qwen3.num_attention_heads (Qwen3.self_attn b)
               = Config.num_attention_heads config
               /\ Qwen3.num_kv_heads (Qwen3.self_attn b)
                  = Config.num_key_value_heads config
               /\ Qwen3.head_dim (Qwen3.self_attn b) = Config.head_dim config
               /\ Qwen3.n_repeat (Qwen3.self_attn b)
                  = Config.num_attention_heads config
                    / Config.num_key_value_heads config)
            (Qwen3.layers m).
Proof.
  unfold Qwen3.Qwen3Model_init, ibind.
  destruct (init_list _ _ r) as [e|[ls r1]] eqn:El; [discriminate|].
  destruct (nnx_Embed _ _ r1) as [e|[em r2]]; [discriminate|].
  destruct (nnx_RMSNorm _ _ r2) as [e|[n r3]]; [discriminate|].
  cbn. intros E. inversion E; subst. cbn [Qwen3.layers].
  apply (init_list_spec _ (Qwen3.TransformerBlock_init config)) with (r := r) (r' := r1);
    [|exact El].
  intros r0 b r0' Eb.
  destruct (qwen3_block_init_attn config r0 r0' b Eb) as (ra & rb & Ea).
  destruct (qwen3_attention_init_fields config ra rb _ Ea) as (H1 & H2 & H3 & H4 & _).
  now repeat split.
Qed.

(** X1.  A model that the constructor returns has exactly
    [max(0, num_hidden_layers)] blocks (a negative count gives an empty
    stack, as [range] does), and every block's attention layer carries the
    head counts of the one configuration, with the head dimension (phi3) or
    the replication factor (qwen3) derived from it by floor division. *)
Theorem model_init_builds_configured_layers (config : Config.t T) (r : Rngs T) :
  (forall m r',
      Phi3.Phi3Model_init config r = inr (m, r') ->
      length (Phi3.layers m) = Z.to_nat (Config.num_hidden_layers config)
      /\ Forall (fun b =>
                   Phi3.n_heads (Phi3.self_attn b) = Config.num_attention_heads config
                   /\ Phi3.n_kv_heads (Phi3.self_attn b) = Config.num_key_value_heads config
                   /\ Phi3.head_dim (Phi3.self_attn b)
                      = Config.hidden_size config / Config.num_attention_heads config)
                (Phi3.layers m))
  /\ (forall m r',
         Qwen3.Qwen3Model_init config r = inr (m, r') ->
         length (Qwen3.layers m) = Z.to_nat (Config.num_hidden_layers config)
         /\ Forall (fun b =>
                      Qwen3.num_attention_heads (Qwen3.self_attn b)
                      = Config.num_attention_heads config
                      /\ Qwen3.num_kv_heads (Qwen3.self_attn b)
                         = Config.num_key_value_heads config
                      /\ Qwen3.head_dim (Qwen3.self_attn b) = Config.head_dim config
                      /\ Qwen3.n_repeat (Qwen3.self_attn b)
                         = Config.num_attention_heads config
                           / Config.num_key_value_heads config)
                   (Qwen3.layers m)).
Proof.
  split; intros m r'; [apply phi3_model_init_layers | apply qwen3_model_init_layers].
Qed.
End ModelConstruction.

Lemma model_init_builds_configured_layers_witness :
  (exists m r',
      Phi3.Phi3Model_init Ex.cfg_uneven Ex.rngs0 = inr (m, r')
      /\ length (Phi3.layers m) = 1%nat)
  /\ (exists m r',
         Qwen3.Qwen3Model_init Ex.cfg_uneven Ex.rngs0 = inr (m, r')
         /\ length (Qwen3.layers m) = 1%nat).
Proof.
  split.
  - destruct (Phi3.Phi3Model_init Ex.cfg_uneven Ex.rngs0) as [e|[m r']] eqn:E;
      [cbn in E; discriminate|].
    exists m, r'. split; [reflexivity|].
    exact (proj1 (proj1 (model_init_builds_configured_layers Ex.cfg_uneven Ex.rngs0)
                    m r' E)).
  - destruct (Qwen3.Qwen3Model_init Ex.cfg_uneven Ex.rngs0) as [e|[m r']] eqn:E;
      [cbn in E; discriminate|].
    exists m, r'. split; [reflexivity|].
    exact (proj1 (proj2 (model_init_builds_configured_layers Ex.cfg_uneven Ex.rngs0)
                    m r' E)).
Defined.

(** ** Exceptions of a forward call *)

Section ForwardErrors.
Context {T : Type} `{Scalar T}.

Lemma attend_raises (L : nat) (q k v : tensor4 T) (scale : T) (mask : tensor4 T)
      (o : Linear T) (e : exn) :
  attend L q k v scale mask o = inl e -> e = ShapeError.
Proof.
  unfold attend, attn_weights, attn_scores, add_mask.
  destruct (broadcastable _ _); cbn; intros E; [discriminate | now inversion E].
Qed.

Lemma phi3_attention_raises (a : Phi3.Attention) x mask rope cache e :
  fst (Phi3.Attention_call a x mask rope cache) = inl e ->
  e = ShapeError \/ e = ZeroDivisionError \/ e = ValueError.
Proof.
  unfold Phi3.Attention_call.
  destruct (Phi3.project_heads a x rope) as [[q k] v].
  destruct (consult_cache cache k v) as [[k' v'] c'].
  unfold Phi3.repeat_kv, floordiv.
  destruct (Phi3.n_heads a >? Phi3.n_kv_heads a)%Z.
  - destruct (Phi3.n_kv_heads a =? 0)%Z; cbn -[Z.div Z.ltb Z.to_nat].
    + intros E. inversion E. auto.
    + destruct (Phi3.n_heads a / Phi3.n_kv_heads a <? 0)%Z; cbn -[Z.div Z.to_nat].
      * intros E. inversion E. auto.
      * intros E. left. eapply attend_raises. exact E.
  - cbn. intros E. left. eapply attend_raises. exact E.
Qed.

Lemma qwen3_attention_raises (a : Qwen3.Attention) x mask rope cache e :
  fst (Qwen3.Attention_call a x mask rope cache) = inl e -> e = ShapeError.
Proof.
  unfold Qwen3.Attention_call.
  destruct (Qwen3.project_heads a x rope) as [[q k] v].
  destruct (consult_cache cache k v) as [[k' v'] c'].
  destruct (Qwen3.repeat_kv a k' v') as [k2 v2].
  cbn. apply attend_raises.
Qed.

Lemma phi3_block_raises (b : Phi3.TransformerBlock) x mask rope cache e :
  fst (Phi3.TransformerBlock_call b x mask rope cache) = inl e ->
  e = ShapeError \/ e = ZeroDivisionError \/ e = ValueError.
Proof.
  unfold Phi3.TransformerBlock_call.
  pose proof (phi3_attention_raises (Phi3.self_attn b)
                (RMSNorm_call3 (Phi3.input_layernorm b) x) mask rope cache e) as Ha.
  destruct (Phi3.Attention_call _ _ _ _ _) as [[e'|h] c]; cbn in *; [exact Ha | discriminate].
Qed.

Lemma qwen3_block_raises (b : Qwen3.TransformerBlock) x mask rope cache e :
  fst (Qwen3.TransformerBlock_call b x mask rope cache) = inl e -> e = ShapeError.
Proof.
  unfold Qwen3.TransformerBlock_call.
  pose proof (qwen3_attention_raises (Qwen3.self_attn b)
                (RMSNorm_call3 (Qwen3.input_layernorm b) x) mask rope cache e) as Ha.
  destruct (Qwen3.Attention_call _ _ _ _ _) as [[e'|h] c]; cbn in *; [exact Ha | discriminate].
Qed.

Lemma phi3_run_layers_raises ls : forall i x mask rope (cache : list (option (KVCache T))) e,
  fst (Phi3.run_layers ls i x mask rope cache) = inl e ->
  e = IndexError \/ e = ShapeError \/ e = ZeroDivisionError \/ e = ValueError.
Proof.
  induction ls as [|layer rest IH]; intros i x mask rope cache e; cbn [Phi3.run_layers].
  - discriminate.
  - destruct (nth_error cache i) as [c|]; [|cbn; intros E; inversion E; auto].
    pose proof (phi3_block_raises layer x mask rope c e) as Hb.
    destruct (Phi3.TransformerBlock_call layer x mask rope c) as [[e'|x'] c'].
    + cbn in *. intros E. right. now apply Hb.
    + apply IH.
Qed.

Lemma qwen3_run_layers_raises ls : forall i x mask rope (cache : list (option (KVCache T))) e,
  fst (Qwen3.run_layers ls i x mask rope cache) = inl e ->
  e = IndexError \/ e = ShapeError.
Proof.
  induction ls as [|layer rest IH]; intros i x mask rope cache e; cbn [Qwen3.run_layers].
  - discriminate.
  - destruct (nth_error cache i) as [c|]; [|cbn; intros E; inversion E; auto].
    pose proof (qwen3_block_raises layer x mask rope c e) as Hb.
    destruct (Qwen3.TransformerBlock_call layer x mask rope c) as [[e'|x'] c'].
    + cbn in *. intros E. right. now apply Hb.
    + apply IH.
Qed.

Lemma phi3_model_raises (m : Phi3.Phi3Model) ids mask rope cache e :
  fst (Phi3.Phi3Model_call m ids mask rope cache) = inl e ->
  e = IndexError \/ e = ShapeError \/ e = ZeroDivisionError \/ e = ValueError.
Proof.
  unfold Phi3.Phi3Model_call.
  pose proof (phi3_run_layers_raises (Phi3.layers m) 0
                (Embed_call (Phi3.embed_tokens m) ids) mask rope cache e) as Hr.
  destruct (Phi3.run_layers _ _ _ _ _ _) as [[e'|x] c]; cbn in *; [exact Hr | discriminate].
Qed.

Lemma qwen3_model_raises (m : Qwen3.Qwen3Model) ids mask rope cache e :
  fst (Qwen3.Qwen3Model_call m ids mask rope cache) = inl e ->
  e = IndexError \/ e = ShapeError.
Proof.
  unfold Qwen3.Qwen3Model_call.
  pose proof (qwen3_run_layers_raises (Qwen3.layers m) 0
                (Embed_call (Qwen3.embed_tokens m) ids) mask rope cache e) as Hr.
  destruct (Qwen3.run_layers _ _ _ _ _ _) as [[e'|x] c]; cbn in *; [exact Hr | discriminate].
Qed.

(** X2.  The output projection [lm_head] is created exactly when the
    configuration does not tie the embeddings, and it is read exactly then:
    on a model returned by the constructor the call never fails on the
    missing attribute.  It raises exactly what the inner model raises,
    leaves the cache as the inner model left it, and returns the inner
    model's hidden states through the head that the flag selects. *)
Theorem constructed_model_finds_its_head (config : Config.t T) (r : Rngs T) :
  (forall m r',
      Phi3.Phi3ForCausalLM_init config r = inr (m, r') ->
      forall ids mask rope cache,
        let inner := Phi3.Phi3Model_call (Phi3.model m) ids mask rope cache in
        let outer := Phi3.Phi3ForCausalLM_call m ids mask rope cache in
        fst outer <> inl AttributeError
        /\ snd outer = snd inner
        /\ (forall e, fst outer = inl e <-> fst inner = inl e)
        /\ (forall x, fst inner = inr x ->
              (Config.tie_word_embeddings config = true ->
               fst outer = ok (Embed_attend (Phi3.embed_tokens (Phi3.model m)) x))
              /\ (Config.tie_word_embeddings config = false ->
                  exists l, Phi3.lm_head m = Some l /\ fst outer = ok (Linear_call l x))))
  /\ (forall m r',
         Qwen3.Qwen3ForCausalLM_init config r = inr (m, r') ->
         forall ids mask rope cache,
           let inner := Qwen3.Qwen3Model_call (Qwen3.model m) ids mask rope cache in
           let outer := Qwen3.Qwen3ForCausalLM_call m ids mask rope cache in
           fst outer <> inl AttributeError
           /\ snd outer = snd inner
           /\ (forall e, fst outer = inl e <-> fst inner = inl e)
           /\ (forall x, fst inner = inr x ->
                 (Config.tie_word_embeddings config = true ->
                  fst outer = ok (Embed_attend (Qwen3.embed_tokens (Qwen3.model m)) x))
                 /\ (Config.tie_word_embeddings config = false ->
                     exists l, Qwen3.lm_head m = Some l
                               /\ fst outer = ok (Linear_call l x)))).
Proof.
  split; intros m r' Hinit ids mask rope cache inner outer.
  - destruct (@phi3_init_tie T _ config r r' m Hinit) as (Ht & Htie & Hun).
    pose proof (phi3_model_raises (Phi3.model m) ids mask rope cache) as Hr.
    subst inner outer. unfold Phi3.Phi3ForCausalLM_call.
    destruct (Phi3.Phi3Model_call (Phi3.model m) ids mask rope cache) as [[e|x] c];
      cbn [fst snd] in *.
    + split; [|split; [reflexivity|split]].
      * intros E. inversion E; subst.
        destruct (Hr AttributeError eq_refl) as [D|[D|[D|D]]]; discriminate.
      * intros e'. split; intros E; exact E.
      * intros y E. discriminate.
    + destruct (Phi3.tie m) eqn:Etie.
      * cbn [fst snd]. split; [discriminate|split; [reflexivity|split]].
        -- intros e'. split; intros E; discriminate.
        -- intros y E. inversion E; subst. split; [reflexivity|].
           intros Hf. rewrite <- Ht in Hf. discriminate.
      * destruct (Hun eq_refl) as [l El]. rewrite El. cbn [fst snd].
        split; [discriminate|split; [reflexivity|split]].
        -- intros e'. split; intros E; discriminate.
        -- intros y E. inversion E; subst. split.
           ++ intros Hf. rewrite <- Ht in Hf. discriminate.
           ++ intros _. now exists l.
  - destruct (@qwen3_init_tie T _ config r r' m Hinit) as (Ht & Htie & Hun).
    pose proof (qwen3_model_raises (Qwen3.model m) ids mask rope cache) as Hr.
    subst inner outer. unfold Qwen3.Qwen3ForCausalLM_call.
    destruct (Qwen3.Qwen3Model_call (Qwen3.model m) ids mask rope cache) as [[e|x] c];
      cbn [fst snd] in *.
    + split; [|split; [reflexivity|split]].
      * intros E. inversion E; subst.
        destruct (Hr AttributeError eq_refl) as [D|D]; discriminate.
      * intros e'. split; intros E; exact E.
      * intros y E. discriminate.
    + destruct (Qwen3.tie m) eqn:Etie.
      * cbn [fst snd]. split; [discriminate|split; [reflexivity|split]].
        -- intros e'. split; intros E; discriminate.
        -- intros y E. inversion E; subst. split; [reflexivity|].
           intros Hf. rewrite <- Ht in Hf. discriminate.
      * destruct (Hun eq_refl) as [l El]. rewrite El. cbn [fst snd].
        split; [discriminate|split; [reflexivity|split]].
        -- intros e'. split; intros E; discriminate.
        -- intros y E. inversion E; subst. split.
           ++ intros Hf. rewrite <- Ht in Hf. discriminate.
           ++ intros _. now exists l.
Qed.
End ForwardErrors.

(** ** The division at call time *)

Section CallDivision.
Context {T : Type} `{Scalar T}.



End CallDivision.


Lemma constructed_model_finds_its_head_witness :
  exists m r',
    Qwen3.Qwen3ForCausalLM_init Ex.cfg_uneven Ex.rngs0 = inr (m, r')
    /\ fst (Qwen3.Qwen3ForCausalLM_call m Ex.ids0 Ex.mask0 Ex.rope0 [None])
       <> inl AttributeError.
Proof.
  destruct (Qwen3.Qwen3ForCausalLM_init Ex.cfg_uneven Ex.rngs0) as [e|[m r']] eqn:E;
    [cbn in E; discriminate|].
  exists m, r'. split; [reflexivity|].
  exact (proj1 (proj2 (constructed_model_finds_its_head Ex.cfg_uneven Ex.rngs0)
                  m r' E Ex.ids0 Ex.mask0 Ex.rope0 [None])).
Defined.

(** ** The cache list across a forward call *)

Section CacheFrame.
Context {T : Type} `{Scalar T}.

Lemma nth_error_set_nth {A} (i j : nat) (a : A) (l : list A) :
  (i < length l)%nat ->
  nth_error (set_nth i a l) j = if (j =? i)%nat then Some a else nth_error l j.
Proof.
  intros Hi. unfold set_nth.
  destruct (Nat.eqb_spec j i) as [->|Hne].
  - rewrite nth_error_app2 by (rewrite length_firstn; lia).
    rewrite length_firstn. replace (i - Nat.min i (length l))%nat with 0%nat by lia.
    reflexivity.
  - destruct (Nat.lt_ge_cases j i) as [Hlt|Hge].
    + rewrite nth_error_app1 by (rewrite length_firstn; lia).
      rewrite nth_error_firstn.
      now replace (j <? i)%nat with true by (symmetry; apply Nat.ltb_lt; exact Hlt).
    + rewrite nth_error_app2 by (rewrite length_firstn; lia).
      rewrite length_firstn. replace (Nat.min i (length l)) with i by lia.
      destruct (j - i)%nat as [|d] eqn:Ed; [lia|]. cbn [nth_error].
      rewrite nth_error_skipn. f_equal. lia.
Qed.

Lemma phi3_attention_no_cache (a : Phi3.Attention) x mask rope :
  snd (Phi3.Attention_call a x mask rope None) = None.
Proof.
  unfold Phi3.Attention_call, consult_cache.
  destruct (Phi3.project_heads a x rope) as [[q k] v].
  destruct (Phi3.repeat_kv a k v) as [e|[k2 v2]]; reflexivity.
Qed.

Lemma qwen3_attention_no_cache (a : Qwen3.Attention) x mask rope :
  snd (Qwen3.Attention_call a x mask rope None) = None.
Proof.
  unfold Qwen3.Attention_call, consult_cache.
  destruct (Qwen3.project_heads a x rope) as [[q k] v].
  destruct (Qwen3.repeat_kv a k v) as [k2 v2]. reflexivity.
Qed.

Lemma phi3_run_layers_frame ls :
  forall i x mask rope (cache : list (option (KVCache T))),
    let out := snd (Phi3.run_layers ls i x mask rope cache) in
    length out = length cache
    /\ (forall j, (j < i \/ i + length ls <= j)%nat -> nth_error out j = nth_error cache j)
    /\ (forall j, nth_error cache j = Some None -> nth_error out j = Some None).
Proof.
  induction ls as [|layer rest IH]; intros i x mask rope cache; cbn [Phi3.run_layers].
  - cbn. auto.
  - destruct (nth_error cache i) as [c|] eqn:Ec; [|cbn; auto].
    assert (Hi : (i < length cache)%nat) by (apply nth_error_Some; congruence).
    pose proof (@phi3_block_cache T _ layer x mask rope c) as Hc.
    destruct (Phi3.TransformerBlock_call layer x mask rope c) as [r c'].
    cbn [snd] in Hc. cbv zeta.
    assert (Hset : length (set_nth i c' cache) = length cache)
      by (now apply length_set_nth).
    assert (Hnone : forall j, nth_error cache j = Some None ->
                              nth_error (set_nth i c' cache) j = Some None).
    { intros j Hj. rewrite nth_error_set_nth by exact Hi.
      destruct (Nat.eqb_spec j i) as [->|Hne]; [|exact Hj].
      rewrite Ec in Hj. inversion Hj; subst c.
      rewrite Hc. now rewrite phi3_attention_no_cache. }
    destruct r as [e|x'].
    + cbn [snd]. split; [exact Hset|]. split; [|exact Hnone].
      intros j Hj. rewrite nth_error_set_nth by exact Hi.
      destruct (Nat.eqb_spec j i) as [->|Hne]; [cbn [length] in Hj; lia | reflexivity].
    + destruct (IH (S i) x' mask rope (set_nth i c' cache)) as (H1 & H2 & H3).
      split; [now rewrite H1|]. split.
      * intros j Hj. rewrite H2 by (cbn [length] in Hj; lia).
        rewrite nth_error_set_nth by exact Hi.
        destruct (Nat.eqb_spec j i) as [->|Hne]; [cbn [length] in Hj; lia | reflexivity].
      * intros j Hj. apply H3. now apply Hnone.
Qed.

Lemma qwen3_run_layers_frame ls :
  forall i x mask rope (cache : list (option (KVCache T))),
    let out := snd (Qwen3.run_layers ls i x mask rope cache) in
    length out = length cache
    /\ (forall j, (j < i \/ i + length ls <= j)%nat -> nth_error out j = nth_error cache j)
    /\ (forall j, nth_error cache j = Some None -> nth_error out j = Some None).
Proof.
  induction ls as [|layer rest IH]; intros i x mask rope cache; cbn [Qwen3.run_layers].
  - cbn. auto.
  - destruct (nth_error cache i) as [c|] eqn:Ec; [|cbn; auto].
    assert (Hi : (i < length cache)%nat) by (apply nth_error_Some; congruence).
    pose proof (@qwen3_block_cache T _ layer x mask rope c) as Hc.
    destruct (Qwen3.TransformerBlock_call layer x mask rope c) as [r c'].
    cbn [snd] in Hc. cbv zeta.
    assert (Hset : length (set_nth i c' cache) = length cache)
      by (now apply length_set_nth).
    assert (Hnone : forall j, nth_error cache j = Some None ->
                              nth_error (set_nth i c' cache) j = Some None).
    { intros j Hj. rewrite nth_error_set_nth by exact Hi.
      destruct (Nat.eqb_spec j i) as [->|Hne]; [|exact Hj].
      rewrite Ec in Hj. inversion Hj; subst c.
      rewrite Hc. now rewrite qwen3_attention_no_cache. }
    destruct r as [e|x'].
    + cbn [snd]. split; [exact Hset|]. split; [|exact Hnone].
      intros j Hj. rewrite nth_error_set_nth by exact Hi.
      destruct (Nat.eqb_spec j i) as [->|Hne]; [cbn [length] in Hj; lia | reflexivity].
    + destruct (IH (S i) x' mask rope (set_nth i c' cache)) as (H1 & H2 & H3).
      split; [now rewrite H1|]. split.
      * intros j Hj. rewrite H2 by (cbn [length] in Hj; lia).
        rewrite nth_error_set_nth by exact Hi.
        destruct (Nat.eqb_spec j i) as [->|Hne]; [cbn [length] in Hj; lia | reflexivity].
      * intros j Hj. apply H3. now apply Hnone.
Qed.

Lemma phi3_lm_cache (m : Phi3.Phi3ForCausalLM) ids mask rope cache :
  snd (Phi3.Phi3ForCausalLM_call m ids mask rope cache)
  = snd (Phi3.run_layers (Phi3.layers (Phi3.model m)) 0
           (Embed_call (Phi3.embed_tokens (Phi3.model m)) ids) mask rope cache).
Proof.
  unfold Phi3.Phi3ForCausalLM_call, Phi3.Phi3Model_call.
  destruct (Phi3.run_layers _ _ _ _ _ _) as [[e|x] c]; cbn [snd]; [reflexivity|].
  destruct (Phi3.tie m); [reflexivity|]. destruct (Phi3.lm_head m); reflexivity.
Qed.

Lemma qwen3_lm_cache (m : Qwen3.Qwen3ForCausalLM) ids mask rope cache :
  snd (Qwen3.Qwen3ForCausalLM_call m ids mask rope cache)
  = snd (Qwen3.run_layers (Qwen3.layers (Qwen3.model m)) 0
           (Embed_call (Qwen3.embed_tokens (Qwen3.model m)) ids) mask rope cache).
Proof.
  unfold Qwen3.Qwen3ForCausalLM_call, Qwen3.Qwen3Model_call.
  destruct (Qwen3.run_layers _ _ _ _ _ _) as [[e|x] c]; cbn [snd]; [reflexivity|].
  destruct (Qwen3.tie m); [reflexivity|]. destruct (Qwen3.lm_head m); reflexivity.
Qed.

(** X3.  A forward call, whether it returns or raises, leaves the cache
    list with the entries it had: layer [i] reads and updates entry [i]
    only, so an entry at an index beyond the last layer is as it was, and an
    entry that is [None] stays [None] (a layer called without a cache
    creates none). *)
Theorem forward_touches_only_its_layers_entries
        (pm : Phi3.Phi3ForCausalLM) (qm : Qwen3.Qwen3ForCausalLM)
        (ids : list (list Z)) (mask : tensor4 T) (rope : mat T * mat T)
        (cache : list (option (KVCache T))) :
  (let out := snd (Phi3.Phi3ForCausalLM_call pm ids mask rope cache) in
   length out = length cache
   /\ (forall j, (length (Phi3.layers (Phi3.model pm)) <= j)%nat ->
                 nth_error out j = nth_error cache j)
   /\ (forall j, nth_error cache j = Some None -> nth_error out j = Some None))
  /\ (let out := snd (Qwen3.Qwen3ForCausalLM_call qm ids mask rope cache) in
      length out = length cache
      /\ (forall j, (length (Qwen3.layers (Qwen3.model qm)) <= j)%nat ->
                    nth_error out j = nth_error cache j)
      /\ (forall j, nth_error cache j = Some None -> nth_error out j = Some None)).
Proof.
  split; cbv zeta.
  - rewrite phi3_lm_cache.
    destruct (phi3_run_layers_frame (Phi3.layers (Phi3.model pm)) 0
                (Embed_call (Phi3.embed_tokens (Phi3.model pm)) ids) mask rope cache)
      as (H1 & H2 & H3).
    split; [exact H1|]. split; [|exact H3].
    intros j Hj. apply H2. right. exact Hj.
  - rewrite qwen3_lm_cache.
    destruct (qwen3_run_layers_frame (Qwen3.layers (Qwen3.model qm)) 0
                (Embed_call (Qwen3.embed_tokens (Qwen3.model qm)) ids) mask rope cache)
      as (H1 & H2 & H3).
    split; [exact H1|]. split; [|exact H3].
    intros j Hj. apply H2. right. exact Hj.
Qed.

Lemma phi3_run_layers_app l1 : forall l2 i x mask rope (cache : list (option (KVCache T))),
  Phi3.run_layers (l1 ++ l2) i x mask rope cache
  = (let '(r1, c1) := Phi3.run_layers l1 i x mask rope cache in
     match r1 with
     | inl e => (inl e, c1)
     | inr x1 => Phi3.run_layers l2 (i + length l1) x1 mask rope c1
     end).
Proof.
  induction l1 as [|layer rest IH]; intros l2 i x mask rope cache.
  - cbn. now rewrite Nat.add_0_r.
  - cbn [app Phi3.run_layers length].
    destruct (nth_error cache i) as [c|]; [|reflexivity].
    destruct (Phi3.TransformerBlock_call layer x mask rope c) as [[e|x'] c'];
      [reflexivity|].
    cbv zeta. rewrite IH. now rewrite Nat.add_succ_r.
Qed.

Lemma qwen3_run_layers_app l1 : forall l2 i x mask rope (cache : list (option (KVCache T))),
  Qwen3.run_layers (l1 ++ l2) i x mask rope cache
  = (let '(r1, c1) := Qwen3.run_layers l1 i x mask rope cache in
     match r1 with
     | inl e => (inl e, c1)
     | inr x1 => Qwen3.run_layers l2 (i + length l1) x1 mask rope c1
     end).
Proof.
  induction l1 as [|layer rest IH]; intros l2 i x mask rope cache.
  - cbn. now rewrite Nat.add_0_r.
  - cbn [app Qwen3.run_layers length].
    destruct (nth_error cache i) as [c|]; [|reflexivity].
    destruct (Qwen3.TransformerBlock_call layer x mask rope c) as [[e|x'] c'];
      [reflexivity|].
    cbv zeta. rewrite IH. now rewrite Nat.add_succ_r.
Qed.
End CacheFrame.

Section LoopComposition.
Context {T : Type} `{Scalar T}.

(** X4.  The layer loop composes: running a stack [l1 ++ l2] from index
    [i] is running [l1] from index [i] and then, unless [l1] raised, [l2]
    from index [i + len l1] on the hidden states and the cache list that
    [l1] left. *)
Theorem layer_loop_composes
        (p1 p2 : list Phi3.TransformerBlock) (q1 q2 : list Qwen3.TransformerBlock)
        (i : nat) (x : tensor3 T) (mask : tensor4 T) (rope : mat T * mat T)
        (cache : list (option (KVCache T))) :
  Phi3.run_layers (p1 ++ p2) i x mask rope cache
  = (let '(r1, c1) := Phi3.run_layers p1 i x mask rope cache in
     match r1 with
     | inl e => (inl e, c1)
     | inr x1 => Phi3.run_layers p2 (i + length p1) x1 mask rope c1
     end)
  /\ Qwen3.run_layers (q1 ++ q2) i x mask rope cache
     = (let '(r1, c1) := Qwen3.run_layers q1 i x mask rope cache in
        match r1 with
        | inl e => (inl e, c1)
        | inr x1 => Qwen3.run_layers q2 (i + length q1) x1 mask rope c1
        end).
Proof. split; [apply phi3_run_layers_app | apply qwen3_run_layers_app]. Qed.
End LoopComposition.

(** ** Shape of the attention output *)

Section OutputShape.
Context {T : Type} `{Scalar T}.

Lemma Linear_call_rows (l : Linear T) (x : tensor3 T) :
  Linear_call l x = map (map (lin_row (kernel l))) x.
Proof. unfold Linear_call. apply map_ext. intros xb. apply matmul_rows. Qed.

Lemma attn_output_shape (L : nat) (w v : tensor4 T) (o : Linear T) :
  Forall (fun yb => length yb = L
                    /\ Forall (fun r => length r = ncols (kernel o)) yb)
         (attn_output L w v o).
Proof.
  unfold attn_output. rewrite Linear_call_rows.
  unfold merge_last, transpose_0213. rewrite !map_map.
  apply Forall_forall. intros yb Hyb. apply in_map_iff in Hyb.
  destruct Hyb as (hb & <- & _). split.
  - unfold transpose. now rewrite !length_map, length_seq.
  - apply Forall_forall. intros r Hr. apply in_map_iff in Hr.
    destruct Hr as (r0 & <- & _). apply length_lin_row.
Qed.

Lemma attend_shape (L : nat) (q k v : tensor4 T) (scale : T) (mask : tensor4 T)
      (o : Linear T) (y : tensor3 T) :
  attend L q k v scale mask o = ok y ->
  Forall (fun yb => length yb = L
                    /\ Forall (fun r => length r = ncols (kernel o)) yb) y.
Proof.
  unfold attend. destruct (attn_weights q k scale mask) as [e|w]; [discriminate|].
  intros E. inversion E; subst. apply attn_output_shape.
Qed.

(** X5.  Whatever the cache holds, an attention call that returns yields,
    for every batch entry, one output row per position of the call (the
    extent of axis 1 of [x]), each with as many features as the kernel of
    [o_proj] has columns: the keys and values taken from the cache lengthen
    the key axis only. *)
Theorem attention_output_has_call_positions
        (pa : Phi3.Attention) (qa : Qwen3.Attention) (x : tensor3 T)
        (mask : tensor4 T) (rope : mat T * mat T) (cache : option (KVCache T)) :
  (forall y c',
      Phi3.Attention_call pa x mask rope cache = (ok y, c') ->
      Forall (fun yb => length yb = ncols x
                        /\ Forall (fun r => length r = ncols (kernel (Phi3.o_proj pa))) yb)
             y)
  /\ (forall y c',
         Qwen3.Attention_call qa x mask rope cache = (ok y, c') ->
         Forall (fun yb => length yb = ncols x
                           /\ Forall (fun r => length r
                                               = ncols (kernel (Qwen3.o_proj qa))) yb)
                y).
Proof.
  split; intros y c'.
  - unfold Phi3.Attention_call.
    destruct (Phi3.project_heads pa x rope) as [[q k] v].
    destruct (consult_cache cache k v) as [[k1 v1] c1].
    destruct (Phi3.repeat_kv pa k1 v1) as [e|[k2 v2]]; [discriminate|].
    intros E. inversion E as [[Ey Ec]]. eapply attend_shape. exact Ey.
  - unfold Qwen3.Attention_call.
    destruct (Qwen3.project_heads qa x rope) as [[q k] v].
    destruct (consult_cache cache k v) as [[k1 v1] c1].
    destruct (Qwen3.repeat_kv qa k1 v1) as [k2 v2].
    intros E. inversion E as [[Ey Ec]]. eapply attend_shape. exact Ey.
Qed.
End OutputShape.

Lemma attention_output_has_call_positions_witness :
  exists y c',
    Phi3.Attention_call Ex.phi3_attn2 Ex.x2 (causal_mask 2) Ex.rope_2pos
      (Some Ex.empty_cache) = (ok y, c')
    /\ Forall (fun yb => length yb = 2%nat /\ Forall (fun r => length r = 1%nat) yb) y.
Proof.
  destruct (Phi3.Attention_call Ex.phi3_attn2 Ex.x2 (causal_mask 2) Ex.rope_2pos
              (Some Ex.empty_cache)) as [[e|y] c'] eqn:E; [cbn in E; discriminate|].
  exists y, c'. split; [reflexivity|].
  exact (proj1 (attention_output_has_call_positions Ex.phi3_attn2 Ex.qwen3_attn2 Ex.x2
                  (causal_mask 2) Ex.rope_2pos (Some Ex.empty_cache)) y c' E).
Defined.

(** ** The feed-forward network acts on each position alone *)

Section PositionWise.
Context {T : Type} `{Scalar T}.

Lemma phi3_mlp_rows (m : Phi3.MLP) (x : tensor3 T) :
  Phi3.MLP_call m x
  = map (map (fun r =>
                let u := lin_row (kernel (Phi3.gate_up_proj m)) r in
                lin_row (kernel (Phi3.down_proj m))
                        (vmul (map silu (firstn (length u / 2) u))
                              (skipn (length u / 2) u)))) x.
Proof.
  unfold Phi3.MLP_call, Phi3.split2, tmul3, silu3.
  rewrite !Linear_call_rows, !map_map.
  rewrite (@zipWith_same _ _ _ (zipWith vmul) x).
  rewrite map_map. apply map_ext. intros xb.
  rewrite !map_map.
  rewrite (@zipWith_same _ _ _ vmul xb).
  now rewrite map_map.
Qed.

Lemma qwen3_mlp_rows (m : Qwen3.MLP) (x : tensor3 T) :
  Qwen3.MLP_call m x
  = map (map (fun r =>
                lin_row (kernel (Qwen3.down_proj m))
                        (vmul (map silu (lin_row (kernel (Qwen3.gate_proj m)) r))
                              (lin_row (kernel (Qwen3.up_proj m)) r)))) x.
Proof.
  unfold Qwen3.MLP_call, tmul3, silu3.
  rewrite !Linear_call_rows, !map_map.
  rewrite (@zipWith_same _ _ _ (zipWith vmul) x).
  rewrite map_map. apply map_ext. intros xb.
  rewrite !map_map.
  rewrite (@zipWith_same _ _ _ vmul xb).
  now rewrite map_map.
Qed.

(** X6.  The feed-forward network of either variant treats every position
    of every batch entry on its own: its output on an array is, row by row,
    its output on the array that holds that one row. *)
Theorem mlp_acts_on_each_position_alone
        (pm : Phi3.MLP) (qm : Qwen3.MLP) (x : tensor3 T) :
  Phi3.MLP_call pm x = map (map (fun r => hd [] (hd [] (Phi3.MLP_call pm [[r]])))) x
  /\ Qwen3.MLP_call qm x
     = map (map (fun r => hd [] (hd [] (Qwen3.MLP_call qm [[r]])))) x.
Proof.
  split.
  - rewrite phi3_mlp_rows. apply map_ext. intros xb. apply map_ext. intros r.
    now rewrite phi3_mlp_rows.
  - rewrite qwen3_mlp_rows. apply map_ext. intros xb. apply map_ext. intros r.
    now rewrite qwen3_mlp_rows.
Qed.
End PositionWise.

(** ** The two replication guards *)

Section Guards.
Context {T : Type} `{Scalar T}.
Local Open Scope Z_scope.

(** X7.  The two files guard the replication differently ([n_heads >
    n_kv_heads] against [n_repeat > 1]) and divide at different times (at
    every call against once at construction), yet with a positive number of
    key/value heads they replicate alike: the phi3 statements return what
    the qwen3 statements return for the factor [n_heads // n_kv_heads]. *)
Theorem replication_guards_agree
        (pa : Phi3.Attention) (qa : Qwen3.Attention) (k v : tensor4 T) :
  0 < Phi3.n_kv_heads pa ->
  Qwen3.n_repeat qa = Phi3.n_heads pa / Phi3.n_kv_heads pa ->
  Phi3.repeat_kv pa k v = ok (Qwen3.repeat_kv qa k v).
Proof.
  intros Hkv Hrep.
  rewrite (phi3_repeat_kv_rep pa k v) by (right; exact Hkv).
  rewrite qwen3_repeat_kv_rep.
  assert (E : phi3_rep pa = qwen3_rep qa).
  { unfold phi3_rep, qwen3_rep. rewrite Hrep.
    destruct (Z.gtb_spec (Phi3.n_heads pa) (Phi3.n_kv_heads pa)) as [Hgt|Hle].
    - assert (1 <= Phi3.n_heads pa / Phi3.n_kv_heads pa)
        by (apply Z.div_le_lower_bound; lia).
      destruct (Z.gtb_spec (Phi3.n_heads pa / Phi3.n_kv_heads pa) 1) as [H1|H1];
        [reflexivity|].
      replace (Phi3.n_heads pa / Phi3.n_kv_heads pa) with 1 by lia. reflexivity.
    - assert (Phi3.n_heads pa / Phi3.n_kv_heads pa <= 1)
        by (apply Z.div_le_upper_bound; lia).
      destruct (Z.gtb_spec (Phi3.n_heads pa / Phi3.n_kv_heads pa) 1) as [H1|H1];
        [lia | reflexivity]. }
  now rewrite E.
Qed.
End Guards.

Lemma replication_guards_agree_witness :
  Phi3.repeat_kv Ex.phi3_gqa Ex.q1 Ex.q1 = ok (Qwen3.repeat_kv Ex.qwen3_gqa Ex.q1 Ex.q1).
Proof.
  apply (replication_guards_agree Ex.phi3_gqa Ex.qwen3_gqa Ex.q1 Ex.q1);
    [cbn; lia | reflexivity].
Defined.

(** ** Which columns of a projection a head reads *)

Section HeadLayout.
Context {T : Type} `{Scalar T}.
Local Open Scope nat_scope.

Lemma nth_chunks_slice {A} (d n : nat) : forall (l : list A) (h : nat),
  h < n -> nth h (chunks d n l) [] = slice (h * d) (h * d + d) l.
Proof.
  induction n as [|n IH]; intros l h Hh; [lia|].
  cbn [chunks]. destruct h as [|h]; cbn [nth].
  - reflexivity.
  - rewrite IH by lia. unfold slice.
    rewrite firstn_skipn_comm, skipn_skipn. f_equal; [lia|]. f_equal. lia.
Qed.

Lemma slice_skipn {A} (a b k : nat) (l : list A) :
  slice a b (skipn k l) = slice (k + a) (k + b) l.
Proof.
  unfold slice. rewrite firstn_skipn_comm, skipn_skipn. f_equal. lia.
Qed.

Lemma nth_value_head (n : nat) (fv : nat -> vec T -> vec T) (x : tensor3 T) b h t :
  b < length x -> h < n -> t < length (nth b x []) ->
  nth t (nth h (nth b (map (fun xb => map (fun h => map (fv h) xb) (seq 0 n)) x) []) []) []
  = fv h (nth t (nth b x []) []).
Proof.
  intros Hb Hh Ht.
  rewrite (@nth_map_lt _ _ (fun xb => map (fun h => map (fv h) xb) (seq 0 n)) x b [] [])
    by exact Hb.
  rewrite nth_map_seq by exact Hh.
  now rewrite (@nth_map_lt _ _ (fv h) (nth b x []) t [] []) by exact Ht.
Qed.

(** X8.  The reshape to (B, L, heads, head_dim) followed by the exchange of
    axes 1 and 2 gives every head a block of [head_dim] consecutive columns
    of the projection.  In phi3 the value of key/value head [h] at a
    position is the slice of the fused projection of that position's input
    row which starts at column [kv_pos + h * head_dim], where [kv_pos] is
    the width of the query and key parts; in qwen3 it is the slice of the
    [v_proj] output that starts at column [h * head_dim].  Values are
    neither normalised nor rotated. *)
Theorem value_head_reads_consecutive_columns
        (pa : Phi3.Attention) (qa : Qwen3.Attention) (x : tensor3 T)
        (rope : mat T * mat T) (b h t : nat) :
  b < length x -> t < length (nth b x []) ->
  (h < Z.to_nat (Phi3.n_kv_heads pa) ->
   let kv_pos := Z.to_nat (Phi3.n_heads pa * Phi3.head_dim pa
                           + Phi3.n_kv_heads pa * Phi3.head_dim pa) in
   let d := Z.to_nat (Phi3.head_dim pa) in
   nth t (nth h (nth b (snd (Phi3.project_heads pa x rope)) []) []) []
   = slice (kv_pos + h * d) (kv_pos + (h * d + d))
           (lin_row (kernel (Phi3.qkv_proj pa)) (nth t (nth b x []) [])))
  /\ (h < Z.to_nat (Qwen3.num_kv_heads qa) ->
      let d := Z.to_nat (Qwen3.head_dim qa) in
      nth t (nth h (nth b (snd (Qwen3.project_heads qa x rope)) []) []) []
      = slice (h * d) (h * d + d)
              (lin_row (kernel (Qwen3.v_proj qa)) (nth t (nth b x []) []))).
Proof.
  intros Hb Ht. split; intros Hh; cbv zeta.
  - rewrite phi3_project_row_form. unfold row_heads. cbn [snd].
    rewrite nth_value_head by assumption.
    unfold phi3_fv, phi3_v_row.
    rewrite nth_chunks_slice by exact Hh.
    apply slice_skipn.
  - rewrite qwen3_project_row_form. unfold row_heads. cbn [snd].
    rewrite nth_value_head by assumption.
    unfold qwen3_fv.
    now rewrite nth_chunks_slice by exact Hh.
Qed.
End HeadLayout.

Lemma value_head_reads_consecutive_columns_witness :
  nth 1 (nth 0 (nth 0 (snd (Phi3.project_heads Ex.phi3_attn2 Ex.x2 Ex.rope_2pos)) []) []) []
  = slice 6 8 (lin_row (kernel (Phi3.qkv_proj Ex.phi3_attn2)) (nth 1 (nth 0 Ex.x2 []) [])).
Proof.
  apply (proj1 (value_head_reads_consecutive_columns Ex.phi3_attn2 Ex.qwen3_attn2 Ex.x2
                  Ex.rope_2pos 0 0 1 ltac:(cbn; lia) ltac:(cbn; lia))).
  cbn. lia.
Defined.

(** ** The number of rotated features of a phi3 layer *)

Section RotDims.
Local Open Scope Z_scope.

Lemma trunc_bounds (n : Z) (f : R) :
  0 <= n -> (0 <= f <= 1)%R -> 0 <= trunc (IZR n * f) <= n.
Proof.
  intros Hn [Hf0 Hf1].
  assert (Hn' : (0 <= IZR n)%R) by (now apply IZR_le).
  assert (Hp : (0 <= IZR n * f)%R) by (now apply Rmult_le_pos).
  assert (Hq : (IZR n * f <= IZR n)%R) by nra.
  unfold trunc. destruct (Rle_dec 0 (IZR n * f)) as [_|Hc]; [|contradiction].
  destruct (base_Int_part (IZR n * f)) as [Hle Hgt].
  split.
  - assert (Hlt : (IZR (-1) < IZR (Int_part (IZR n * f)))%R) by (simpl; lra).
    apply lt_IZR in Hlt. lia.
  - apply le_IZR. lra.
Qed.

Lemma trunc_IZR (n : Z) : 0 <= n -> trunc (IZR n) = n.
Proof.
  intros Hn. unfold trunc.
  destruct (Rle_dec 0 (IZR n)) as [_|Hc]; [|exfalso; apply Hc; now apply IZR_le].
  destruct (base_Int_part (IZR n)) as [Hle Hgt].
  assert (H1 : Int_part (IZR n) <= n) by (now apply le_IZR).
  assert (H2 : n - 1 < Int_part (IZR n)).
  { apply lt_IZR. rewrite minus_IZR. lra. }
  lia.
Qed.

Lemma phi3_attention_init_reaches_int (config : Config.t xreal) (r : Rngs xreal) :
  0 < Config.num_attention_heads config <= Config.hidden_size config ->
  0 < Config.num_key_value_heads config ->
  forall e,
    to_int (smul (of_Z (Config.hidden_size config / Config.num_attention_heads config))
                 (Config.partial_rotary_factor config)) = inl e ->
    Phi3.Attention_init config r = inl e.
Proof.
  intros [Hh Hle] Hkv e He.
  set (hd := Config.hidden_size config / Config.num_attention_heads config) in *.
  assert (Hhd : 0 < hd) by (apply Z.div_str_pos; lia).
  unfold Phi3.Attention_init, ibind, ilift, floordiv.
  replace (Config.num_attention_heads config =? 0) with false
    by (symmetry; apply Z.eqb_neq; lia).
  cbn -[Z.mul Z.add Z.div to_int smul of_Z]. fold hd. clearbody hd.
  replace (hd =? 0) with false by (symmetry; apply Z.eqb_neq; lia).
  cbn -[Z.mul Z.add Z.div to_int smul of_Z].
  rewrite (@nnx_Linear_ok xreal _) by nia.
  rewrite (@nnx_Linear_ok xreal _) by nia.
  now rewrite He.
Qed.

(** X9.  phi3 derives the number of rotated features as
    [int(head_dim * partial_rotary_factor)], the last statement of the
    constructor.  For positive head counts not above the hidden size: a
    factor between 0 and 1 gives a count between 0 and [head_dim], the
    factor 1 rotates every feature and the factor 0 none; a factor that is
    not a number makes [int] raise [ValueError] and an infinite one
    [OverflowError]. *)
Theorem phi3_rot_dims_within_head_dim (config : Config.t xreal) (r : Rngs xreal) :
  0 < Config.num_attention_heads config <= Config.hidden_size config ->
  0 < Config.num_key_value_heads config ->
  (forall f,
      Config.partial_rotary_factor config = Fin f -> (0 <= f <= 1)%R ->
      exists a r',
        Phi3.Attention_init config r = inr (a, r')
        /\ 0 <= Phi3.rot_dims a <= Phi3.head_dim a
        /\ (f = 1%R -> Phi3.rot_dims a = Phi3.head_dim a)
        /\ (f = 0%R -> Phi3.rot_dims a = 0))
  /\ (Config.partial_rotary_factor config = NaN ->
      Phi3.Attention_init config r = inl ValueError)
  /\ (Config.partial_rotary_factor config = PInf
      \/ Config.partial_rotary_factor config = NInf ->
      Phi3.Attention_init config r = inl OverflowError).
Proof.
  intros Hh Hkv.
  set (hd := Config.hidden_size config / Config.num_attention_heads config).
  assert (Hhd : 0 < hd) by (apply Z.div_str_pos; lia).
  assert (Hpos : (0 < IZR hd)%R) by (now apply IZR_lt).
  split; [|split].
  - intros f Hf Hrange.
    pose proof (@phi3_attention_init_ok xreal _ config r (trunc (IZR hd * f)) Hh Hkv) as Hok.
    cbv zeta in Hok. fold hd in Hok. rewrite Hf in Hok.
    specialize (Hok eq_refl).
    do 2 eexists. split; [exact Hok|]. cbn [Phi3.rot_dims Phi3.head_dim].
    split; [apply trunc_bounds; [lia | exact Hrange]|]. split.
    + intros ->. rewrite Rmult_1_r. apply trunc_IZR. lia.
    + intros ->. rewrite Rmult_0_r. apply (trunc_IZR 0). lia.
  - intros Hf. apply phi3_attention_init_reaches_int; [exact Hh | exact Hkv|].
    now rewrite Hf.
  - intros Hf. apply phi3_attention_init_reaches_int; [exact Hh | exact Hkv|].
    fold hd. destruct Hf as [-> | ->]; cbn; unfold xmul_inf;
      destruct (Rlt_dec 0 (IZR hd)) as [_|Hc]; try contradiction; reflexivity.
Qed.
End RotDims.

Lemma phi3_rot_dims_within_head_dim_witness :
  exists a r',
    Phi3.Attention_init Ex.cfg_uneven Ex.rngs0 = inr (a, r')
    /\ (0 <= Phi3.rot_dims a <= Phi3.head_dim a)%Z
    /\ Phi3.rot_dims a = Phi3.head_dim a.
Proof.
  assert (Hh : (0 < Config.num_attention_heads Ex.cfg_uneven
                <= Config.hidden_size Ex.cfg_uneven)%Z) by (cbn; lia).
  assert (Hkv : (0 < Config.num_key_value_heads Ex.cfg_uneven)%Z) by (cbn; lia).
  assert (Hr : (0 <= 1 <= 1)%R) by lra.
  destruct (proj1 (phi3_rot_dims_within_head_dim Ex.cfg_uneven Ex.rngs0 Hh Hkv)
              1%R eq_refl Hr) as (a & r' & E & Hb & H1 & _).
  exists a, r'. split; [exact E|]. split; [exact Hb | now apply H1].
Defined.

(** ** A first call with fresh caches *)

Section FreshCache.
Context {T : Type} `{Scalar T}.

Lemma phi3_attention_fresh_cache (a : Phi3.Attention) x mask rope :
  fst (Phi3.Attention_call a x mask rope (Some {| history := None |}))
  = fst (Phi3.Attention_call a x mask rope None).
Proof.
  unfold Phi3.Attention_call, consult_cache, KVCache_call. cbn [history].
  destruct (Phi3.project_heads a x rope) as [[q k] v].
  destruct (Phi3.repeat_kv a k v) as [e|[k2 v2]]; reflexivity.
Qed.

Lemma qwen3_attention_fresh_cache (a : Qwen3.Attention) x mask rope :
  fst (Qwen3.Attention_call a x mask rope (Some {| history := None |}))
  = fst (Qwen3.Attention_call a x mask rope None).
Proof.
  unfold Qwen3.Attention_call, consult_cache, KVCache_call. cbn [history].
  destruct (Qwen3.project_heads a x rope) as [[q k] v].
  destruct (Qwen3.repeat_kv a k v) as [k2 v2]. reflexivity.
Qed.

Lemma phi3_block_fresh_cache (b : Phi3.TransformerBlock) x mask rope :
  fst (Phi3.TransformerBlock_call b x mask rope (Some {| history := None |}))
  = fst (Phi3.TransformerBlock_call b x mask rope None).
Proof.
  unfold Phi3.TransformerBlock_call.
  pose proof (phi3_attention_fresh_cache (Phi3.self_attn b)
                (RMSNorm_call3 (Phi3.input_layernorm b) x) mask rope) as E.
  destruct (Phi3.Attention_call _ _ _ _ (Some _)) as [r1 c1].
  destruct (Phi3.Attention_call _ _ _ _ None) as [r2 c2].
  cbn [fst] in E. subst r2. destruct r1; reflexivity.
Qed.

Lemma qwen3_block_fresh_cache (b : Qwen3.TransformerBlock) x mask rope :
  fst (Qwen3.TransformerBlock_call b x mask rope (Some {| history := None |}))
  = fst (Qwen3.TransformerBlock_call b x mask rope None).
Proof.
  unfold Qwen3.TransformerBlock_call.
  pose proof (qwen3_attention_fresh_cache (Qwen3.self_attn b)
                (RMSNorm_call3 (Qwen3.input_layernorm b) x) mask rope) as E.
  destruct (Qwen3.Attention_call _ _ _ _ (Some _)) as [r1 c1].
  destruct (Qwen3.Attention_call _ _ _ _ None) as [r2 c2].
  cbn [fst] in E. subst r2. destruct r1; reflexivity.
Qed.

Lemma nth_error_Forall2 {A B} (R : A -> B -> Prop) (l1 : list A) (l2 : list B) i :
  Forall2 R l1 l2 ->
  match nth_error l1 i, nth_error l2 i with
  | Some a, Some b => R a b
  | None, None => True
  | _, _ => False
  end.
Proof.
  intros Hall. revert i. induction Hall as [|a b l1 l2 Hab _ IH]; intros [|i]; cbn; auto.
  apply IH.
Qed.

Lemma phi3_run_layers_fresh ls : forall i x mask rope (c1 c2 : list (option (KVCache T))),
  length c1 = length c2 ->
  (forall j, (i <= j)%nat ->
     match nth_error c1 j, nth_error c2 j with
     | Some a, Some b => (a = None \/ a = Some {| history := None |})
                         /\ (b = None \/ b = Some {| history := None |})
     | None, None => True
     | _, _ => False
     end) ->
  fst (Phi3.run_layers ls i x mask rope c1) = fst (Phi3.run_layers ls i x mask rope c2).
Proof.
  induction ls as [|layer rest IH]; intros i x mask rope c1 c2 Hlen Hfresh;
    [reflexivity|].
  cbn [Phi3.run_layers]. pose proof (Hfresh i (le_n i)) as Hi.
  destruct (nth_error c1 i) as [a|] eqn:E1; destruct (nth_error c2 i) as [b|] eqn:E2;
    try contradiction; [|reflexivity].
  assert (E : fst (Phi3.TransformerBlock_call layer x mask rope a)
              = fst (Phi3.TransformerBlock_call layer x mask rope b)).
  { destruct Hi as [[-> | ->] [-> | ->]]; try reflexivity;
      [symmetry|]; apply phi3_block_fresh_cache. }
  destruct (Phi3.TransformerBlock_call layer x mask rope a) as [r1 a'].
  destruct (Phi3.TransformerBlock_call layer x mask rope b) as [r2 b'].
  cbn [fst] in E. subst r2. cbv zeta. destruct r1 as [e|x']; [reflexivity|].
  assert (H1 : (i < length c1)%nat) by (apply nth_error_Some; congruence).
  assert (H2 : (i < length c2)%nat) by (apply nth_error_Some; congruence).
  apply IH.
  - now rewrite !length_set_nth.
  - intros j Hj. rewrite !nth_error_set_nth by assumption.
    replace (j =? i)%nat with false by (symmetry; apply Nat.eqb_neq; lia).
    apply Hfresh. lia.
Qed.

Lemma qwen3_run_layers_fresh ls : forall i x mask rope (c1 c2 : list (option (KVCache T))),
  length c1 = length c2 ->
  (forall j, (i <= j)%nat ->
     match nth_error c1 j, nth_error c2 j with
     | Some a, Some b => (a = None \/ a = Some {| history := None |})
                         /\ (b = None \/ b = Some {| history := None |})
     | None, None => True
     | _, _ => False
     end) ->
  fst (Qwen3.run_layers ls i x mask rope c1) = fst (Qwen3.run_layers ls i x mask rope c2).
Proof.
  induction ls as [|layer rest IH]; intros i x mask rope c1 c2 Hlen Hfresh;
    [reflexivity|].
  cbn [Qwen3.run_layers]. pose proof (Hfresh i (le_n i)) as Hi.
  destruct (nth_error c1 i) as [a|] eqn:E1; destruct (nth_error c2 i) as [b|] eqn:E2;
    try contradiction; [|reflexivity].
  assert (E : fst (Qwen3.TransformerBlock_call layer x mask rope a)
              = fst (Qwen3.TransformerBlock_call layer x mask rope b)).
  { destruct Hi as [[-> | ->] [-> | ->]]; try reflexivity;
      [symmetry|]; apply qwen3_block_fresh_cache. }
  destruct (Qwen3.TransformerBlock_call layer x mask rope a) as [r1 a'].
  destruct (Qwen3.TransformerBlock_call layer x mask rope b) as [r2 b'].
  cbn [fst] in E. subst r2. cbv zeta. destruct r1 as [e|x']; [reflexivity|].
  assert (H1 : (i < length c1)%nat) by (apply nth_error_Some; congruence).
  assert (H2 : (i < length c2)%nat) by (apply nth_error_Some; congruence).
  apply IH.
  - now rewrite !length_set_nth.
  - intros j Hj. rewrite !nth_error_set_nth by assumption.
    replace (j =? i)%nat with false by (symmetry; apply Nat.eqb_neq; lia).
    apply Hfresh. lia.
Qed.

(** X16.  A first call does not depend on whether caches are handed to it.
    For any model of either variant, any token ids, mask and rotary table:
    the call returns the same result (the same logits, or the same
    exception) for two cache lists of the same length whose entries are
    each either absent or a cache without history. *)
Theorem first_call_ignores_fresh_caches
        (pm : Phi3.Phi3ForCausalLM) (qm : Qwen3.Qwen3ForCausalLM)
        (ids : list (list Z)) (mask : tensor4 T) (rope : mat T * mat T)
        (c1 c2 : list (option (KVCache T))) :
  fresh_alike c1 c2 ->
  fst (Phi3.Phi3ForCausalLM_call pm ids mask rope c1)
  = fst (Phi3.Phi3ForCausalLM_call pm ids mask rope c2)
  /\ fst (Qwen3.Qwen3ForCausalLM_call qm ids mask rope c1)
     = fst (Qwen3.Qwen3ForCausalLM_call qm ids mask rope c2).
Proof.
  intros Hfresh.
  assert (Hlen : length c1 = length c2) by (eapply Forall2_length; exact Hfresh).
  assert (Hnth : forall j, (0 <= j)%nat ->
            match nth_error c1 j, nth_error c2 j with
            | Some a, Some b => (a = None \/ a = Some {| history := None |})
                                /\ (b = None \/ b = Some {| history := None |})
            | None, None => True
            | _, _ => False
            end)
    by (intros j _; apply (nth_error_Forall2 _ c1 c2 j Hfresh)).
  split.
  - unfold Phi3.Phi3ForCausalLM_call, Phi3.Phi3Model_call.
    pose proof (phi3_run_layers_fresh (Phi3.layers (Phi3.model pm)) 0
                  (Embed_call (Phi3.embed_tokens (Phi3.model pm)) ids) mask rope
                  c1 c2 Hlen Hnth) as E.
    destruct (Phi3.run_layers _ _ _ _ _ c1) as [r1 d1].
    destruct (Phi3.run_layers _ _ _ _ _ c2) as [r2 d2].
    cbn [fst] in E. subst r2. destruct r1 as [e|x]; [reflexivity|].
    destruct (Phi3.tie pm); [reflexivity|]. destruct (Phi3.lm_head pm); reflexivity.
  - unfold Qwen3.Qwen3ForCausalLM_call, Qwen3.Qwen3Model_call.
    pose proof (qwen3_run_layers_fresh (Qwen3.layers (Qwen3.model qm)) 0
                  (Embed_call (Qwen3.embed_tokens (Qwen3.model qm)) ids) mask rope
                  c1 c2 Hlen Hnth) as E.
    destruct (Qwen3.run_layers _ _ _ _ _ c1) as [r1 d1].
    destruct (Qwen3.run_layers _ _ _ _ _ c2) as [r2 d2].
    cbn [fst] in E. subst r2. destruct r1 as [e|x]; [reflexivity|].
    destruct (Qwen3.tie qm); [reflexivity|]. destruct (Qwen3.lm_head qm); reflexivity.
Qed.
End FreshCache.

(** ** Finite attention outputs *)

Section FiniteOutputs.
Local Open Scope nat_scope.

Lemma fin2_firstn n (m : mat xreal) : fin2 m -> fin2 (firstn n m).
Proof.
  intros Hm. apply Forall_forall. intros r Hr.
  exact (proj1 (Forall_forall _ _) Hm r (in_firstn n m r Hr)).
Qed.

Lemma repeat_each_in {A} (n : nat) (l : list A) (g : A) :
  In g (repeat_each n l) -> In g l.
Proof.
  unfold repeat_each. intros Hg. apply in_flat_map in Hg.
  destruct Hg as (y & Hy & Hg). apply repeat_spec in Hg. now subst.
Qed.

Lemma fin1_concat (m : mat xreal) : fin2 m -> fin1 (concat m).
Proof.
  intros Hm. induction Hm as [|r m Hr _ IH]; [constructor|].
  cbn. now apply fin1_app.
Qed.

(** The only row of a head run on one query against [n + 1] finite keys and
    values under a mask row of zeros is finite. *)
Lemma step_head_row_fin (scale : xreal) (q : vec xreal) (K V : mat xreal) (n : nat) :
  is_fin scale -> fin1 q -> fin2 K -> fin2 V ->
  length K = S n -> 1 <= ncols K ->
  fin1 (nth 0 (sdpa_head scale [repeat (Fin 0%R) (S n)] [q] K V) []).
Proof.
  intros Hs Fq FK FV LK Hc.
  unfold sdpa_head. rewrite !matmul_rows. cbn [map bzip nth].
  rewrite lin_row_swapaxes by exact Hc.
  change (map (fun e => smul e scale)
              (map (fun kr => dot q (fit (ncols K) kr)) K))
    with (raw_row scale K q).
  change (@sadd xreal _) with xadd.
  rewrite bzip_same_length
    by (rewrite length_raw_row, repeat_length; exact LK).
  set (st := zipWith xadd (raw_row scale K q) (repeat (Fin 0%R) (S n))).
  assert (Fst : fin1 st).
  { unfold st. apply fin1_zipWith; [exact is_fin_xadd | |].
    - now apply fin1_raw_row.
    - unfold fin1. apply Forall_forall. intros e He.
      apply repeat_spec in He. now subst. }
  assert (Nst : st <> []).
  { intros E. assert (Hl : length st = 0) by (now rewrite E).
    unfold st in Hl. rewrite length_zipWith, length_raw_row, repeat_length, LK in Hl.
    lia. }
  destruct (softmax_prefix 0 Fst Nst) as (ps & Eps & _ & _).
  rewrite Eps. apply fin1_lin_row; [exact FV | apply fin1_map_Fin].
Qed.

(** Every row of a head under the causal mask is finite. *)
Lemma head_row_fin (scale : xreal) (qh kh vh : mat xreal) (L t : nat) :
  is_fin scale -> fin2 qh -> fin2 kh -> fin2 vh ->
  length qh = L -> length kh = L -> length vh = L ->
  t < L -> 1 <= ncols kh ->
  fin1 (nth t (sdpa_head scale (map (causal_row L) (seq 0 L)) qh kh vh) []).
Proof.
  intros Hs Fq Fk Fv Lq Lk Lv Ht Hc.
  rewrite (@head_prefix scale qh kh vh L t) by assumption.
  apply step_head_row_fin; try assumption.
  - now apply fin1_nth.
  - now apply fin2_firstn.
  - now apply fin2_firstn.
  - rewrite length_firstn. lia.
  - now rewrite ncols_firstn.
Qed.
End FiniteOutputs.

(** ** A layer in row form agrees with its token-by-token run *)

Section RowAgree.
Local Open Scope nat_scope.
Variables (nh nkv rep : nat).
Variables (fq fk : nat -> vec xreal * vec xreal -> vec xreal -> vec xreal).
Variable (fv : nat -> vec xreal -> vec xreal).
Variables (scale : xreal) (o : Linear xreal).
Variables (cos sin : mat xreal) (L : nat).

Local Abbreviation cs := (combine cos sin).
Local Abbreviation Mc := (map (causal_row L) (seq 0 L)).
Local Abbreviation Fb := (full_batch nh nkv rep fq fk fv scale o cs L Mc).

Hypothesis HLpos : 1 <= L.
Hypothesis Hcos : length cos = L.
Hypothesis Hsin : length sin = L.
Hypothesis Hnh : 1 <= nh.
Hypothesis Hnkv : 1 <= nkv.
Hypothesis Hrep : 1 <= rep.
Hypothesis Hscale : is_fin scale.
Hypothesis Ho : fin2 (kernel o).
Hypothesis Hfq : forall h c r, In c cs -> fin1 r -> fin1 (fq h c r).
Hypothesis Hfk : forall h c r, In c cs -> fin1 r -> fin1 (fk h c r).
Hypothesis Hfv : forall h r, fin1 r -> fin1 (fv h r).
Hypothesis Hkne : forall h c r, h < nkv -> In c cs -> fk h c r <> [].

Lemma length_heads (f : nat -> vec xreal * vec xreal -> vec xreal -> vec xreal) h xb :
  length xb = L -> length (zipWith (f h) cs xb) = L.
Proof.
  intros Lx. rewrite length_zipWith, length_combine, Hcos, Hsin, Lx.
  now rewrite !Nat.min_id.
Qed.

Lemma fin2_heads (f : nat -> vec xreal * vec xreal -> vec xreal -> vec xreal) h xb :
  (forall h c r, In c cs -> fin1 r -> fin1 (f h c r)) ->
  fin2 xb -> fin2 (zipWith (f h) cs xb).
Proof.
  intros Hf Fx. apply Forall_forall. intros v Hv.
  apply in_zipWith in Hv. destruct Hv as (c & r & Hc & Hr & ->).
  apply Hf; [exact Hc|]. exact (proj1 (Forall_forall _ _) Fx r Hr).
Qed.

Lemma ncols_keys h xb : h < nkv -> length xb = L -> 1 <= ncols (zipWith (fk h) cs xb).
Proof.
  intros Hh Lx.
  assert (Lc : length cs = L) by (rewrite length_combine, Hcos, Hsin; apply Nat.min_id).
  destruct cs as [|c0 cl] eqn:Ecs; [simpl in Lc; lia|].
  destruct xb as [|r0 xl]; [simpl in Lx; lia|].
  unfold ncols. cbn [zipWith hd].
  assert (Hne : fk h c0 r0 <> []) by (apply Hkne; [exact Hh | now left]).
  destruct (fk h c0 r0); [contradiction | simpl; lia].
Qed.

(** The output of a batch entry of finite rows is finite. *)
Lemma fin2_full_batch xb : fin2 xb -> length xb = L -> fin2 (Fb xb).
Proof.
  intros Fx Lx. apply Forall_forall. intros row Hrow.
  destruct (In_nth _ _ [] Hrow) as (t & Ht & <-).
  unfold full_batch in Ht. rewrite length_attend_batch in Ht.
  unfold full_batch. rewrite (@nth_attend_batch _ _ L) by exact Ht.
  apply fin1_lin_row; [exact Ho|]. apply fin1_concat.
  unfold fin2. apply Forall_map.
  unfold rot_heads, val_heads. rewrite !repeat_each_map.
  rewrite zipWith3_maps. apply Forall_forall. intros hm Hhm.
  apply in_zipWith in Hhm. destruct Hhm as (h & g & Hh & Hg & ->).
  apply repeat_each_in, in_seq in Hg.
  apply head_row_fin; try assumption.
  - now apply fin2_heads.
  - now apply fin2_heads.
  - apply Forall_map. eapply Forall_impl; [|exact Fx]. intros r Hr. now apply Hfv.
  - now apply length_heads.
  - now apply length_heads.
  - now rewrite length_map.
  - apply ncols_keys; [lia | exact Lx].
Qed.

Lemma in_combine_firstn (P : nat) (c : vec xreal * vec xreal) :
  In c (combine (firstn P cos) (firstn P sin)) -> In c cs.
Proof. rewrite <- combine_firstn. apply in_firstn. Qed.

Lemma heads_firstn (f : nat -> vec xreal * vec xreal -> vec xreal -> vec xreal)
      (P h : nat) (xb : mat xreal) :
  zipWith (f h) (combine (firstn P cos) (firstn P sin)) (firstn P xb)
  = firstn P (zipWith (f h) cs xb).
Proof. now rewrite <- combine_firstn, firstn_zipWith. Qed.

(** The conditions of the lemmas on layers in row form, for one batch
    entry and for the first [P] positions of it. *)
Lemma row_conditions (x : tensor3 xreal) (P : nat) :
  (forall xb r, In xb x -> In r xb -> fin1 r) ->
  (forall h c xb r, In c (combine (firstn P cos) (firstn P sin)) ->
                    In xb (map (firstn P) x) -> In r xb -> fin1 (fq h c r))
  /\ (forall h c xb r, In c (combine (firstn P cos) (firstn P sin)) ->
                       In xb (map (firstn P) x) -> In r xb -> fin1 (fk h c r))
  /\ (forall h xb r, In xb (map (firstn P) x) -> In r xb -> fin1 (fv h r))
  /\ (forall h c xb r, h < nkv -> In c (combine (firstn P cos) (firstn P sin)) ->
                       In xb (map (firstn P) x) -> In r xb -> fk h c r <> []).
Proof.
  intros Hrow.
  assert (Hfin : forall xb r, In xb (map (firstn P) x) -> In r xb -> fin1 r).
  { intros xb r Hxb Hr. apply in_map_iff in Hxb. destruct Hxb as (xb0 & <- & Hxb0).
    apply (Hrow xb0); [exact Hxb0 | now apply in_firstn in Hr]. }
  repeat split.
  - intros h c xb r Hc Hxb Hr. apply Hfq; [now apply (in_combine_firstn P) | now apply (Hfin xb)].
  - intros h c xb r Hc Hxb Hr. apply Hfk; [now apply (in_combine_firstn P) | now apply (Hfin xb)].
  - intros h xb r Hxb Hr. apply Hfv. now apply (Hfin xb).
  - intros h c xb r Hh Hc _ _. apply Hkne; [exact Hh | now apply (in_combine_firstn P)].
Qed.

Lemma firstn_full (l : mat xreal) : length l = L -> firstn L l = l.
Proof. intros <-. apply firstn_all. Qed.

(** The output of the first [P] positions of a batch entry is the first
    [P] positions of its output. *)
Lemma full_batch_prefix (P : nat) (xb : mat xreal) :
  1 <= P <= L -> fin2 xb -> length xb = L ->
  full_batch nh nkv rep fq fk fv scale o (combine (firstn P cos) (firstn P sin)) P
             (map (causal_row P) (seq 0 P)) (firstn P xb)
  = firstn P (Fb xb).
Proof.
  intros HP Fx Lx.
  assert (Hrow : forall xb0 r, In xb0 [xb] -> In r xb0 -> fin1 r).
  { intros xb0 r [<-|[]] Hr. exact (proj1 (Forall_forall _ _) Fx r Hr). }
  destruct (row_conditions [xb] P Hrow) as (Gq' & Gk' & Gv' & Gne').
  destruct (row_conditions [xb] L Hrow) as (Gq & Gk & Gv & Gne).
  cbn [map] in Gq, Gk, Gv, Gne.
  rewrite (firstn_full xb Lx) in Gq, Gk, Gv, Gne.
  rewrite (firstn_full cos Hcos), (firstn_full sin Hsin) in Gq, Gk, Gne.
  apply (nth_ext _ _ [] []).
  - unfold full_batch. rewrite length_firstn, !length_attend_batch. lia.
  - intros t Ht. unfold full_batch in Ht. rewrite length_attend_batch in Ht.
    rewrite nth_firstn.
    replace (t <? P) with true by (symmetry; now apply Nat.ltb_lt).
    assert (HLP : Forall (fun xb0 : mat xreal => length xb0 = P) (map (firstn P) [xb])).
    { cbn [map]. constructor; [|constructor]. rewrite length_firstn. lia. }
    assert (HLL : Forall (fun xb0 : mat xreal => length xb0 = L) [xb])
      by (constructor; [exact Lx | constructor]).
    pose proof (step_rows nh nkv rep fq fk fv scale o (firstn P cos) (firstn P sin)
                  (map (firstn P) [xb]) P HLP ltac:(lia)
                  ltac:(rewrite length_firstn; lia) ltac:(rewrite length_firstn; lia)
                  Hnh Hnkv Hrep Hscale Gq' Gk' Gv' Gne' (firstn P xb) t
                  ltac:(now left) Ht) as E1.
    pose proof (step_rows nh nkv rep fq fk fv scale o cos sin [xb] L HLL HLpos
                  Hcos Hsin Hnh Hnkv Hrep Hscale Gq Gk Gv Gne xb t
                  ltac:(now left) ltac:(lia)) as E2.
    assert (E : [nth t (full_batch nh nkv rep fq fk fv scale o
                          (combine (firstn P cos) (firstn P sin)) P
                          (map (causal_row P) (seq 0 P)) (firstn P xb)) []]
                = [nth t (Fb xb) []]).
    { rewrite <- E1, <- E2.
      rewrite !nth_firstn.
      replace (t <? P) with true by (symmetry; now apply Nat.ltb_lt).
      unfold rot_heads, val_heads. rewrite !map_map.
      f_equal; f_equal.
      - apply map_ext. intros h. rewrite heads_firstn, firstn_firstn.
        f_equal. lia.
      - apply map_ext. intros h. rewrite <- firstn_map, firstn_firstn.
        f_equal. lia. }
    now inversion E.
Qed.

Lemma row_call_steps_agree :
  steps_agree (row_call nh nkv rep fq fk fv scale o) L (cos, sin).
Proof.
  exists Fb. intros x Hx. pose proof Hx as (Hne & HL & _ & Hfin).
  assert (Hrow : forall xb r, In xb x -> In r xb -> fin1 r)
    by (intros xb r; apply (input_row_fin x L xb r Hx)).
  assert (Gq : forall h c xb r, In c cs -> In xb x -> In r xb -> fin1 (fq h c r))
    by (intros h c xb r Hc Hxb Hr; apply Hfq; [exact Hc | now apply (Hrow xb)]).
  assert (Gk : forall h c xb r, In c cs -> In xb x -> In r xb -> fin1 (fk h c r))
    by (intros h c xb r Hc Hxb Hr; apply Hfk; [exact Hc | now apply (Hrow xb)]).
  assert (Gv : forall h xb r, In xb x -> In r xb -> fin1 (fv h r))
    by (intros h xb r Hxb Hr; apply Hfv; now apply (Hrow xb)).
  assert (Gne : forall h c xb r, h < nkv -> In c cs -> In xb x -> In r xb -> fk h c r <> [])
    by (intros h c xb r Hh Hc _ _; now apply Hkne).
  exists (cache_at nkv fk fv cs x).
  split; [reflexivity|]. split; [|split; [|split]].
  - exact (row_full nh nkv rep fq fk fv scale o cos sin x L
             Hne HL HLpos Hcos Hsin Hnh Hnkv Hrep Gq Gk Gv Gne).
  - intros t Ht.
    rewrite (row_step nh nkv rep fq fk fv scale o cos sin x L
               Hne HL HLpos Hcos Hsin Hnh Hnkv Hrep Hscale Gq Gk Gv Gne t Ht).
    unfold step_input. now rewrite map_map.
  - intros P HP.
    destruct (row_conditions x P Hrow) as (Gq' & Gk' & Gv' & Gne').
    assert (Hne' : map (firstn P) x <> []) by (destruct x; [contradiction | discriminate]).
    assert (HL' : Forall (fun xb : mat xreal => length xb = P) (map (firstn P) x)).
    { apply Forall_map. eapply Forall_impl; [|exact HL]. intros xb Lx.
      cbv beta in Lx |- *. rewrite length_firstn, Lx. lia. }
    pose proof (row_full nh nkv rep fq fk fv scale o (firstn P cos) (firstn P sin)
                  (map (firstn P) x) P Hne' HL' ltac:(lia)
                  ltac:(rewrite length_firstn; lia) ltac:(rewrite length_firstn; lia)
                  Hnh Hnkv Hrep Gq' Gk' Gv' Gne') as Efull.
    unfold prefix_input, prefix_rope. cbn [fst snd].
    unfold row_call, row_heads in *.
    cbn [fst snd consult_cache KVCache_call history] in *.
    inversion Efull as [Eout]. rewrite Eout. f_equal.
    + f_equal. rewrite !map_map. apply map_ext_in. intros xb Hxb.
      apply full_batch_prefix; [exact HP | |].
      * exact (proj1 (Forall_forall _ _) Hfin xb Hxb).
      * exact (proj1 (Forall_forall _ _) HL xb Hxb).
    + unfold cache_at.
      destruct P as [|p]; [lia|]. do 3 f_equal. unfold rot_heads, val_heads.
      rewrite !map_map. f_equal.
      * apply map_ext. intros xb. rewrite map_map. apply map_ext. intros h.
        apply heads_firstn.
      * apply map_ext. intros xb. rewrite map_map. apply map_ext. intros h.
        now rewrite firstn_map.
  - split; [|split; [|split]].
    + destruct x; [contradiction | discriminate].
    + apply Forall_map. apply Forall_forall. intros xb _. apply length_attend_batch.
    + exact HLpos.
    + unfold fin3. apply Forall_map. apply Forall_forall. intros xb Hxb.
      apply fin2_full_batch.
      * exact (proj1 (Forall_forall _ _) Hfin xb Hxb).
      * exact (proj1 (Forall_forall _ _) HL xb Hxb).
Qed.
End RowAgree.

(** ** The two attention layers agree with their token-by-token runs *)

Section AttentionAgree.
Local Open Scope nat_scope.

Lemma steps_agree_ext (f g : layer_fn) (L : nat) (rope : mat xreal * mat xreal) :
  (forall x mask r c, f x mask r c = g x mask r c) ->
  steps_agree g L rope -> steps_agree f L rope.
Proof.
  intros E [F HF]. exists F. intros x Hx.
  destruct (HF x Hx) as (cs & H0 & Hfull & Hstep & Hpre & Hy).
  exists cs. split; [exact H0|]. split; [now rewrite E|].
  split; [|split; [|exact Hy]].
  - intros t Ht. rewrite E. now apply Hstep.
  - intros P HP. rewrite E. now apply Hpre.
Qed.

Lemma phi3_attention_steps_agree (a : Phi3.Attention) (L : nat)
      (rope : mat xreal * mat xreal) :
  phi3_layer_ok a -> linear_fin (Phi3.o_proj a) -> (1 <= L) ->
  rope_ok (Z.to_nat (Phi3.rot_dims a) / 2) L rope ->
  steps_agree (Phi3.Attention_call a) L rope.
Proof.
  intros Ha Ho HL Hr. destruct rope as [cos sin].
  pose proof Ha as (Hh & Hkv & Hd & Hrd & Hs & Hk).
  pose proof Hr as (Lc & Ls & _). cbn [fst snd] in Lc, Ls.
  assert (Hok : phi3_heads_ok a) by (right; exact Hkv).
  apply (steps_agree_ext _
           (row_call (Z.to_nat (Phi3.n_heads a)) (Z.to_nat (Phi3.n_kv_heads a))
                     (phi3_rep a) (phi3_fq a) (phi3_fk a) (phi3_fv a)
                     (Phi3.scale a) (Phi3.o_proj a))).
  { intros x mask r c. now apply phi3_row_form. }
  apply row_call_steps_agree; try assumption; try lia.
  - unfold phi3_rep.
    destruct (Z.gtb_spec (Phi3.n_heads a) (Phi3.n_kv_heads a)) as [Hgt|Hle]; [|lia].
    assert (1 <= Phi3.n_heads a / Phi3.n_kv_heads a)%Z
      by (apply Z.div_le_lower_bound; lia).
    lia.
  - intros h c r Hc Hrow.
    destruct (rope_row _ _ _ _ c Hr Hc) as (Fc & Fs & _ & _).
    unfold phi3_fq, phi3_q_row. apply fin1_rotate; try assumption.
    apply fin1_chunk, fin1_firstn, fin1_lin_row; [apply Hk | exact Hrow].
  - intros h c r Hc Hrow.
    destruct (rope_row _ _ _ _ c Hr Hc) as (Fc & Fs & _ & _).
    unfold phi3_fk, phi3_k_row, slice. apply fin1_rotate; try assumption.
    apply fin1_chunk, fin1_skipn, fin1_firstn, fin1_lin_row; [apply Hk | exact Hrow].
  - intros h r Hrow.
    unfold phi3_fv, phi3_v_row.
    apply fin1_chunk, fin1_skipn, fin1_lin_row; [apply Hk | exact Hrow].
  - intros h c r Hh' Hc.
    destruct (rope_row _ _ _ _ c Hr Hc) as (_ & _ & Lcc & Lsc).
    unfold phi3_fk.
    assert (Hlen : length (nth h (chunks (Z.to_nat (Phi3.head_dim a))
                                         (Z.to_nat (Phi3.n_kv_heads a))
                                         (phi3_k_row a r)) [])
                   = Z.to_nat (Phi3.head_dim a)).
    { apply length_nth_chunks; [now apply phi3_k_row_length | exact Hh']. }
    apply rotate_nonempty; rewrite ?Hlen; try assumption; lia.
Qed.

Lemma qwen3_attention_steps_agree (a : Qwen3.Attention) (L : nat)
      (rope : mat xreal * mat xreal) :
  qwen3_layer_ok a -> linear_fin (Qwen3.o_proj a) -> (1 <= L) ->
  rope_ok (Z.to_nat (Qwen3.head_dim a) / 2) L rope ->
  steps_agree (Qwen3.Attention_call a) L rope.
Proof.
  intros Ha Ho HL Hr. destruct rope as [cos sin].
  pose proof Ha as (Hh & Hkv & Hd & Hs & Hq & Hk & Hv & Hqn & Hkn).
  pose proof Hr as (Lc & Ls & _). cbn [fst snd] in Lc, Ls.
  apply (steps_agree_ext _
           (row_call (Z.to_nat (Qwen3.num_attention_heads a))
                     (Z.to_nat (Qwen3.num_kv_heads a))
                     (qwen3_rep a) (qwen3_fq a) (qwen3_fk a) (qwen3_fv a)
                     (Qwen3.scale a) (Qwen3.o_proj a))).
  { intros x mask r c. apply qwen3_row_form. }
  apply row_call_steps_agree; try assumption; try lia.
  - unfold qwen3_rep. destruct (Z.gtb_spec (Qwen3.n_repeat a) 1); lia.
  - intros h c r Hc Hrow.
    destruct (rope_row _ _ _ _ c Hr Hc) as (Fc & Fs & _ & _).
    unfold qwen3_fq. cbv zeta. apply fin1_rotate; try assumption.
    apply (qwen3_normed_fin _ _ _ _ (Z.to_nat (Qwen3.head_dim a)));
      [exact Hqn | apply Hq | exact Hrow].
  - intros h c r Hc Hrow.
    destruct (rope_row _ _ _ _ c Hr Hc) as (Fc & Fs & _ & _).
    unfold qwen3_fk. cbv zeta. apply fin1_rotate; try assumption.
    apply (qwen3_normed_fin _ _ _ _ (Z.to_nat (Qwen3.head_dim a)));
      [exact Hkn | apply Hk | exact Hrow].
  - intros h r Hrow.
    unfold qwen3_fv. apply fin1_chunk, fin1_lin_row; [apply Hv | exact Hrow].
  - intros h c r Hh' Hc.
    destruct (rope_row _ _ _ _ c Hr Hc) as (_ & _ & Lcc & Lsc).
    unfold qwen3_fk. cbv zeta.
    pose proof (qwen3_key_length a h r Ha Hh') as Hlen.
    apply rotate_nonempty; rewrite ?Hlen; try assumption; lia.
Qed.
End AttentionAgree.

(** ** Position-wise operations and single positions *)

Section Positions.
Local Open Scope nat_scope.

Lemma step_input_map (g : vec xreal -> vec xreal) (x : tensor3 xreal) (L t : nat) :
  Forall (fun xb => length xb = L) x -> t < L ->
  step_input t (map (map g) x) = map (map g) (step_input t x).
Proof.
  intros HL Ht. unfold step_input. rewrite !map_map.
  apply map_ext_in. intros xb Hxb. cbn [map]. f_equal.
  apply (@nth_map_lt _ _ g xb t [] []).
  now rewrite (proj1 (Forall_forall _ _) HL xb Hxb).
Qed.

Lemma step_input_tadd3 (x h : tensor3 xreal) (L t : nat) :
  Forall (fun xb => length xb = L) x -> Forall (fun hb => length hb = L) h -> t < L ->
  step_input t (tadd3 x h) = tadd3 (step_input t x) (step_input t h).
Proof.
  intros Hx Hh Ht. unfold step_input, tadd3.
  rewrite map_zipWith, zipWith_map_l, zipWith_map_r.
  apply zipWith_ext_in. intros xb hb Hxb Hhb. cbn [zipWith]. f_equal.
  apply (@nth_zipWith_lt _ _ _ vadd xb hb t [] [] []).
  - now rewrite (proj1 (Forall_forall _ _) Hx xb Hxb).
  - now rewrite (proj1 (Forall_forall _ _) Hh hb Hhb).
Qed.

Lemma prefix_input_map {T} (g : vec T -> vec T) (P : nat) (x : tensor3 T) :
  prefix_input P (map (map g) x) = map (map g) (prefix_input P x).
Proof.
  unfold prefix_input. rewrite !map_map. apply map_ext. intros xb. apply firstn_map.
Qed.

Lemma prefix_input_tadd3 (P : nat) (x h : tensor3 xreal) :
  prefix_input P (tadd3 x h) = tadd3 (prefix_input P x) (prefix_input P h).
Proof.
  unfold prefix_input, tadd3.
  rewrite map_zipWith, zipWith_map_l, zipWith_map_r.
  apply zipWith_ext. intros xb hb. apply firstn_zipWith.
Qed.

Lemma input_ok_map (g : vec xreal -> vec xreal) (x : tensor3 xreal) (L : nat) :
  (forall r, fin1 r -> fin1 (g r)) -> input_ok x L -> input_ok (map (map g) x) L.
Proof.
  intros Hg (Hne & HL & HLpos & Hfin). split; [|split; [|split]].
  - destruct x; [contradiction | discriminate].
  - apply Forall_map. eapply Forall_impl; [|exact HL]. intros xb Hxb.
    now rewrite length_map.
  - exact HLpos.
  - unfold fin3. apply Forall_map. eapply Forall_impl; [|exact Hfin]. intros xb Hxb.
    unfold fin2. apply Forall_map. eapply Forall_impl; [|exact Hxb]. exact Hg.
Qed.

Lemma input_ok_tadd3 (x h : tensor3 xreal) (L : nat) :
  input_ok x L -> input_ok h L -> length h = length x ->
  input_ok (tadd3 x h) L /\ length (tadd3 x h) = length x.
Proof.
  intros (Hne & HL & HLpos & Hfin) (Hne' & HL' & _ & Hfin') Hlen.
  split; [split; [|split; [|split]]|].
  - destruct x; [contradiction|]. destruct h; [contradiction | discriminate].
  - apply Forall_forall. intros yb Hyb. unfold tadd3 in Hyb. apply in_zipWith in Hyb.
    destruct Hyb as (xb & hb & Hxb & Hhb & ->).
    rewrite length_zipWith, (proj1 (Forall_forall _ _) HL xb Hxb),
      (proj1 (Forall_forall _ _) HL' hb Hhb).
    apply Nat.min_id.
  - exact HLpos.
  - apply Forall_forall. intros yb Hyb. unfold tadd3 in Hyb. apply in_zipWith in Hyb.
    destruct Hyb as (xb & hb & Hxb & Hhb & ->).
    apply Forall_forall. intros r Hr. apply in_zipWith in Hr.
    destruct Hr as (rx & rh & Hrx & Hrh & ->).
    apply fin1_zipWith; [exact is_fin_xadd | |].
    + exact (proj1 (Forall_forall _ _) (proj1 (Forall_forall _ _) Hfin xb Hxb) rx Hrx).
    + exact (proj1 (Forall_forall _ _) (proj1 (Forall_forall _ _) Hfin' hb Hhb) rh Hrh).
  - unfold tadd3. rewrite length_zipWith, Hlen. apply Nat.min_id.
Qed.

Lemma norm_fin_row (n : RMSNorm xreal) (r : vec xreal) :
  norm_fin n -> fin1 r -> fin1 (rms_row n r).
Proof.
  intros (Hsc & He) Hr. apply (fin1_rms_row (length (rms_scale n))); [|exact Hr].
  split; [reflexivity|]. now split.
Qed.

Lemma is_fin_silu (e : xreal) : is_fin e -> is_fin (silu e).
Proof.
  destruct e as [r| | |]; try contradiction. intros _.
  unfold silu, sigmoid. cbn.
  assert (Hpos : (0 < 1 + exp (- r))%R) by (pose proof (exp_pos (- r)); lra).
  destruct (Req_dec_T (1 + exp (- r)) 0) as [E|_]; [lra | exact I].
Qed.

Lemma phi3_mlp_row_fin (m : Phi3.MLP) (r : vec xreal) :
  linear_fin (Phi3.gate_up_proj m) -> linear_fin (Phi3.down_proj m) -> fin1 r ->
  fin1 (let u := lin_row (kernel (Phi3.gate_up_proj m)) r in
        lin_row (kernel (Phi3.down_proj m))
                (vmul (map silu (firstn (length u / 2) u)) (skipn (length u / 2) u))).
Proof.
  intros Hg Hd Hr. cbv zeta.
  assert (Hu : fin1 (lin_row (kernel (Phi3.gate_up_proj m)) r))
    by (now apply fin1_lin_row).
  apply fin1_lin_row; [exact Hd|]. unfold vmul.
  apply fin1_zipWith; [exact is_fin_xmul | |].
  - unfold fin1. apply Forall_map. eapply Forall_impl; [|apply fin1_firstn; exact Hu].
    exact is_fin_silu.
  - now apply fin1_skipn.
Qed.

Lemma qwen3_mlp_row_fin (m : Qwen3.MLP) (r : vec xreal) :
  linear_fin (Qwen3.gate_proj m) -> linear_fin (Qwen3.up_proj m) ->
  linear_fin (Qwen3.down_proj m) -> fin1 r ->
  fin1 (lin_row (kernel (Qwen3.down_proj m))
                (vmul (map silu (lin_row (kernel (Qwen3.gate_proj m)) r))
                      (lin_row (kernel (Qwen3.up_proj m)) r))).
Proof.
  intros Hg Hu Hd Hr.
  apply fin1_lin_row; [exact Hd|]. unfold vmul.
  apply fin1_zipWith; [exact is_fin_xmul | |].
  - unfold fin1. apply Forall_map.
    eapply Forall_impl; [|apply fin1_lin_row; [exact Hg | exact Hr]].
    exact is_fin_silu.
  - now apply fin1_lin_row.
Qed.
End Positions.

(** ** A block agrees with its token-by-token run *)

Section BlockAgree.
Local Open Scope nat_scope.

Lemma tadd3_maps {A} (a b : A -> mat xreal) (l : list A) :
  tadd3 (map a l) (map b l) = map (fun e => zipWith vadd (a e) (b e)) l.
Proof. unfold tadd3. apply zipWith_same. Qed.

Lemma block_steps_agree (attn : layer_fn) (mlp : tensor3 xreal -> tensor3 xreal)
      (n1 n2 : RMSNorm xreal) (g : vec xreal -> vec xreal) (L : nat)
      (rope : mat xreal * mat xreal) :
  steps_agree attn L rope -> norm_fin n1 -> norm_fin n2 ->
  (forall x, mlp x = map (map g) x) -> (forall r, fin1 r -> fin1 (g r)) ->
  steps_agree (block_fn attn mlp n1 n2) L rope.
Proof.
  intros [Fa Ha] Hn1 Hn2 Hmlp Hg.
  exists (fun xb =>
            let x' := zipWith vadd xb (Fa (map (rms_row n1) xb)) in
            zipWith vadd x' (map g (map (rms_row n2) x'))).
  intros x Hx.
  assert (Hxn : input_ok (RMSNorm_call3 n1 x) L)
    by (apply input_ok_map; [intros r; now apply norm_fin_row | exact Hx]).
  destruct (Ha _ Hxn) as (cs & H0 & Hfull & Hstep & Hpre & Hh).
  set (h := map Fa (RMSNorm_call3 n1 x)) in *.
  assert (Hlen : length h = length x)
    by (unfold h, RMSNorm_call3; now rewrite !length_map).
  destruct (input_ok_tadd3 x h L Hx Hh Hlen) as [Hx' Hlen'].
  set (x' := tadd3 x h) in *.
  assert (Hm : input_ok (mlp (RMSNorm_call3 n2 x')) L).
  { rewrite Hmlp. apply input_ok_map; [exact Hg|].
    apply input_ok_map; [intros r; now apply norm_fin_row | exact Hx']. }
  assert (Hlm : length (mlp (RMSNorm_call3 n2 x')) = length x')
    by (rewrite Hmlp; unfold RMSNorm_call3; now rewrite !length_map).
  destruct (input_ok_tadd3 x' _ L Hx' Hm Hlm) as [Hy Hleny].
  assert (Ex' : x' = map (fun xb => zipWith vadd xb (Fa (map (rms_row n1) xb))) x).
  { unfold x', h, RMSNorm_call3. rewrite map_map.
    rewrite <- (map_id x) at 1. apply tadd3_maps. }
  assert (Ey : tadd3 x' (mlp (RMSNorm_call3 n2 x'))
               = map (fun xb =>
                        let x' := zipWith vadd xb (Fa (map (rms_row n1) xb)) in
                        zipWith vadd x' (map g (map (rms_row n2) x'))) x).
  { rewrite Hmlp. unfold RMSNorm_call3. rewrite Ex' at 1 2.
    rewrite !map_map. apply tadd3_maps. }
  rewrite <- Ey.
  exists cs.
  split; [exact H0|]. split; [|split; [|split]].
  - unfold block_fn. now rewrite Hfull.
  - intros t Ht. unfold block_fn.
    pose proof Hx as (_ & HLx & _). pose proof Hh as (_ & HLh & _).
    pose proof Hx' as (_ & HLx' & _). pose proof Hm as (_ & HLm & _).
    unfold RMSNorm_call3 at 1.
    rewrite <- (step_input_map (rms_row n1) x L t HLx Ht).
    fold (RMSNorm_call3 n1 x). rewrite (Hstep t Ht).
    unfold ok at 1. cbv beta iota zeta.
    rewrite <- (step_input_tadd3 x h L t HLx HLh Ht). fold x'.
    f_equal. f_equal.
    rewrite (step_input_tadd3 x' _ L t HLx' HLm Ht). f_equal.
    rewrite !Hmlp. unfold RMSNorm_call3.
    rewrite (step_input_map g _ L t); [|apply Forall_map;
      eapply Forall_impl; [|exact HLx']; intros xb Hxb; now rewrite length_map | exact Ht].
    now rewrite (step_input_map (rms_row n2) x' L t HLx' Ht).
  - intros P HP. unfold block_fn.
    unfold RMSNorm_call3 at 1.
    rewrite <- (prefix_input_map (rms_row n1) P x).
    fold (RMSNorm_call3 n1 x). rewrite (Hpre P HP).
    unfold ok at 1. cbv beta iota zeta.
    rewrite <- (prefix_input_tadd3 P x h). fold x'.
    f_equal. f_equal.
    rewrite prefix_input_tadd3. f_equal.
    rewrite !Hmlp. unfold RMSNorm_call3. now rewrite !prefix_input_map.
  - exact Hy.
Qed.

Lemma phi3_block_steps_agree (b : Phi3.TransformerBlock) (L : nat)
      (rope : mat xreal * mat xreal) :
  phi3_block_ok b -> 1 <= L ->
  rope_ok (Z.to_nat (Phi3.rot_dims (Phi3.self_attn b)) / 2) L rope ->
  steps_agree (Phi3.TransformerBlock_call b) L rope.
Proof.
  intros (Ha & Ho & Hgu & Hd & Hn1 & Hn2) HL Hr.
  apply (steps_agree_ext _
           (block_fn (Phi3.Attention_call (Phi3.self_attn b)) (Phi3.MLP_call (Phi3.mlp b))
                     (Phi3.input_layernorm b) (Phi3.post_attention_layernorm b))).
  { intros x mask r c. reflexivity. }
  eapply block_steps_agree.
  - now apply phi3_attention_steps_agree.
  - exact Hn1.
  - exact Hn2.
  - intros x. apply phi3_mlp_rows.
  - intros r Hrow. now apply phi3_mlp_row_fin.
Qed.

Lemma qwen3_block_steps_agree (b : Qwen3.TransformerBlock) (L : nat)
      (rope : mat xreal * mat xreal) :
  qwen3_block_ok b -> 1 <= L ->
  rope_ok (Z.to_nat (Qwen3.head_dim (Qwen3.self_attn b)) / 2) L rope ->
  steps_agree (Qwen3.TransformerBlock_call b) L rope.
Proof.
  intros (Ha & Ho & Hg & Hu & Hd & Hn1 & Hn2) HL Hr.
  apply (steps_agree_ext _
           (block_fn (Qwen3.Attention_call (Qwen3.self_attn b))
                     (Qwen3.MLP_call (Qwen3.mlp b))
                     (Qwen3.input_layernorm b) (Qwen3.post_attention_layernorm b))).
  { intros x mask r c. reflexivity. }
  eapply block_steps_agree.
  - now apply qwen3_attention_steps_agree.
  - exact Hn1.
  - exact Hn2.
  - intros x. apply qwen3_mlp_rows.
  - intros r Hrow. now apply qwen3_mlp_row_fin.
Qed.
End BlockAgree.

(** ** A stack of layers agrees with its token-by-token run *)

Section StackAgree.
Local Open Scope nat_scope.

Lemma nth_error_middle {A} (pre : list A) (c : A) (tl : list A) :
  nth_error (pre ++ c :: tl) (length pre) = Some c.
Proof.
  rewrite nth_error_app2 by lia. now rewrite Nat.sub_diag.
Qed.

Lemma set_nth_middle {A} (pre : list A) (c c' : A) (tl : list A) :
  set_nth (length pre) c' (pre ++ c :: tl) = pre ++ c' :: tl.
Proof.
  unfold set_nth.
  rewrite firstn_app, Nat.sub_diag, firstn_all, firstn_O, app_nil_r.
  rewrite skipn_app, skipn_all2 by lia.
  replace (S (length pre) - length pre) with 1 by lia.
  reflexivity.
Qed.

Lemma stack_steps_agree (L : nat) (rope : mat xreal * mat xreal) (fs : list layer_fn) :
  Forall (fun f => steps_agree f L rope) fs ->
  exists F : mat xreal -> mat xreal,
    forall x, input_ok x L ->
      exists cs : nat -> list (option (KVCache xreal)),
        cs 0 = repeat (Some {| history := None |}) (length fs)
        /\ (forall pre post,
              run_fns fs (length pre) x (causal_mask L) rope
                      (pre ++ repeat None (length fs) ++ post)
              = (ok (map F x), pre ++ repeat None (length fs) ++ post))
        /\ (forall t pre post, t < L ->
              run_fns fs (length pre) (step_input t x) (step_mask t) (step_rope t rope)
                      (pre ++ cs t ++ post)
              = (ok (step_input t (map F x)), pre ++ cs (S t) ++ post))
        /\ (forall P pre post, 1 <= P <= L ->
              run_fns fs (length pre) (prefix_input P x) (causal_mask P)
                      (prefix_rope P rope)
                      (pre ++ repeat (Some {| history := None |}) (length fs) ++ post)
              = (ok (prefix_input P (map F x)), pre ++ cs P ++ post))
        /\ input_ok (map F x) L.
Proof.
  induction fs as [|f rest IH]; intros Hall.
  - exists (fun xb => xb). intros x Hx. rewrite map_id.
    exists (fun _ => []). cbn [length repeat app run_fns].
    split; [reflexivity|]. split; [reflexivity|].
    split; [|split; [|exact Hx]]; reflexivity.
  - inversion Hall as [|? ? [F1 Hf] Hrest]; subst.
    destruct (IH Hrest) as [Fr Hr].
    exists (fun xb => Fr (F1 xb)). intros x Hx.
    destruct (Hf x Hx) as (c1 & H0 & Hfull & Hstep & Hpre & Hy1).
    destruct (Hr (map F1 x) Hy1) as (cs & Hc0 & Hrfull & Hrstep & Hrpre & Hy).
    rewrite map_map in Hrfull, Hrstep, Hrpre, Hy.
    exists (fun t => Some (c1 t) :: cs t).
    split; [cbn; now rewrite H0, Hc0|]. split; [|split; [|split]].
    + intros pre post. cbn [length repeat app run_fns].
      rewrite nth_error_middle, Hfull. cbv zeta.
      rewrite set_nth_middle. unfold ok at 1. cbv beta iota.
      specialize (Hrfull (pre ++ [None]) post).
      rewrite length_app in Hrfull. cbn [length] in Hrfull.
      rewrite Nat.add_1_r, <- !app_assoc in Hrfull. cbn [app] in Hrfull.
      exact Hrfull.
    + intros t pre post Ht. cbn [length app run_fns].
      rewrite nth_error_middle, (Hstep t Ht). cbv zeta.
      rewrite set_nth_middle. unfold ok at 1. cbv beta iota.
      specialize (Hrstep t (pre ++ [Some (c1 (S t))]) post Ht).
      rewrite length_app in Hrstep. cbn [length] in Hrstep.
      rewrite Nat.add_1_r, <- !app_assoc in Hrstep. cbn [app] in Hrstep.
      exact Hrstep.
    + intros P pre post HP. cbn [length repeat app run_fns].
      rewrite nth_error_middle, (Hpre P HP). cbv zeta.
      rewrite set_nth_middle. unfold ok at 1. cbv beta iota.
      specialize (Hrpre P (pre ++ [Some (c1 P)]) post HP).
      rewrite length_app in Hrpre. cbn [length] in Hrpre.
      rewrite Nat.add_1_r, <- !app_assoc in Hrpre. cbn [app] in Hrpre.
      exact Hrpre.
    + exact Hy.
Qed.

Lemma phi3_run_layers_fns (ls : list Phi3.TransformerBlock) :
  forall i x mask rope cache,
    Phi3.run_layers ls i x mask rope cache
    = run_fns (map Phi3.TransformerBlock_call ls) i x mask rope cache.
Proof.
  induction ls as [|b rest IH]; intros i x mask rope cache; [reflexivity|].
  cbn [map Phi3.run_layers run_fns].
  destruct (nth_error cache i) as [c|]; [|reflexivity].
  destruct (Phi3.TransformerBlock_call b x mask rope c) as [[e|x'] c']; [reflexivity|].
  apply IH.
Qed.

Lemma qwen3_run_layers_fns (ls : list Qwen3.TransformerBlock) :
  forall i x mask rope cache,
    Qwen3.run_layers ls i x mask rope cache
    = run_fns (map Qwen3.TransformerBlock_call ls) i x mask rope cache.
Proof.
  induction ls as [|b rest IH]; intros i x mask rope cache; [reflexivity|].
  cbn [map Qwen3.run_layers run_fns].
  destruct (nth_error cache i) as [c|]; [|reflexivity].
  destruct (Qwen3.TransformerBlock_call b x mask rope c) as [[e|x'] c']; [reflexivity|].
  apply IH.
Qed.
End StackAgree.

(** ** From single positions back to the sequence *)

Section Reassemble.
Local Open Scope nat_scope.




End Reassemble.


(** ** The whole model agrees with its token-by-token run *)

Section ModelAgree.
Local Open Scope nat_scope.

Lemma embed_input_ok (e : Embed xreal) (ids : list (list Z)) (L : nat) :
  ids_ok e ids L ->
  input_ok (Embed_call e ids) L /\ length (Embed_call e ids) = length ids.
Proof.
  intros (Hne & HL & HLpos & Hrange & Hfin). unfold Embed_call.
  split; [split; [|split; [|split]]|].
  - destruct ids; [contradiction | discriminate].
  - apply Forall_map. eapply Forall_impl; [|exact HL]. intros row Hrow.
    now rewrite length_map.
  - exact HLpos.
  - unfold fin3. apply Forall_map. eapply Forall_impl; [|exact Hrange].
    intros row Hrow. unfold fin2. apply Forall_map.
    eapply Forall_impl; [|exact Hrow]. intros id [H0 H1]. cbv beta in *.
    unfold take_row.
    replace ((0 <=? id)%Z && (id <? Z.of_nat (length (embedding e)))%Z) with true.
    + now apply fin1_nth.
    + symmetry. apply andb_true_intro. split; [now apply Z.leb_le | now apply Z.ltb_lt].
  - apply length_map.
Qed.

Lemma embed_step (e : Embed xreal) (ids : list (list Z)) (L t : nat) :
  ids_ok e ids L -> t < L ->
  Embed_call e (step_ids t ids) = step_input t (Embed_call e ids).
Proof.
  intros (_ & HL & _) Ht. unfold Embed_call, step_ids, step_input.
  rewrite !map_map. apply map_ext_in. intros row Hrow. cbn [map]. f_equal.
  symmetry. apply (@nth_map_lt _ _ (take_row e) row t 0%Z []).
  now rewrite (proj1 (Forall_forall _ _) HL row Hrow).
Qed.

Lemma embed_attend_rows (e : Embed xreal) (x : tensor3 xreal) :
  Embed_attend e x = map (map (lin_row (swapaxes (embedding e)))) x.
Proof. unfold Embed_attend. apply map_ext. intros xb. apply matmul_rows. Qed.

(** The part of a causal-LM call after the layers: the final norm and the
    output head, row by row. *)
Lemma phi3_lm_tail (m : Phi3.Phi3ForCausalLM) :
  (Phi3.tie m = false -> Phi3.lm_head m <> None) ->
  exists g : vec xreal -> vec xreal,
    forall ids mask rope cache,
      Phi3.Phi3ForCausalLM_call m ids mask rope cache
      = (let '(r, c) := Phi3.run_layers (Phi3.layers (Phi3.model m)) 0
                          (Embed_call (Phi3.embed_tokens (Phi3.model m)) ids)
                          mask rope cache in
         (match r with inl e => inl e | inr x => ok (map (map g) x) end, c)).
Proof.
  intros Hhead. destruct (Phi3.tie m) eqn:Et.
  - exists (fun r => lin_row (swapaxes (embedding (Phi3.embed_tokens (Phi3.model m))))
                             (rms_row (Phi3.norm (Phi3.model m)) r)).
    intros ids mask rope cache.
    unfold Phi3.Phi3ForCausalLM_call, Phi3.Phi3Model_call.
    destruct (Phi3.run_layers _ _ _ _ _ _) as [[e|x] c]; [reflexivity|].
    cbv beta iota zeta. rewrite Et. unfold ok at 1. cbv beta iota.
    rewrite embed_attend_rows. unfold RMSNorm_call3.
    rewrite map_map. f_equal. f_equal. apply map_ext. intros xb. now rewrite map_map.
  - destruct (Phi3.lm_head m) as [l|] eqn:El; [|now destruct (Hhead eq_refl)].
    exists (fun r => lin_row (kernel l) (rms_row (Phi3.norm (Phi3.model m)) r)).
    intros ids mask rope cache.
    unfold Phi3.Phi3ForCausalLM_call, Phi3.Phi3Model_call.
    destruct (Phi3.run_layers _ _ _ _ _ _) as [[e|x] c]; [reflexivity|].
    cbv beta iota zeta. rewrite Et, El. unfold ok at 1. cbv beta iota.
    rewrite Linear_call_rows. unfold RMSNorm_call3.
    rewrite map_map. f_equal. f_equal. apply map_ext. intros xb. now rewrite map_map.
Qed.

Lemma qwen3_lm_tail (m : Qwen3.Qwen3ForCausalLM) :
  (Qwen3.tie m = false -> Qwen3.lm_head m <> None) ->
  exists g : vec xreal -> vec xreal,
    forall ids mask rope cache,
      Qwen3.Qwen3ForCausalLM_call m ids mask rope cache
      = (let '(r, c) := Qwen3.run_layers (Qwen3.layers (Qwen3.model m)) 0
                          (Embed_call (Qwen3.embed_tokens (Qwen3.model m)) ids)
                          mask rope cache in
         (match r with inl e => inl e | inr x => ok (map (map g) x) end, c)).
Proof.
  intros Hhead. destruct (Qwen3.tie m) eqn:Et.
  - exists (fun r => lin_row (swapaxes (embedding (Qwen3.embed_tokens (Qwen3.model m))))
                             (rms_row (Qwen3.norm (Qwen3.model m)) r)).
    intros ids mask rope cache.
    unfold Qwen3.Qwen3ForCausalLM_call, Qwen3.Qwen3Model_call.
    destruct (Qwen3.run_layers _ _ _ _ _ _) as [[e|x] c]; [reflexivity|].
    cbv beta iota zeta. rewrite Et. unfold ok at 1. cbv beta iota.
    rewrite embed_attend_rows. unfold RMSNorm_call3.
    rewrite map_map. f_equal. f_equal. apply map_ext. intros xb. now rewrite map_map.
  - destruct (Qwen3.lm_head m) as [l|] eqn:El; [|now destruct (Hhead eq_refl)].
    exists (fun r => lin_row (kernel l) (rms_row (Qwen3.norm (Qwen3.model m)) r)).
    intros ids mask rope cache.
    unfold Qwen3.Qwen3ForCausalLM_call, Qwen3.Qwen3Model_call.
    destruct (Qwen3.run_layers _ _ _ _ _ _) as [[e|x] c]; [reflexivity|].
    cbv beta iota zeta. rewrite Et, El. unfold ok at 1. cbv beta iota.
    rewrite Linear_call_rows. unfold RMSNorm_call3.
    rewrite map_map. f_equal. f_equal. apply map_ext. intros xb. now rewrite map_map.
Qed.

(** A model call built from an embedding, a stack of layers that agree
    with their token-by-token runs, and a row-wise tail. *)
Lemma lm_steps
      (call : list (list Z) -> tensor4 xreal -> mat xreal * mat xreal ->
              list (option (KVCache xreal)) ->
              result (tensor3 xreal) * list (option (KVCache xreal)))
      (e : Embed xreal) (fs : list layer_fn) (g : vec xreal -> vec xreal)
      (rope : mat xreal * mat xreal) (L : nat) :
  (forall ids mask rope cache,
      call ids mask rope cache
      = (let '(r, c) := run_fns fs 0 (Embed_call e ids) mask rope cache in
         (match r with inl e => inl e | inr x => ok (map (map g) x) end, c))) ->
  Forall (fun f => steps_agree f L rope) fs ->
  exists G : mat xreal -> mat xreal,
    forall ids, ids_ok e ids L ->
      exists cs : nat -> list (option (KVCache xreal)),
        cs 0 = repeat (Some {| history := None |}) (length fs)
        /\ call ids (causal_mask L) rope (repeat None (length fs))
           = (ok (map G (Embed_call e ids)), repeat None (length fs))
        /\ (forall t, t < L ->
              call (step_ids t ids) (step_mask t) (step_rope t rope) (cs t)
              = (ok (step_input t (map G (Embed_call e ids))), cs (S t)))
        /\ (forall P, 1 <= P <= L ->
              call (prefix_ids P ids) (causal_mask P) (prefix_rope P rope)
                   (repeat (Some {| history := None |}) (length fs))
              = (ok (prefix_input P (map G (Embed_call e ids))), cs P))
        /\ Forall (fun zb => length zb = L) (map G (Embed_call e ids)).
Proof.
  intros Hcall Hfs.
  destruct (stack_steps_agree L rope fs Hfs) as [F HF].
  exists (fun xb => map g (F xb)). intros ids Hids.
  destruct (embed_input_ok e ids L Hids) as [Hx Hlx].
  destruct (HF _ Hx) as (cs & H0 & Hfull & Hstep & Hpre & Hy).
  pose proof Hy as (_ & HLy & _).
  rewrite <- (map_map F (map g)).
  exists cs. split; [exact H0|]. split; [|split; [|split]].
  - rewrite Hcall.
    specialize (Hfull [] []). cbn [length app] in Hfull.
    rewrite !app_nil_r in Hfull. now rewrite Hfull.
  - intros t Ht. rewrite Hcall.
    rewrite (embed_step e ids L t Hids Ht).
    specialize (Hstep t [] [] Ht). cbn [length app] in Hstep.
    rewrite !app_nil_r in Hstep. rewrite Hstep.
    now rewrite (step_input_map g _ L t HLy Ht).
  - intros P HP. rewrite Hcall.
    replace (Embed_call e (prefix_ids P ids)) with (prefix_input P (Embed_call e ids))
      by (unfold Embed_call, prefix_ids, prefix_input; rewrite !map_map;
          apply map_ext; intros row; apply firstn_map).
    specialize (Hpre P [] [] HP). cbn [length app] in Hpre.
    rewrite !app_nil_r in Hpre. rewrite Hpre.
    now rewrite prefix_input_map.
  - apply Forall_map. eapply Forall_impl; [|exact HLy].
    intros yb Hyb. now rewrite length_map.
Qed.

End ModelAgree.


(** ** Consequences: causality and independent batch entries *)

Section ModelConsequences.
Local Open Scope nat_scope.

Lemma phi3_lm_steps (m : Phi3.Phi3ForCausalLM) (rope : mat xreal * mat xreal) (L : nat) :
  phi3_model_ok m L rope -> 1 <= L ->
  exists G : mat xreal -> mat xreal,
    forall ids, ids_ok (Phi3.embed_tokens (Phi3.model m)) ids L ->
      let n := length (Phi3.layers (Phi3.model m)) in
      exists cs : nat -> list (option (KVCache xreal)),
        cs 0 = repeat (Some {| history := None |}) n
        /\ Phi3.Phi3ForCausalLM_call m ids (causal_mask L) rope (repeat None n)
           = (ok (map G (Embed_call (Phi3.embed_tokens (Phi3.model m)) ids)),
              repeat None n)
        /\ (forall t, t < L ->
              Phi3.Phi3ForCausalLM_call m (step_ids t ids) (step_mask t)
                (step_rope t rope) (cs t)
              = (ok (step_input t (map G (Embed_call (Phi3.embed_tokens (Phi3.model m))
                                                     ids))),
                 cs (S t)))
        /\ (forall P, 1 <= P <= L ->
              Phi3.Phi3ForCausalLM_call m (prefix_ids P ids) (causal_mask P)
                (prefix_rope P rope) (repeat (Some {| history := None |}) n)
              = (ok (prefix_input P
                       (map G (Embed_call (Phi3.embed_tokens (Phi3.model m)) ids))),
                 cs P))
        /\ Forall (fun zb => length zb = L)
                  (map G (Embed_call (Phi3.embed_tokens (Phi3.model m)) ids)).
Proof.
  intros [Hblocks Hhead] HL.
  destruct (phi3_lm_tail m Hhead) as [g Hg].
  destruct (lm_steps (Phi3.Phi3ForCausalLM_call m) (Phi3.embed_tokens (Phi3.model m))
              (map Phi3.TransformerBlock_call (Phi3.layers (Phi3.model m))) g rope L)
    as [G HG].
  - intros i mk r c. rewrite Hg. now rewrite phi3_run_layers_fns.
  - apply Forall_map. eapply Forall_impl; [|exact Hblocks].
    intros b [Hb Hr]. now apply phi3_block_steps_agree.
  - exists G. intros ids Hids n. subst n.
    rewrite <- (length_map Phi3.TransformerBlock_call). now apply HG.
Qed.

Lemma qwen3_lm_steps (m : Qwen3.Qwen3ForCausalLM) (rope : mat xreal * mat xreal) (L : nat) :
  qwen3_model_ok m L rope -> 1 <= L ->
  exists G : mat xreal -> mat xreal,
    forall ids, ids_ok (Qwen3.embed_tokens (Qwen3.model m)) ids L ->
      let n := length (Qwen3.layers (Qwen3.model m)) in
      exists cs : nat -> list (option (KVCache xreal)),
        cs 0 = repeat (Some {| history := None |}) n
        /\ Qwen3.Qwen3ForCausalLM_call m ids (causal_mask L) rope (repeat None n)
           = (ok (map G (Embed_call (Qwen3.embed_tokens (Qwen3.model m)) ids)),
              repeat None n)
        /\ (forall t, t < L ->
              Qwen3.Qwen3ForCausalLM_call m (step_ids t ids) (step_mask t)
                (step_rope t rope) (cs t)
              = (ok (step_input t (map G (Embed_call (Qwen3.embed_tokens (Qwen3.model m))
                                                     ids))),
                 cs (S t)))
        /\ (forall P, 1 <= P <= L ->
              Qwen3.Qwen3ForCausalLM_call m (prefix_ids P ids) (causal_mask P)
                (prefix_rope P rope) (repeat (Some {| history := None |}) n)
              = (ok (prefix_input P
                       (map G (Embed_call (Qwen3.embed_tokens (Qwen3.model m)) ids))),
                 cs P))
        /\ Forall (fun zb => length zb = L)
                  (map G (Embed_call (Qwen3.embed_tokens (Qwen3.model m)) ids)).
Proof.
  intros [Hblocks Hhead] HL.
  destruct (qwen3_lm_tail m Hhead) as [g Hg].
  destruct (lm_steps (Qwen3.Qwen3ForCausalLM_call m) (Qwen3.embed_tokens (Qwen3.model m))
              (map Qwen3.TransformerBlock_call (Qwen3.layers (Qwen3.model m))) g rope L)
    as [G HG].
  - intros i mk r c. rewrite Hg. now rewrite qwen3_run_layers_fns.
  - apply Forall_map. eapply Forall_impl; [|exact Hblocks].
    intros b [Hb Hr]. now apply qwen3_block_steps_agree.
  - exists G. intros ids Hids n. subst n.
    rewrite <- (length_map Qwen3.TransformerBlock_call). now apply HG.
Qed.



End ModelConsequences.


Section BatchIndependence.
Local Open Scope nat_scope.

Lemma ids_ok_app (e : Embed xreal) (ids1 ids2 : list (list Z)) (L : nat) :
  ids_ok e ids1 L -> ids_ok e ids2 L -> ids_ok e (ids1 ++ ids2) L.
Proof.
  intros (N1 & L1 & HL & R1 & F) (N2 & L2 & _ & R2 & _).
  split; [|split; [|split; [|split]]].
  - destruct ids1; [contradiction | discriminate].
  - apply Forall_app. now split.
  - exact HL.
  - apply Forall_app. now split.
  - exact F.
Qed.
End BatchIndependence.

(** X13.  Batch entries do not interact.  For a model of either variant
    with finite parameters, called without caches under the causal mask
    (one mask for every batch entry and head): the logits of a batch that
    is the concatenation of two batches are the logits of the first batch
    followed by those of the second. *)
Theorem batch_entries_do_not_interact
        (pm : Phi3.Phi3ForCausalLM) (qm : Qwen3.Qwen3ForCausalLM)
        (ids1 ids2 : list (list Z)) (rope : mat xreal * mat xreal) (L : nat) :
  (phi3_model_ok pm L rope ->
   ids_ok (Phi3.embed_tokens (Phi3.model pm)) ids1 L ->
   ids_ok (Phi3.embed_tokens (Phi3.model pm)) ids2 L ->
   let nones := repeat None (length (Phi3.layers (Phi3.model pm))) in
   exists z1 z2,
     Phi3.Phi3ForCausalLM_call pm ids1 (causal_mask L) rope nones = (ok z1, nones)
     /\ Phi3.Phi3ForCausalLM_call pm ids2 (causal_mask L) rope nones = (ok z2, nones)
     /\ Phi3.Phi3ForCausalLM_call pm (ids1 ++ ids2) (causal_mask L) rope nones
        = (ok (z1 ++ z2), nones))
  /\ (qwen3_model_ok qm L rope ->
      ids_ok (Qwen3.embed_tokens (Qwen3.model qm)) ids1 L ->
      ids_ok (Qwen3.embed_tokens (Qwen3.model qm)) ids2 L ->
      let nones := repeat None (length (Qwen3.layers (Qwen3.model qm))) in
      exists z1 z2,
        Qwen3.Qwen3ForCausalLM_call qm ids1 (causal_mask L) rope nones = (ok z1, nones)
        /\ Qwen3.Qwen3ForCausalLM_call qm ids2 (causal_mask L) rope nones = (ok z2, nones)
        /\ Qwen3.Qwen3ForCausalLM_call qm (ids1 ++ ids2) (causal_mask L) rope nones
           = (ok (z1 ++ z2), nones)).
Proof.
  split; intros Hm H1 H2; cbv zeta; pose proof H1 as (_ & _ & HL & _).
  - destruct (phi3_lm_steps pm rope L Hm HL) as [G HG].
    destruct (HG ids1 H1) as (cs1 & _ & F1 & _).
    destruct (HG ids2 H2) as (cs2 & _ & F2 & _).
    destruct (HG (ids1 ++ ids2) (ids_ok_app _ _ _ _ H1 H2)) as (cs & _ & F & _).
    do 2 eexists. split; [exact F1|]. split; [exact F2|].
    rewrite F. unfold Embed_call. now rewrite !map_app.
  - destruct (qwen3_lm_steps qm rope L Hm HL) as [G HG].
    destruct (HG ids1 H1) as (cs1 & _ & F1 & _).
    destruct (HG ids2 H2) as (cs2 & _ & F2 & _).
    destruct (HG (ids1 ++ ids2) (ids_ok_app _ _ _ _ H1 H2)) as (cs & _ & F & _).
    do 2 eexists. split; [exact F1|]. split; [exact F2|].
    rewrite F. unfold Embed_call. now rewrite !map_app.
Qed.

Section PromptThenDecode.
Local Open Scope nat_scope.



End PromptThenDecode.


Lemma example_norm_fin : norm_fin Ex.norm1.
Proof. split; [repeat constructor|]. exists 1%R. split; [reflexivity | lra]. Qed.

Lemma example_layers_ok :
  phi3_layer_ok Ex.phi3_attn2 /\ qwen3_layer_ok Ex.qwen3_attn2
  /\ rope_ok 1 2 Ex.rope_2pos /\ input_ok Ex.x2 2.
Proof.
  assert (Hn : norm_ok 2 Ex.norm2).
  { repeat split; [repeat constructor|]. exists 1%R. split; [reflexivity | lra]. }
  split; [|split; [|split]].
  - repeat split; cbn; try lia; try discriminate; repeat constructor.
  - unfold qwen3_layer_ok. repeat split; cbn; try lia; try discriminate;
      try exact Hn; try (now repeat constructor).
    all: try (exists 1%R; split; [reflexivity | lra]).
  - repeat split; repeat constructor.
  - repeat split; [discriminate | repeat constructor | lia | repeat constructor].
Qed.

Lemma example_blocks_ok : phi3_block_ok Ex.phi3_block2 /\ qwen3_block_ok Ex.qwen3_block2.
Proof.
  destruct example_layers_ok as (Hp & Hq & _ & _).
  pose proof example_norm_fin as Hn.
  split.
  - split; [exact Hp|]. repeat split; try exact (proj1 Hn); try exact (proj2 Hn);
      repeat constructor.
  - split; [exact Hq|]. repeat split; try exact (proj1 Hn); try exact (proj2 Hn);
      repeat constructor.
Qed.


Lemma example_models_ok :
  phi3_model_ok Ex.phi3_lm2 2 Ex.rope_2pos /\ qwen3_model_ok Ex.qwen3_lm2 2 Ex.rope_2pos
  /\ ids_ok Ex.emb2 Ex.ids_a 2 /\ ids_ok Ex.emb2 Ex.ids_b 2.
Proof.
  destruct example_layers_ok as (_ & _ & Hr & _).
  destruct example_blocks_ok as (Hp & Hq).
  split; [|split; [|split]].
  - split; [|discriminate].
    repeat (apply Forall_cons; [split; [exact Hp | exact Hr]|]). apply Forall_nil.
  - split; [|discriminate].
    repeat (apply Forall_cons; [split; [exact Hq | exact Hr]|]). apply Forall_nil.
  - split; [discriminate|]. split; [repeat constructor|]. split; [lia|].
    split; [|repeat constructor].
    repeat constructor; cbn; lia.
  - split; [discriminate|]. split; [repeat constructor|]. split; [lia|].
    split; [|repeat constructor].
    repeat constructor; cbn; lia.
Qed.



Lemma batch_entries_do_not_interact_witness :
  (exists z1 z2,
      Phi3.Phi3ForCausalLM_call Ex.phi3_lm2 Ex.ids_a (causal_mask 2) Ex.rope_2pos
        [None; None] = (ok z1, [None; None])
      /\ Phi3.Phi3ForCausalLM_call Ex.phi3_lm2 Ex.ids_b (causal_mask 2) Ex.rope_2pos
           [None; None] = (ok z2, [None; None])
      /\ Phi3.Phi3ForCausalLM_call Ex.phi3_lm2 (Ex.ids_a ++ Ex.ids_b) (causal_mask 2)
           Ex.rope_2pos [None; None] = (ok (z1 ++ z2), [None; None]))
  /\ (exists z1 z2,
         Qwen3.Qwen3ForCausalLM_call Ex.qwen3_lm2 Ex.ids_a (causal_mask 2) Ex.rope_2pos
           [None; None] = (ok z1, [None; None])
         /\ Qwen3.Qwen3ForCausalLM_call Ex.qwen3_lm2 Ex.ids_b (causal_mask 2)
              Ex.rope_2pos [None; None] = (ok z2, [None; None])
         /\ Qwen3.Qwen3ForCausalLM_call Ex.qwen3_lm2 (Ex.ids_a ++ Ex.ids_b)
              (causal_mask 2) Ex.rope_2pos [None; None] = (ok (z1 ++ z2), [None; None])).
Proof.
  destruct example_models_ok as (Hp & Hq & Ha & Hb).
  pose proof (batch_entries_do_not_interact
                Ex.phi3_lm2 Ex.qwen3_lm2 Ex.ids_a Ex.ids_b Ex.rope_2pos 2)
    as [Tp Tq].
  exact (conj (Tp Hp Ha Hb) (Tq Hq Ha Hb)).
Defined.


Lemma forward_touches_only_its_layers_entries_witness :
  (let out := snd (Phi3.Phi3ForCausalLM_call Ex.phi3_lm2 Ex.ids_a (causal_mask 2)
                     Ex.rope_2pos [None; Some Ex.empty_cache; Some Ex.empty_cache]) in
   nth_error out 0 = Some None /\ nth_error out 2 = Some (Some Ex.empty_cache))
  /\ (let out := snd (Qwen3.Qwen3ForCausalLM_call Ex.qwen3_lm2 Ex.ids_a (causal_mask 2)
                        Ex.rope_2pos [None; Some Ex.empty_cache; Some Ex.empty_cache]) in
      nth_error out 0 = Some None /\ nth_error out 2 = Some (Some Ex.empty_cache)).
Proof.
  pose proof (forward_touches_only_its_layers_entries
                Ex.phi3_lm2 Ex.qwen3_lm2 Ex.ids_a (causal_mask 2) Ex.rope_2pos
                [None; Some Ex.empty_cache; Some Ex.empty_cache])
    as [(_ & Pframe & Pnone) (_ & Qframe & Qnone)].
  split; split.
  - apply Pnone. reflexivity.
  - rewrite Pframe; [reflexivity | cbn; lia].
  - apply Qnone. reflexivity.
  - rewrite Qframe; [reflexivity | cbn; lia].
Defined.

Lemma first_call_ignores_fresh_caches_witness :
  fresh_alike [None; Some Ex.empty_cache] [Some Ex.empty_cache; None]
  /\ fst (Phi3.Phi3ForCausalLM_call Ex.phi3_lm2 Ex.ids_a (causal_mask 2) Ex.rope_2pos
            [None; Some Ex.empty_cache])
     = fst (Phi3.Phi3ForCausalLM_call Ex.phi3_lm2 Ex.ids_a (causal_mask 2) Ex.rope_2pos
              [Some Ex.empty_cache; None])
  /\ fst (Qwen3.Qwen3ForCausalLM_call Ex.qwen3_lm2 Ex.ids_a (causal_mask 2) Ex.rope_2pos
            [None; Some Ex.empty_cache])
     = fst (Qwen3.Qwen3ForCausalLM_call Ex.qwen3_lm2 Ex.ids_a (causal_mask 2) Ex.rope_2pos
              [Some Ex.empty_cache; None]).
Proof.
  assert (Hfresh : fresh_alike (T := xreal) [None; Some Ex.empty_cache]
                     [Some Ex.empty_cache; None]).
  { apply Forall2_cons; [split; [left | right]; reflexivity|].
    apply Forall2_cons; [split; [right | left]; reflexivity|]. apply Forall2_nil. }
  split; [exact Hfresh|].
  exact (first_call_ignores_fresh_caches Ex.phi3_lm2 Ex.qwen3_lm2 Ex.ids_a
           (causal_mask 2) Ex.rope_2pos _ _ Hfresh).
Defined.
